(** * MiniVSFS: the image builder (mkfs_builder.c) and the entry adder
      (mkfs_adder.c), embedded as executable functions on byte buffers.

    Bytes are integers in [0, 256); a buffer is a [list Z]; a pointer into
    a buffer is the buffer together with an offset.  Fixed-width C integers
    are [Z] with their wrap-around written out ([u8], [u16], [u32], [u64],
    [s64]).  Packed structs are records with a little-endian byte encoding
    ([*_bytes]) and a typed load from a buffer ([load_*]). *)

From Stdlib Require Import ZArith List Lia Bool.
Import ListNotations.
Open Scope Z_scope.

(** ** Constants shared by the two programs *)

Definition BS : Z := 4096.
Definition INODE_SIZE : Z := 128.
Definition ROOT_INO : Z := 1.
Definition DIRECT_MAX : Z := 12.
Definition MAGIC : Z := 0x4D565346.

(** ** Fixed-width integers *)

Definition u8  (x : Z) : Z := x mod 2 ^ 8.
Definition u16 (x : Z) : Z := x mod 2 ^ 16.
Definition u32 (x : Z) : Z := x mod 2 ^ 32.
Definition u64 (x : Z) : Z := x mod 2 ^ 64.
(** conversion of an unsigned 64-bit value to [long long] *)
Definition s64 (x : Z) : Z :=
  let y := x mod 2 ^ 64 in if y <? 2 ^ 63 then y else y - 2 ^ 64.

(** ** Byte buffers *)

(** [p[i]] for a pointer [p] at offset [off] of buffer [m]; a read past the
    end of the buffer (undefined in C) yields 0. *)
Definition get8 (m : list Z) (off : Z) : Z := nth (Z.to_nat off) m 0.

(** [memcpy(m + off, d, length d)]: the buffer keeps its length, bytes that
    would land past its end (undefined in C) are dropped. *)
Definition write_bytes (m : list Z) (off : Z) (d : list Z) : list Z :=
  let o := Z.to_nat off in
  firstn (length m) (firstn o m ++ d ++ skipn (o + length d) m).

Definition set8 (m : list Z) (off : Z) (v : Z) : list Z :=
  write_bytes m off [v].

(** [n] bytes starting at [off], zero past the end of the buffer *)
Definition read_bytes (m : list Z) (off : Z) (n : nat) : list Z :=
  firstn n (skipn (Z.to_nat off) m ++ repeat 0 n).

(** little-endian encoding of the low [n] bytes of [v] *)
Fixpoint le_bytes (n : nat) (v : Z) : list Z :=
  match n with
  | O => []
  | S k => v mod 256 :: le_bytes k (v / 256)
  end.

Fixpoint le_value (bs : list Z) : Z :=
  match bs with
  | [] => 0
  | b :: r => b + 256 * le_value r
  end.

Definition get_le (n : nat) (m : list Z) (off : Z) : Z :=
  le_value (read_bytes m off n).

(** fixed-size array field: truncated or zero-padded to [n] cells *)
Definition fit {A : Type} (n : nat) (d : A) (l : list A) : list A :=
  firstn n (l ++ repeat d n).

(** ** On-disk structures (#pragma pack(1)) *)

Record superblock_t := mk_superblock {
  magic : Z;                 (* u32 *)
  version : Z;               (* u32 *)
  block_size : Z;            (* u32 *)
  total_blocks : Z;          (* u64 *)
  inode_count : Z;
  inode_bitmap_start : Z;
  inode_bitmap_blocks : Z;
  data_bitmap_start : Z;
  data_bitmap_blocks : Z;
  inode_table_start : Z;
  inode_table_blocks : Z;
  data_region_start : Z;
  data_region_blocks : Z;
  root_inode : Z;
  mtime_epoch : Z;
  flags : Z;                 (* u32 *)
  checksum : Z               (* u32 *)
}.

Record inode_t := mk_inode {
  mode : Z;                  (* u16 *)
  links : Z;                 (* u16 *)
  uid : Z;                   (* u32 *)
  gid : Z;                   (* u32 *)
  size_bytes : Z;            (* u64 *)
  atime : Z;
  mtime : Z;
  ctime : Z;
  direct : list Z;           (* u32 [DIRECT_MAX] *)
  reserved_0 : Z;
  reserved_1 : Z;
  reserved_2 : Z;
  proj_id : Z;
  uid16_gid16 : Z;
  xattr_ptr : Z;             (* u64 *)
  inode_crc : Z              (* u64 *)
}.

Record dirent64_t := mk_dirent {
  inode_no : Z;              (* u32 *)
  type : Z;                  (* u8 *)
  name : list Z;             (* char [58] *)
  de_checksum : Z            (* u8 *)
}.

Definition SB_SIZE : nat := 116.

(** the bytes of a superblock before its checksum field (112 bytes) *)
Definition superblock_head (sb : superblock_t) : list Z :=
  le_bytes 4 (magic sb) ++ le_bytes 4 (version sb) ++
  le_bytes 4 (block_size sb) ++
  le_bytes 8 (total_blocks sb) ++ le_bytes 8 (inode_count sb) ++
  le_bytes 8 (inode_bitmap_start sb) ++ le_bytes 8 (inode_bitmap_blocks sb) ++
  le_bytes 8 (data_bitmap_start sb) ++ le_bytes 8 (data_bitmap_blocks sb) ++
  le_bytes 8 (inode_table_start sb) ++ le_bytes 8 (inode_table_blocks sb) ++
  le_bytes 8 (data_region_start sb) ++ le_bytes 8 (data_region_blocks sb) ++
  le_bytes 8 (root_inode sb) ++ le_bytes 8 (mtime_epoch sb) ++
  le_bytes 4 (flags sb).

Definition superblock_bytes (sb : superblock_t) : list Z :=
  superblock_head sb ++ le_bytes 4 (checksum sb).

Definition load_superblock (m : list Z) (off : Z) : superblock_t :=
  {| magic := get_le 4 m off;
     version := get_le 4 m (off + 4);
     block_size := get_le 4 m (off + 8);
     total_blocks := get_le 8 m (off + 12);
     inode_count := get_le 8 m (off + 20);
     inode_bitmap_start := get_le 8 m (off + 28);
     inode_bitmap_blocks := get_le 8 m (off + 36);
     data_bitmap_start := get_le 8 m (off + 44);
     data_bitmap_blocks := get_le 8 m (off + 52);
     inode_table_start := get_le 8 m (off + 60);
     inode_table_blocks := get_le 8 m (off + 68);
     data_region_start := get_le 8 m (off + 76);
     data_region_blocks := get_le 8 m (off + 84);
     root_inode := get_le 8 m (off + 92);
     mtime_epoch := get_le 8 m (off + 100);
     flags := get_le 4 m (off + 108);
     checksum := get_le 4 m (off + 112) |}.

(** the 120 data bytes of an inode, before its 8-byte checksum field *)
Definition inode_head (ino : inode_t) : list Z :=
  le_bytes 2 (mode ino) ++ le_bytes 2 (links ino) ++
  le_bytes 4 (uid ino) ++ le_bytes 4 (gid ino) ++
  le_bytes 8 (size_bytes ino) ++
  le_bytes 8 (atime ino) ++ le_bytes 8 (mtime ino) ++ le_bytes 8 (ctime ino) ++
  flat_map (le_bytes 4) (fit 12 0 (direct ino)) ++
  le_bytes 4 (reserved_0 ino) ++ le_bytes 4 (reserved_1 ino) ++
  le_bytes 4 (reserved_2 ino) ++ le_bytes 4 (proj_id ino) ++
  le_bytes 4 (uid16_gid16 ino) ++ le_bytes 8 (xattr_ptr ino).

Definition inode_bytes (ino : inode_t) : list Z :=
  inode_head ino ++ le_bytes 8 (inode_crc ino).

Definition load_inode (m : list Z) (off : Z) : inode_t :=
  {| mode := get_le 2 m off;
     links := get_le 2 m (off + 2);
     uid := get_le 4 m (off + 4);
     gid := get_le 4 m (off + 8);
     size_bytes := get_le 8 m (off + 12);
     atime := get_le 8 m (off + 20);
     mtime := get_le 8 m (off + 28);
     ctime := get_le 8 m (off + 36);
     direct := map (fun i => get_le 4 m (off + 44 + 4 * Z.of_nat i)) (seq 0 12);
     reserved_0 := get_le 4 m (off + 92);
     reserved_1 := get_le 4 m (off + 96);
     reserved_2 := get_le 4 m (off + 100);
     proj_id := get_le 4 m (off + 104);
     uid16_gid16 := get_le 4 m (off + 108);
     xattr_ptr := get_le 8 m (off + 112);
     inode_crc := get_le 8 m (off + 120) |}.

(** the first 63 bytes of a directory entry: ino(4) + type(1) + name(58) *)
Definition dirent_head (de : dirent64_t) : list Z :=
  le_bytes 4 (inode_no de) ++ le_bytes 1 (type de) ++
  map u8 (fit 58 0 (name de)).

Definition dirent_bytes (de : dirent64_t) : list Z :=
  dirent_head de ++ le_bytes 1 (de_checksum de).

Definition load_dirent (m : list Z) (off : Z) : dirent64_t :=
  {| inode_no := get_le 4 m off;
     type := get_le 1 m (off + 4);
     name := read_bytes m (off + 5) 58;
     de_checksum := get_le 1 m (off + 63) |}.

(** [memset(&s, 0, sizeof s)] / [= {0}] *)
Definition zero_superblock : superblock_t :=
  mk_superblock 0 0 0 0 0 0 0 0 0 0 0 0 0 0 0 0 0.
Definition zero_inode : inode_t :=
  mk_inode 0 0 0 0 0 0 0 0 (repeat 0 12) 0 0 0 0 0 0 0.
Definition zero_dirent : dirent64_t := mk_dirent 0 0 (repeat 0 58) 0.

Definition set_checksum (sb : superblock_t) (c : Z) : superblock_t :=
  mk_superblock (magic sb) (version sb) (block_size sb) (total_blocks sb)
    (inode_count sb) (inode_bitmap_start sb) (inode_bitmap_blocks sb)
    (data_bitmap_start sb) (data_bitmap_blocks sb) (inode_table_start sb)
    (inode_table_blocks sb) (data_region_start sb) (data_region_blocks sb)
    (root_inode sb) (mtime_epoch sb) (flags sb) c.

Definition set_mtime_epoch (sb : superblock_t) (t : Z) : superblock_t :=
  mk_superblock (magic sb) (version sb) (block_size sb) (total_blocks sb)
    (inode_count sb) (inode_bitmap_start sb) (inode_bitmap_blocks sb)
    (data_bitmap_start sb) (data_bitmap_blocks sb) (inode_table_start sb)
    (inode_table_blocks sb) (data_region_start sb) (data_region_blocks sb)
    (root_inode sb) t (flags sb) (checksum sb).

Definition set_inode_crc (ino : inode_t) (c : Z) : inode_t :=
  mk_inode (mode ino) (links ino) (uid ino) (gid ino) (size_bytes ino)
    (atime ino) (mtime ino) (ctime ino) (direct ino) (reserved_0 ino)
    (reserved_1 ino) (reserved_2 ino) (proj_id ino) (uid16_gid16 ino)
    (xattr_ptr ino) c.

Definition set_links_size (ino : inode_t) (l s : Z) : inode_t :=
  mk_inode (mode ino) l (uid ino) (gid ino) s
    (atime ino) (mtime ino) (ctime ino) (direct ino) (reserved_0 ino)
    (reserved_1 ino) (reserved_2 ino) (proj_id ino) (uid16_gid16 ino)
    (xattr_ptr ino) (inode_crc ino).

Definition set_de_checksum (de : dirent64_t) (c : Z) : dirent64_t :=
  mk_dirent (inode_no de) (type de) (name de) c.

(** ** CRC-32 table (crc32_init, the same text in both programs) *)

Definition crc32_tab_step (c : Z) : Z :=
  if Z.testbit c 0 then Z.lxor 0xEDB88320 (Z.shiftr c 1) else Z.shiftr c 1.

Definition crc32_tab_entry (i : Z) : Z :=
  Nat.iter 8 crc32_tab_step i.

Definition crc32_init : list Z :=
  map (fun i => crc32_tab_entry (Z.of_nat i)) (seq 0 256).

(** the global table after [crc32_init()], which both mains call first *)
Definition CRC32_TAB : list Z := Eval vm_compute in crc32_init.

(** one round of the byte loop: c = CRC32_TAB[(c^p[i])&0xFF] ^ (c>>8) *)
Definition crc32_round (c p : Z) : Z :=
  Z.lxor (nth (Z.to_nat (Z.land (Z.lxor c p) 255)) CRC32_TAB 0) (Z.shiftr c 8).

(** ** Directory-entry checksum (the same text in both programs) *)

Definition dirent_checksum_finalize (de : dirent64_t) : dirent64_t :=
  let p := dirent_bytes de in
  let x := fold_left (fun x b => Z.lxor x b) (firstn 63 p) 0 in
  set_de_checksum de x.

(** ** Bitmap helpers (the same text in both programs); [bm] is the
    pointer [m + off] *)

Definition bitmap_set (m : list Z) (off : Z) (idx : Z) : list Z :=
  let a := off + Z.shiftr idx 3 in
  set8 m a (Z.lor (get8 m a) (u8 (Z.shiftl 1 (Z.land idx 7)))).

Definition bitmap_clear (m : list Z) (off : Z) (idx : Z) : list Z :=
  let a := off + Z.shiftr idx 3 in
  set8 m a (Z.land (get8 m a) (u8 (Z.lnot (Z.shiftl 1 (Z.land idx 7))))).

Definition bitmap_test (m : list Z) (off : Z) (idx : Z) : Z :=
  Z.land (Z.shiftr (get8 m (off + Z.shiftr idx 3)) (Z.land idx 7)) 1.

(** ** C strings: a list of characters; the terminating NUL is implicit
    (a read past the end of the list yields 0). *)

(** the [n] bytes that [strncpy(dst, src, n)] stores *)
Fixpoint strncpy_bytes (src : list Z) (n : nat) : list Z :=
  match n with
  | O => []
  | S k =>
      match src with
      | [] => repeat 0 n
      | c :: s => if c =? 0 then repeat 0 n else u8 c :: strncpy_bytes s k
      end
  end.

Definition strncpy (dst src : list Z) (n : nat) : list Z :=
  strncpy_bytes src n ++ skipn n dst.

Fixpoint strncmp (a b : list Z) (n : nat) : Z :=
  match n with
  | O => 0
  | S k =>
      let ca := u8 (hd 0 a) in
      let cb := u8 (hd 0 b) in
      if ca =? cb
      then if ca =? 0 then 0 else strncmp (tl a) (tl b) k
      else ca - cb
  end.

(** [strrchr(path, '/')] then [base ? base+1 : path] *)
Definition basename (path : list Z) : list Z :=
  fold_left (fun acc c => if c =? 47 then [] else acc ++ [c]) path [].

(** * mkfs_builder.c *)

Module Builder.

(** crc32(data, n) *)
Definition crc32 (data : list Z) (n : nat) : Z :=
  Z.lxor (fold_left crc32_round (firstn n data) 0xFFFFFFFF) 0xFFFFFFFF.

(** [superblock_crc_finalize(sb)] hashes BS - 4 = 4092 bytes starting at
    [sb], although a [superblock_t] has 116 bytes: the remaining 3976 bytes
    are whatever memory follows the struct, given here as [after]
    ([after i] is the byte at address [(uint8_t* )sb + 116 + i]). *)
Definition superblock_crc_finalize (after : nat -> Z) (sb : superblock_t)
  : superblock_t :=
  let sb := set_checksum sb 0 in
  let s := crc32 (superblock_bytes sb ++ map after (seq 0 (4092 - SB_SIZE)))
                 (Z.to_nat (BS - 4)) in
  set_checksum sb s.

Definition inode_crc_finalize (ino : inode_t) : inode_t :=
  let tmp := inode_bytes ino in
  let tmp := write_bytes tmp 120 (repeat 0 8) in
  let c := crc32 tmp 120 in
  set_inode_crc ino (u64 c).

Record layout_t := mk_layout {
  l_total_blocks : Z;
  l_inode_bitmap_start : Z;
  l_data_bitmap_start : Z;
  l_inode_table_start : Z;
  l_inode_table_blocks : Z;
  l_data_region_start : Z;
  l_data_region_blocks : Z
}.

Inductive reject := Usage | ImageTooSmall | InvalidLayout.

(** how [main] ends: an early [return code], or the bytes written to the
    image file followed by [return 0] *)
Inductive outcome :=
| Rejected (why : reject) (code : Z)
| Created (img : list Z).

Definition exit_code (o : outcome) : Z :=
  match o with Rejected _ code => code | Created _ => 0 end.

Definition image_of (o : outcome) : list Z :=
  match o with Rejected _ _ => [] | Created img => img end.

(** the parameter check of main (lines 150-154) *)
Definition params_ok (image : option (list Z)) (size_kib inode_count : Z)
  : bool :=
  negb (match image with None => true | Some _ => false end
        || (size_kib <? 180) || (4096 <? size_kib)
        || negb (Z.rem size_kib 4 =? 0)
        || (inode_count <? 128) || (512 <? inode_count)).

(** the layout computation of main (lines 156-166) *)
Definition layout (size_kib inode_count : Z) : reject * Z + layout_t :=
  let total_blocks := u64 (u64 size_kib * 1024) / BS in
  if total_blocks <? 1 + 1 + 1 + 1 then inl (ImageTooSmall, 2) else
  let inode_table_blocks :=
    u64 (Z.quot (inode_count * INODE_SIZE + (BS - 1)) BS) in
  let inode_bitmap_start := 1 in
  let data_bitmap_start := 2 in
  let inode_table_start := 3 in
  let data_region_start := u64 (inode_table_start + inode_table_blocks) in
  if total_blocks <=? data_region_start then inl (InvalidLayout, 2) else
  let data_region_blocks := u64 (total_blocks - data_region_start) in
  inr (mk_layout total_blocks inode_bitmap_start data_bitmap_start
         inode_table_start inode_table_blocks data_region_start
         data_region_blocks).

(** the root inode of main (lines 182-193) *)
Definition root_inode_of (l : layout_t) (now : Z) : inode_t :=
  inode_crc_finalize
    {| mode := 16384 (* 0040000 *); links := 2; uid := 0; gid := 0;
       size_bytes := 2 * 64;
       atime := u64 now; mtime := u64 now; ctime := u64 now;
       direct := u32 (l_data_region_start l + 0) :: repeat 0 11;
       reserved_0 := 0; reserved_1 := 0; reserved_2 := 0;
       proj_id := 14; uid16_gid16 := 0; xattr_ptr := 0; inode_crc := 0 |}.

(** the entries "." and ".." of main (lines 196-202) *)
Definition dot : dirent64_t :=
  dirent_checksum_finalize
    (mk_dirent ROOT_INO 2 (strncpy (name zero_dirent) [46] 57)
               (de_checksum zero_dirent)).
Definition dotdot : dirent64_t :=
  dirent_checksum_finalize
    (mk_dirent ROOT_INO 2 (strncpy (name zero_dirent) [46; 46] 57)
               (de_checksum zero_dirent)).

(** the superblock of main (lines 211-229) *)
Definition superblock_of (l : layout_t) (inode_count now : Z)
    (after : nat -> Z) : superblock_t :=
  superblock_crc_finalize after
    {| magic := MAGIC; version := 1; block_size := BS;
       total_blocks := l_total_blocks l;
       inode_count := u64 inode_count;
       inode_bitmap_start := l_inode_bitmap_start l;
       inode_bitmap_blocks := 1;
       data_bitmap_start := l_data_bitmap_start l;
       data_bitmap_blocks := 1;
       inode_table_start := l_inode_table_start l;
       inode_table_blocks := l_inode_table_blocks l;
       data_region_start := l_data_region_start l;
       data_region_blocks := l_data_region_blocks l;
       root_inode := ROOT_INO;
       mtime_epoch := u64 now;
       flags := 0; checksum := 0 |}.

(** [main], after argument parsing: [image] is the --image argument,
    [size_kib] and [inode_count] the parsed numbers, [now] the value of
    time(NULL) and [after] the memory that follows the local superblock.
    [Created img] is the image file as main writes it when every host call
    succeeds; the exits with [return 1] on a failing calloc, fopen or
    fwrite are not part of this function, [builder_on_host] adds them. *)
Definition main (image : option (list Z)) (size_kib inode_count now : Z)
    (after : nat -> Z) : outcome :=
  if negb (params_ok image size_kib inode_count) then Rejected Usage 2 else
  match layout size_kib inode_count with
  | inl (why, code) => Rejected why code
  | inr l =>
      (* in-memory image pieces *)
      let inode_bm := repeat 0 (Z.to_nat BS) in
      let data_bm := repeat 0 (Z.to_nat BS) in
      let itab := repeat zero_inode (Z.to_nat inode_count) in
      let data := repeat 0 (Z.to_nat (u64 (l_data_region_blocks l * BS))) in
      let inode_bm := bitmap_set inode_bm 0 0 in
      let data_bm := bitmap_set data_bm 0 0 in
      let itab := root_inode_of l now :: tl itab in
      let blk0 := 0 * BS in
      let data := write_bytes data (blk0 + 0 * 64) (dirent_bytes dot) in
      let data := write_bytes data (blk0 + 1 * 64) (dirent_bytes dotdot) in
      let sb := superblock_of l inode_count now after in
      (* the writes to the image file *)
      let sbpad := write_bytes (repeat 0 (Z.to_nat BS)) 0 (superblock_bytes sb) in
      let it_bytes := u64 (inode_count * 128) in
      let it_pad := u64 (l_inode_table_blocks l * BS - it_bytes) in
      Created (sbpad ++ inode_bm ++ data_bm ++
               flat_map inode_bytes itab ++ repeat 0 (Z.to_nat it_pad) ++
               data)
  end.

End Builder.

(** * mkfs_adder.c *)

Module Adder.

Definition crc32_update (crc : Z) (buf : list Z) (len : nat) : Z :=
  fold_left crc32_round (firstn len buf) crc.

Definition crc32_finalize (buf : list Z) (len : nat) : Z :=
  let c := 0xFFFFFFFF in
  let c := crc32_update c buf len in
  Z.lxor c 0xFFFFFFFF.

Definition superblock_crc_finalize (sb : superblock_t) : superblock_t :=
  let sb := set_checksum sb 0 in
  set_checksum sb (crc32_finalize (superblock_bytes sb) SB_SIZE).

Definition inode_crc_finalize (ino : inode_t) : inode_t :=
  let ino := set_inode_crc ino 0 in
  let c := crc32_finalize (inode_bytes ino) 128 in
  set_inode_crc ino (u64 c).

(** the loop of bitmap_ffz, [n] iterations left, at bit [i] *)
Fixpoint ffz_loop (m : list Z) (off : Z) (i : Z) (n : nat) : Z :=
  match n with
  | O => -1
  | S k => if bitmap_test m off i =? 0 then s64 i
           else ffz_loop m off (i + 1) k
  end.

Definition bitmap_ffz (m : list Z) (off : Z) (bits : Z) : Z :=
  ffz_loop m off 0 (Z.to_nat bits).

(** blocks needed for a file of [fsz] bytes (line 195 of main) *)
Definition blocks_needed (fsz : Z) : Z := u64 (u64 fsz + (BS - 1)) / BS.

Inductive error :=
| EmptyImage | NotMiniVSFS | NoFreeInode | InodeIndexOOB | FileTooLarge
| NoFreeDataBlocks | RootMissingFirstBlock | AlreadyExists | DirectoryFull.

(** how [main] ends: an early [return code] with the image buffer as it
    is at that point, or the buffer written to the output file *)
Inductive result :=
| Failed (e : error) (code : Z) (buf : list Z)
| Written (out : list Z).

(** the value [main] returns *)
Definition exit_code (r : result) : Z :=
  match r with Failed _ code _ => code | Written _ => 0 end.

(** the image buffer when [main] returns *)
Definition buffer_of (r : result) : list Z :=
  match r with Failed _ _ buf => buf | Written out => out end.

Definition error_of (r : result) : option error :=
  match r with Failed e _ _ => Some e | Written _ => None end.

(** the allocation loop of main (lines 203-212): [n] iterations left, at
    index [i]; [None] is the exit on "no free data blocks" *)
Fixpoint alloc_blocks (n : nat) (i : Z) (img : list Z) (data_bm : Z)
    (direct : list Z) : list Z * option (list Z) :=
  match n with
  | O => (img, Some direct)
  | S k =>
      let sb := load_superblock img 0 in
      let idx := bitmap_ffz img data_bm (data_region_blocks sb) in
      if idx <? 0 then (img, None) else
      let img := bitmap_set img data_bm (u64 idx) in
      let sb := load_superblock img 0 in
      let direct :=
        write_bytes direct i [u32 (u64 (data_region_start sb + u64 idx))] in
      alloc_blocks k (i + 1) img data_bm direct
  end.

(** the directory scan of main (lines 230-242): [n] iterations left, at
    entry [i]; [None] is the exit on a duplicate name, otherwise the final
    [(slot, used_entries)] *)
Fixpoint scan_root (n : nat) (i : Z) (img : list Z) (dblk : Z)
    (base : list Z) (slot used_entries : Z) : option (Z * Z) :=
  match n with
  | O => Some (slot, used_entries)
  | S k =>
      let dent_i := load_dirent img (dblk + i * 64) in
      if negb (inode_no dent_i =? 0) then
        let used_entries := u64 (used_entries + 1) in
        if strncmp (name dent_i) base 58 =? 0 then None
        else scan_root k (i + 1) img dblk base slot used_entries
      else if slot <? 0 then
        scan_root k (i + 1) img dblk base (s64 i) used_entries
      else scan_root k (i + 1) img dblk base slot used_entries
  end.

(** the copy loop of main (lines 264-271) *)
Fixpoint write_file_data (n : nat) (i : Z) (img : list Z) (direct : list Z)
    (fbuf : list Z) (fsz : Z) : list Z :=
  match n with
  | O => img
  | S k =>
      let absb := nth (Z.to_nat i) direct 0 in
      let blk := u64 (absb * BS) in
      let remain := if u64 (i * BS) <? fsz then fsz - u64 (i * BS) else 0 in
      let tocopy := if BS <? remain then BS else remain in
      let img :=
        if tocopy =? 0 then img
        else write_bytes img blk
               (firstn (Z.to_nat tocopy) (skipn (Z.to_nat (u64 (i * BS))) fbuf)) in
      let img :=
        if tocopy <? BS
        then write_bytes img (blk + tocopy) (repeat 0 (Z.to_nat (BS - tocopy)))
        else img in
      write_file_data k (i + 1) img direct fbuf fsz
  end.

(** lines 248-291 of main: the new inode, the file data, the directory
    entry, the root inode and the superblock.  A store through a struct
    pointer into the image is a load of the struct at that offset, the
    field update, and a write of its bytes back to the same offset. *)
Definition commit (img : list Z) (inode_bm itab dblk : Z) (free_in new_ino : Z)
    (blocks_needed : Z) (direct : list Z) (slot used_entries : Z)
    (base fbuf : list Z) (fsz now : Z) : list Z :=
  let inode :=
    inode_crc_finalize
      {| mode := 32768 (* 0100000 *); links := 1; uid := 0; gid := 0;
         size_bytes := u64 fsz;
         atime := u64 now; mtime := u64 now; ctime := u64 now;
         direct := direct;
         reserved_0 := 0; reserved_1 := 0; reserved_2 := 0;
         proj_id := 14; uid16_gid16 := 0; xattr_ptr := 0; inode_crc := 0 |} in
  let img := write_bytes img (itab + free_in * 128) (inode_bytes inode) in
  let img := bitmap_set img inode_bm free_in in
  let img := write_file_data (Z.to_nat blocks_needed) 0 img direct fbuf fsz in
  let de :=
    dirent_checksum_finalize
      (mk_dirent new_ino 1 (strncpy (name zero_dirent) base 57)
                 (de_checksum zero_dirent)) in
  let img := write_bytes img (dblk + slot * 64) (dirent_bytes de) in
  let root := load_inode img itab in
  let used_entries := u64 (used_entries + 1) in
  let root :=
    inode_crc_finalize
      (set_links_size root (u16 (links root + 1)) (u64 (used_entries * 64))) in
  let img := write_bytes img itab (inode_bytes root) in
  let sb := load_superblock img 0 in
  let sb := superblock_crc_finalize (set_mtime_epoch sb (u64 now)) in
  write_bytes img 0 (superblock_bytes sb).

(** [main], after argument parsing: [img] is the content of the input
    image, [filepath] the --file argument, [fbuf] the bytes main has read
    from that very file (lines 173-186) and [now] the value of time(NULL).
    [filepath] and [fbuf] describe one file of the host, so they are not
    independent: a path that names a directory (base name ".", ".." or
    empty) never comes with bytes.  The exits with [return 1] on a failing
    host call (fopen, fseek, ftell, malloc, fread, fwrite) are not part of
    this function. *)
Definition main (img : list Z) (filepath : list Z) (fbuf : list Z) (now : Z)
  : result :=
  let isz := Z.of_nat (length img) in
  if isz <=? 0 then Failed EmptyImage 1 img else
  let sb := load_superblock img 0 in
  if negb (block_size sb =? BS) || negb (magic sb =? MAGIC)
  then Failed NotMiniVSFS 2 img else
  let inode_bm := u64 (inode_bitmap_start sb * BS) in
  let data_bm := u64 (data_bitmap_start sb * BS) in
  let itab := u64 (inode_table_start sb * BS) in
  let fsz := Z.of_nat (length fbuf) in
  let free_in := bitmap_ffz img inode_bm (inode_count sb) in
  if free_in <? 0 then Failed NoFreeInode 1 img else
  if inode_count sb <=? u64 free_in then Failed InodeIndexOOB 1 img else
  let new_ino := u32 (free_in + 1) in
  let blocks_needed := blocks_needed fsz in
  if DIRECT_MAX <? blocks_needed then Failed FileTooLarge 1 img else
  match alloc_blocks (Z.to_nat blocks_needed) 0 img data_bm (repeat 0 12) with
  | (img, None) => Failed NoFreeDataBlocks 1 img
  | (img, Some new_direct) =>
      let root := load_inode img itab in
      let first_dir_block := nth 0 (direct root) 0 in
      if first_dir_block =? 0 then Failed RootMissingFirstBlock 1 img else
      let dblk := u64 (first_dir_block * BS) in
      let entries := BS / 64 in
      let base := basename filepath in
      match scan_root (Z.to_nat entries) 0 img dblk base (-1) 0 with
      | None => Failed AlreadyExists 1 img
      | Some (slot, used_entries) =>
          if slot <? 0 then Failed DirectoryFull 1 img else
          Written (commit img inode_bm itab dblk free_in new_ino
                     blocks_needed new_direct slot used_entries base fbuf fsz
                     now)
      end
  end.

End Adder.

(** * Specification-side notions *)

Definition in_u32 (x : Z) : Prop := 0 <= x < 2 ^ 32.

(** the mathematical ceiling of [a / b] *)
Definition ceil_div (a b : Z) : Z := - ((- a) / b).

(** the parameter range of the Layout Planner *)
Definition valid_params (size_kib inode_count : Z) : Prop :=
  180 <= size_kib <= 4096 /\ size_kib mod 4 = 0 /\
  128 <= inode_count <= 512.

(** the fields of a superblock fit their C types *)
Definition superblock_in_range (sb : superblock_t) : Prop :=
  (0 <= magic sb < 2 ^ 32 /\ 0 <= version sb < 2 ^ 32 /\
   0 <= block_size sb < 2 ^ 32 /\ 0 <= flags sb < 2 ^ 32 /\
   0 <= checksum sb < 2 ^ 32) /\
  (0 <= total_blocks sb < 2 ^ 64 /\ 0 <= inode_count sb < 2 ^ 64 /\
   0 <= inode_bitmap_start sb < 2 ^ 64 /\ 0 <= inode_bitmap_blocks sb < 2 ^ 64 /\
   0 <= data_bitmap_start sb < 2 ^ 64 /\ 0 <= data_bitmap_blocks sb < 2 ^ 64) /\
  (0 <= inode_table_start sb < 2 ^ 64 /\ 0 <= inode_table_blocks sb < 2 ^ 64 /\
   0 <= data_region_start sb < 2 ^ 64 /\ 0 <= data_region_blocks sb < 2 ^ 64 /\
   0 <= root_inode sb < 2 ^ 64 /\ 0 <= mtime_epoch sb < 2 ^ 64).

(** the guards of the adder's main that precede the file-size check: a
    non-empty image with the expected block size and magic, and a free
    inode within range *)
Definition reaches_size_check (img : list Z) : bool :=
  let sb := load_superblock img 0 in
  let free_in :=
    Adder.bitmap_ffz img (u64 (inode_bitmap_start sb * BS)) (inode_count sb) in
  negb (Z.of_nat (length img) <=? 0)
  && (block_size sb =? BS) && (magic sb =? MAGIC)
  && negb (free_in <? 0) && negb (inode_count sb <=? u64 free_in).

(** the first [n] bits of the bitmap at [m + off] *)
Definition bitmap_bits (m : list Z) (off : Z) (n : nat) : list Z :=
  map (fun i => bitmap_test m off (Z.of_nat i)) (seq 0 n).

(** recomputation of the superblock checksum over the stored block 0 with
    the checksum field zeroed: over the first BS - 4 bytes of the block (the
    builder's convention) and over the 116 bytes of the struct (the adder's) *)
Definition recomputed_checksum_block (img : list Z) : Z :=
  Builder.crc32 (write_bytes (firstn (Z.to_nat BS) img) 112 (repeat 0 4))
                (Z.to_nat (BS - 4)).
Definition recomputed_checksum_struct (img : list Z) : Z :=
  checksum (Adder.superblock_crc_finalize (load_superblock img 0)).

(** an XOR checksum of a stored directory entry is valid *)
Definition dirent_valid (de : dirent64_t) : bool :=
  de_checksum (dirent_checksum_finalize de) =? de_checksum de.

(** ** Concrete data used by the evaluated statements *)

(** the superblock fields the builder sets for --size-kib 180 --inodes 128
    at time 1700000000, before the checksum *)
Definition sample_superblock : superblock_t :=
  {| magic := MAGIC; version := 1; block_size := BS; total_blocks := 45;
     inode_count := 128; inode_bitmap_start := 1; inode_bitmap_blocks := 1;
     data_bitmap_start := 2; data_bitmap_blocks := 1;
     inode_table_start := 3; inode_table_blocks := 4;
     data_region_start := 7; data_region_blocks := 38;
     root_inode := 1; mtime_epoch := 1700000000; flags := 0; checksum := 0 |}.

(** the inode the adder fills for a 5000-byte file in blocks 8 and 9 *)
Definition sample_inode : inode_t :=
  {| mode := 32768; links := 1; uid := 0; gid := 0; size_bytes := 5000;
     atime := 1700000001; mtime := 1700000001; ctime := 1700000001;
     direct := [8; 9; 0; 0; 0; 0; 0; 0; 0; 0; 0; 0];
     reserved_0 := 0; reserved_1 := 0; reserved_2 := 0; proj_id := 14;
     uid16_gid16 := 0; xattr_ptr := 0; inode_crc := 0 |}.

(** --image img --size-kib 180 --inodes 128 at time 1700000000, the
    superblock struct being followed by zero bytes *)
Definition image_path : list Z := [105; 109; 103].
Definition fresh_image : list Z :=
  Builder.image_of
    (Builder.main (Some image_path) 180 128 1700000000 (fun _ => 0)).

(** the same run with one non-zero byte in the memory after the struct *)
Definition dirty_after (i : nat) : Z := match i with O => 1 | _ => 0 end.
Definition fresh_image_dirty : list Z :=
  Builder.image_of
    (Builder.main (Some image_path) 180 128 1700000000 dirty_after).

(** the fresh image with the first byte of its magic overwritten *)
Definition bad_magic_image : list Z := set8 fresh_image 0 0.

(** a file of [n] bytes, each the character 'x' *)
Definition file_of_size (n : Z) : list Z := repeat 120 (Z.to_nat n).

(** "/tmp/hello.txt" and its base name "hello.txt" *)
Definition hello_name : list Z := [104; 101; 108; 108; 111; 46; 116; 120; 116].
Definition hello_path : list Z := [47; 116; 109; 112; 47] ++ hello_name.


(** ** Notions used by the further properties *)

(** a buffer of bytes: every cell is in [0, 256) *)
Definition byte_ok (b : Z) : Prop := 0 <= b < 256.
Definition bytes_ok (m : list Z) : Prop := Forall byte_ok m.

(** the characters of a C string: non-NUL bytes *)
Definition char_ok (c : Z) : Prop := 0 < c < 256.

(** the fields of an inode fit their C types *)
Definition inode_in_range (ino : inode_t) : Prop :=
  (0 <= mode ino < 2 ^ 16 /\ 0 <= links ino < 2 ^ 16 /\
   0 <= uid ino < 2 ^ 32 /\ 0 <= gid ino < 2 ^ 32) /\
  (0 <= size_bytes ino < 2 ^ 64 /\ 0 <= atime ino < 2 ^ 64 /\
   0 <= mtime ino < 2 ^ 64 /\ 0 <= ctime ino < 2 ^ 64) /\
  (length (direct ino) = 12%nat /\
   Forall (fun d => 0 <= d < 2 ^ 32) (direct ino)) /\
  (0 <= reserved_0 ino < 2 ^ 32 /\ 0 <= reserved_1 ino < 2 ^ 32 /\
   0 <= reserved_2 ino < 2 ^ 32 /\ 0 <= proj_id ino < 2 ^ 32 /\
   0 <= uid16_gid16 ino < 2 ^ 32) /\
  (0 <= xattr_ptr ino < 2 ^ 64 /\ 0 <= inode_crc ino < 2 ^ 64).

(** the fields of a directory entry fit their C types *)
Definition dirent_in_range (de : dirent64_t) : Prop :=
  0 <= inode_no de < 2 ^ 32 /\ 0 <= type de < 2 ^ 8 /\
  length (name de) = 58%nat /\ bytes_ok (name de) /\
  0 <= de_checksum de < 2 ^ 8.

(** ** The builder on a host *)





(** the decision procedure for [bytes_ok] *)
Definition bytes_okb (m : list Z) : bool :=
  forallb (fun b => (0 <=? b) && (b <? 256)) m.

(** entry [i] of the directory block at [dblk] *)
Definition dir_entry (img : list Z) (dblk : Z) (i : nat) : dirent64_t :=
  load_dirent img (dblk + Z.of_nat i * 64).

(** the entry is in use: its inode number is not 0 *)
Definition entry_used (img : list Z) (dblk : Z) (i : nat) : bool :=
  negb (inode_no (dir_entry img dblk i) =? 0).

(** the entry is in use and its name compares equal to [base] *)
Definition entry_named (img : list Z) (dblk : Z) (base : list Z) (i : nat)
  : bool :=
  entry_used img dblk i && (strncmp (name (dir_entry img dblk i)) base 58 =? 0).

(** the number of entries in use among entries [a .. a + n - 1] *)
Definition used_entries (img : list Z) (dblk : Z) (a n : nat) : Z :=
  Z.of_nat (length (filter (entry_used img dblk) (seq a n))).

(** the clear bits among bits [a .. a + n - 1] of the bitmap at [m + off],
    in ascending order *)
Definition free_bits_from (m : list Z) (off : Z) (a n : nat) : list Z :=
  filter (fun j => bitmap_test m off j =? 0) (map Z.of_nat (seq a n)).

Definition free_bits (m : list Z) (off : Z) (bits : nat) : list Z :=
  free_bits_from m off 0 bits.

(** [bitmap_set] on each of the bits [js], in order *)
Definition set_bits (m : list Z) (off : Z) (js : list Z) : list Z :=
  fold_left (fun m j => bitmap_set m off j) js m.

(** a consistent image that holds [k] files in [m] data blocks next to the
    root directory: the superblock describes the layout ([icount] inodes,
    [tb] blocks, [itb] blocks of inode table), inodes 1 .. k + 1 and data
    blocks 0 .. m are allocated and no others, the root inode points to the
    first data block and counts k + 2 links and entries, and the first
    k + 2 entries of the root directory are the ones in use *)
Definition image_state (img : list Z) (icount tb itb k m : Z) : Prop :=
  (4 <= itb < 17 /\ 45 <= tb <= 1024 /\ 128 <= icount <= 512 /\
   icount * 128 <= itb * 4096 /\ 3 + itb < tb) /\
  (Z.of_nat (length img) = tb * 4096 /\
   superblock_in_range (load_superblock img 0)) /\
  (block_size (load_superblock img 0) = BS /\
   magic (load_superblock img 0) = MAGIC /\
   inode_count (load_superblock img 0) = icount /\
   inode_bitmap_start (load_superblock img 0) = 1 /\
   data_bitmap_start (load_superblock img 0) = 2 /\
   inode_table_start (load_superblock img 0) = 3 /\
   data_region_start (load_superblock img 0) = 3 + itb /\
   data_region_blocks (load_superblock img 0) = tb - (3 + itb)) /\
  (0 <= k < icount /\ k + 2 <= 64 /\ 0 <= m < tb - (3 + itb)) /\
  (forall j, 0 <= j < 32768 ->
     bitmap_test img 4096 j = if j <=? k then 1 else 0) /\
  (forall j, 0 <= j < 32768 ->
     bitmap_test img 8192 j = if j <=? m then 1 else 0) /\
  (inode_in_range (load_inode img 12288) /\
   nth 0 (direct (load_inode img 12288)) 0 = 3 + itb /\
   links (load_inode img 12288) = k + 2 /\
   size_bytes (load_inode img 12288) = (k + 2) * 64) /\
  (forall i, (i < 64)%nat ->
     entry_used img ((3 + itb) * 4096) i = (Z.of_nat i <? k + 2)).

(** * Properties *)

(** split a conjunction without touching its components *)
Ltac split_all := repeat match goal with |- _ /\ _ => split end.

(** ** Byte encodings *)

Lemma length_le_bytes (n : nat) (v : Z) : length (le_bytes n v) = n.
Proof.
  revert v; induction n as [|n IH]; intros v; simpl; [reflexivity|].
  now rewrite IH.
Qed.

Lemma length_fit {A : Type} (n : nat) (d : A) (l : list A) :
  length (fit n d l) = n.
Proof.
  unfold fit. rewrite length_firstn, length_app, repeat_length. lia.
Qed.

Lemma length_flat_le4 (l : list Z) :
  length (flat_map (le_bytes 4) l) = (4 * length l)%nat.
Proof.
  induction l as [|x l IH]; [reflexivity|].
  cbn [flat_map]. rewrite length_app, IH, length_le_bytes. simpl; lia.
Qed.

Lemma length_inode_head (ino : inode_t) : length (inode_head ino) = 120%nat.
Proof.
  unfold inode_head.
  repeat rewrite length_app. repeat rewrite length_le_bytes.
  rewrite length_flat_le4, length_fit. reflexivity.
Qed.

Lemma length_inode_bytes (ino : inode_t) : length (inode_bytes ino) = 128%nat.
Proof.
  unfold inode_bytes. now rewrite length_app, length_inode_head, length_le_bytes.
Qed.

Lemma length_superblock_head (sb : superblock_t) :
  length (superblock_head sb) = 112%nat.
Proof.
  unfold superblock_head.
  repeat rewrite length_app. repeat rewrite length_le_bytes. reflexivity.
Qed.

Lemma length_superblock_bytes (sb : superblock_t) :
  length (superblock_bytes sb) = SB_SIZE.
Proof.
  unfold superblock_bytes.
  now rewrite length_app, length_superblock_head, length_le_bytes.
Qed.

Lemma length_dirent_head (de : dirent64_t) : length (dirent_head de) = 63%nat.
Proof.
  unfold dirent_head.
  repeat rewrite length_app. repeat rewrite length_le_bytes.
  rewrite length_map, length_fit. reflexivity.
Qed.

Lemma length_dirent_bytes (de : dirent64_t) : length (dirent_bytes de) = 64%nat.
Proof.
  unfold dirent_bytes. now rewrite length_app, length_dirent_head.
Qed.

Lemma length_write_bytes (m : list Z) (off : Z) (d : list Z) :
  length (write_bytes m off d) = length m.
Proof.
  unfold write_bytes.
  rewrite length_firstn, !length_app, length_firstn, length_skipn. lia.
Qed.

Create Rewrite HintDb lengths.
#[local] Hint Rewrite length_app repeat_length length_le_bytes
  length_superblock_head length_superblock_bytes length_inode_head
  length_inode_bytes length_dirent_head length_dirent_bytes : lengths.

(** the checksum field does not reach the hashed prefix of a structure *)
Lemma firstn_head {A : Type} (h t : list A) (n : nat) :
  length h = n -> firstn n (h ++ t) = h.
Proof.
  intros <-. rewrite firstn_app, Nat.sub_diag, firstn_all. simpl.
  now rewrite app_nil_r.
Qed.

Lemma write_tail (h t d : list Z) (off : Z) :
  Z.to_nat off = length h ->
  length d = length t ->
  write_bytes (h ++ t) off d = h ++ d.
Proof.
  intros Hoff Hd. unfold write_bytes. rewrite Hoff.
  rewrite (firstn_head h t (length h) eq_refl).
  rewrite skipn_all2 by (rewrite length_app; lia).
  rewrite app_nil_r.
  apply firstn_all2. rewrite !length_app. lia.
Qed.

(** ** The CRC-32 routine stays within 32 bits *)

Lemma in_u32_shiftr (x : Z) : 0 <= x -> (x < 2 ^ 32 <-> Z.shiftr x 32 = 0).
Proof.
  intros Hx. rewrite Z.shiftr_div_pow2 by lia.
  rewrite Z.div_small_iff by lia. lia.
Qed.

Lemma lxor_u32 (a b : Z) : in_u32 a -> in_u32 b -> in_u32 (Z.lxor a b).
Proof.
  intros [Ha0 Ha] [Hb0 Hb].
  assert (H0 : 0 <= Z.lxor a b) by (apply Z.lxor_nonneg; lia).
  split; [exact H0|].
  apply in_u32_shiftr; [exact H0|].
  rewrite Z.shiftr_lxor.
  apply in_u32_shiftr in Ha, Hb; try assumption.
  now rewrite Ha, Hb.
Qed.

Lemma shiftr_u32 (c n : Z) : 0 <= n -> in_u32 c -> in_u32 (Z.shiftr c n).
Proof.
  intros Hn [H0 H]. rewrite Z.shiftr_div_pow2 by lia.
  assert (0 < 2 ^ n) by (apply Z.pow_pos_nonneg; lia).
  split; [apply Z.div_pos; lia|].
  apply Z.le_lt_trans with c; [|assumption].
  apply Z.div_le_upper_bound; nia.
Qed.

Lemma CRC32_TAB_u32 (i : nat) : in_u32 (nth i CRC32_TAB 0).
Proof.
  assert (Hall : Forall in_u32 CRC32_TAB).
  { apply Forall_forall. intros x Hx.
    assert (Hb : forallb (fun x => (0 <=? x) && (x <? 2 ^ 32)) CRC32_TAB = true)
      by (vm_compute; reflexivity).
    rewrite forallb_forall in Hb. specialize (Hb x Hx).
    apply andb_true_iff in Hb as [H1 H2]. unfold in_u32. lia. }
  destruct (Nat.lt_ge_cases i (length CRC32_TAB)) as [Hi|Hi].
  - rewrite Forall_forall in Hall. apply Hall, nth_In, Hi.
  - rewrite nth_overflow by exact Hi. unfold in_u32; lia.
Qed.

Lemma crc32_round_u32 (c p : Z) : in_u32 c -> in_u32 (crc32_round c p).
Proof.
  intros Hc. unfold crc32_round.
  apply lxor_u32; [apply CRC32_TAB_u32 | apply shiftr_u32; [lia | exact Hc]].
Qed.

Lemma crc32_fold_u32 (d : list Z) (c : Z) :
  in_u32 c -> in_u32 (fold_left crc32_round d c).
Proof.
  revert c; induction d as [|p d IH]; intros c Hc; simpl; [exact Hc|].
  apply IH, crc32_round_u32, Hc.
Qed.

Lemma crc32_u32 (d : list Z) (n : nat) : in_u32 (Builder.crc32 d n).
Proof.
  unfold Builder.crc32.
  apply lxor_u32; [apply crc32_fold_u32|]; unfold in_u32; lia.
Qed.

(** the two programs compute the same CRC-32 function *)
Lemma crc32_finalize_eq (d : list Z) (n : nat) :
  Adder.crc32_finalize d n = Builder.crc32 d n.
Proof. reflexivity. Qed.

Lemma u64_u32 (c : Z) : in_u32 c -> u64 c = c.
Proof. intros [H0 H]. unfold u64. apply Z.mod_small. lia. Qed.

(** ** What each checksum routine hashes *)

Lemma builder_inode_crc (ino : inode_t) :
  inode_crc (Builder.inode_crc_finalize ino) = Builder.crc32 (inode_head ino) 120.
Proof.
  unfold Builder.inode_crc_finalize. cbn [inode_crc set_inode_crc].
  rewrite u64_u32 by apply crc32_u32.
  unfold inode_bytes.
  rewrite write_tail
    by (rewrite ?length_inode_head, ?length_le_bytes; reflexivity).
  unfold Builder.crc32.
  rewrite firstn_head by apply length_inode_head.
  now rewrite firstn_all2 by (rewrite length_inode_head; lia).
Qed.

Lemma adder_inode_crc (ino : inode_t) :
  inode_crc (Adder.inode_crc_finalize ino) =
  Builder.crc32 (inode_head ino ++ repeat 0 8) 128.
Proof.
  unfold Adder.inode_crc_finalize. cbn [inode_crc set_inode_crc].
  rewrite crc32_finalize_eq, u64_u32 by apply crc32_u32.
  reflexivity.
Qed.

Lemma inode_head_set_crc (ino : inode_t) (c : Z) :
  inode_head (set_inode_crc ino c) = inode_head ino.
Proof. reflexivity. Qed.

Lemma superblock_head_set_checksum (sb : superblock_t) (c : Z) :
  superblock_head (set_checksum sb c) = superblock_head sb.
Proof. reflexivity. Qed.

Lemma dirent_checksum (de : dirent64_t) :
  de_checksum (dirent_checksum_finalize de) =
  fold_left Z.lxor (dirent_head de) 0.
Proof.
  unfold dirent_checksum_finalize, dirent_bytes. cbn [de_checksum set_de_checksum].
  now rewrite firstn_head by apply length_dirent_head.
Qed.

Lemma builder_inode_finalize_eq (ino : inode_t) :
  Builder.inode_crc_finalize ino =
  set_inode_crc ino (Builder.crc32 (inode_head ino) 120).
Proof.
  rewrite <- builder_inode_crc. reflexivity.
Qed.

Lemma adder_inode_finalize_eq (ino : inode_t) :
  Adder.inode_crc_finalize ino =
  set_inode_crc ino (Builder.crc32 (inode_head ino ++ repeat 0 8) 128).
Proof.
  rewrite <- adder_inode_crc. reflexivity.
Qed.

Lemma dirent_finalize_eq (de : dirent64_t) :
  dirent_checksum_finalize de =
  set_de_checksum de (fold_left Z.lxor (dirent_head de) 0).
Proof.
  rewrite <- dirent_checksum. reflexivity.
Qed.

Lemma adder_superblock_finalize_eq (sb : superblock_t) :
  Adder.superblock_crc_finalize sb =
  set_checksum sb (Builder.crc32 (superblock_head sb ++ repeat 0 4) SB_SIZE).
Proof.
  unfold Adder.superblock_crc_finalize, superblock_bytes.
  rewrite crc32_finalize_eq, superblock_head_set_checksum.
  change (le_bytes 4 (checksum (set_checksum sb 0))) with (repeat 0 4).
  generalize (Builder.crc32 (superblock_head sb ++ repeat 0 4) SB_SIZE).
  intros c. reflexivity.
Qed.

Lemma builder_superblock_finalize_eq (after : nat -> Z) (sb : superblock_t) :
  Builder.superblock_crc_finalize after sb =
  set_checksum sb
    (Builder.crc32 ((superblock_head sb ++ repeat 0 4) ++
                    map after (seq 0 (4092 - SB_SIZE))) (Z.to_nat (BS - 4))).
Proof.
  unfold Builder.superblock_crc_finalize, superblock_bytes.
  rewrite superblock_head_set_checksum.
  change (le_bytes 4 (checksum (set_checksum sb 0))) with (repeat 0 4).
  generalize (Builder.crc32 ((superblock_head sb ++ repeat 0 4) ++
                map after (seq 0 (4092 - SB_SIZE))) (Z.to_nat (BS - 4))).
  intros c. reflexivity.
Qed.

(** the upper 32 bits of the stored inode checksum are zero in both
    programs *)
Lemma inode_crc_upper_bits_zero (ino : inode_t) :
  Z.shiftr (inode_crc (Builder.inode_crc_finalize ino)) 32 = 0 /\
  Z.shiftr (inode_crc (Adder.inode_crc_finalize ino)) 32 = 0.
Proof.
  rewrite builder_inode_crc, adder_inode_crc.
  split; apply in_u32_shiftr; apply crc32_u32.
Qed.

(** ** The checksum claims *)

(** C2: the builder's superblock checksum (CRC-32 over the 4092 bytes that
    start at the struct) and the adder's (CRC-32 over the 116 bytes of the
    struct) are not bit-compatible: on the superblock of a fresh 180 KiB
    image, even when the struct sits in a zero-padded block, they store
    different values, so the two routines are not the same function. *)
Theorem superblock_checksum_conventions_differ :
  (forall after sb,
      checksum (Builder.superblock_crc_finalize after sb) =
      Builder.crc32 ((superblock_head sb ++ repeat 0 4) ++
                     map after (seq 0 (4092 - SB_SIZE))) (Z.to_nat (BS - 4))) /\
  (forall sb,
      checksum (Adder.superblock_crc_finalize sb) =
      Adder.crc32_finalize (superblock_head sb ++ repeat 0 4) SB_SIZE) /\
  checksum (Builder.superblock_crc_finalize (fun _ => 0) sample_superblock)
    = 770332917 /\
  checksum (Adder.superblock_crc_finalize sample_superblock) = 526161998 /\
  (exists sb,
      checksum (Builder.superblock_crc_finalize (fun _ => 0) sb) <>
      checksum (Adder.superblock_crc_finalize sb)) /\
  ~ (forall after sb,
        Builder.superblock_crc_finalize after sb =
        Adder.superblock_crc_finalize sb).
Proof.
  assert (Hb : checksum (Builder.superblock_crc_finalize (fun _ => 0)
                           sample_superblock) = 770332917)
    by (vm_compute; reflexivity).
  assert (Ha : checksum (Adder.superblock_crc_finalize sample_superblock)
               = 526161998)
    by (vm_compute; reflexivity).
  split.
  { intros after sb. rewrite builder_superblock_finalize_eq.
    cbn [checksum set_checksum]. reflexivity. }
  split.
  { intros sb. rewrite adder_superblock_finalize_eq.
    cbn [checksum set_checksum]. symmetry. apply crc32_finalize_eq. }
  split_all; try assumption.
  - exists sample_superblock. rewrite Hb, Ha. discriminate.
  - intros Heq. specialize (Heq (fun _ => 0) sample_superblock).
    apply (f_equal checksum) in Heq. rewrite Hb, Ha in Heq. discriminate.
Qed.

(** C3: the builder's inode checksum is the CRC-32 of the inode's first 120
    bytes and fits 32 bits; the adder's routine hashes all 128 bytes of the
    record (the 120 data bytes followed by the zeroed checksum field), so on
    the inode of a 5000-byte file it stores 3916129117 where the CRC-32 of
    the first 120 bytes is 1905485789. *)
Theorem adder_inode_crc_differs_from_crc_of_120_bytes :
  (forall ino,
      inode_crc (Builder.inode_crc_finalize ino)
        = Builder.crc32 (firstn 120 (inode_bytes ino)) 120 /\
      Z.shiftr (inode_crc (Builder.inode_crc_finalize ino)) 32 = 0) /\
  (forall ino,
      inode_crc (Adder.inode_crc_finalize ino)
        = Adder.crc32_finalize (firstn 120 (inode_bytes ino) ++ repeat 0 8) 128 /\
      Z.shiftr (inode_crc (Adder.inode_crc_finalize ino)) 32 = 0) /\
  inode_crc (Adder.inode_crc_finalize sample_inode) = 3916129117 /\
  Adder.crc32_finalize (firstn 120 (inode_bytes sample_inode)) 120 = 1905485789 /\
  inode_crc (Adder.inode_crc_finalize sample_inode)
    <> Adder.crc32_finalize (firstn 120 (inode_bytes sample_inode)) 120.
Proof.
  assert (Hh : forall ino, firstn 120 (inode_bytes ino) = inode_head ino)
    by (intros ino; apply firstn_head, length_inode_head).
  assert (Ha : inode_crc (Adder.inode_crc_finalize sample_inode) = 3916129117)
    by (vm_compute; reflexivity).
  assert (Hc : Adder.crc32_finalize (firstn 120 (inode_bytes sample_inode)) 120
               = 1905485789)
    by (vm_compute; reflexivity).
  split; [|split; [|split; [exact Ha|split; [exact Hc|]]]].
  - intros ino. rewrite Hh. split.
    + apply builder_inode_crc.
    + apply (proj1 (inode_crc_upper_bits_zero ino)).
  - intros ino. rewrite Hh, crc32_finalize_eq. split.
    + apply adder_inode_crc.
    + apply (proj2 (inode_crc_upper_bits_zero ino)).
  - rewrite Ha, Hc. discriminate.
Qed.

(** C9: for every inode and directory entry, zeroing the checksum field of
    the finalized structure and running the same routine again reproduces
    the stored checksum, and every finalize routine (inode and superblock of
    both programs, directory entry) is idempotent; for the builder's
    superblock routine the memory read after the struct is part of the
    unchanged data. *)
Theorem checksum_roundtrip_and_idempotence :
  (forall ino,
      inode_crc (Builder.inode_crc_finalize
                   (set_inode_crc (Builder.inode_crc_finalize ino) 0))
      = inode_crc (Builder.inode_crc_finalize ino)) /\
  (forall ino,
      inode_crc (Adder.inode_crc_finalize
                   (set_inode_crc (Adder.inode_crc_finalize ino) 0))
      = inode_crc (Adder.inode_crc_finalize ino)) /\
  (forall de,
      de_checksum (dirent_checksum_finalize
                     (set_de_checksum (dirent_checksum_finalize de) 0))
      = de_checksum (dirent_checksum_finalize de)) /\
  (forall ino,
      Builder.inode_crc_finalize (Builder.inode_crc_finalize ino)
      = Builder.inode_crc_finalize ino) /\
  (forall ino,
      Adder.inode_crc_finalize (Adder.inode_crc_finalize ino)
      = Adder.inode_crc_finalize ino) /\
  (forall de,
      dirent_checksum_finalize (dirent_checksum_finalize de)
      = dirent_checksum_finalize de) /\
  (forall sb,
      Adder.superblock_crc_finalize (Adder.superblock_crc_finalize sb)
      = Adder.superblock_crc_finalize sb) /\
  (forall after sb,
      Builder.superblock_crc_finalize after
        (Builder.superblock_crc_finalize after sb)
      = Builder.superblock_crc_finalize after sb).
Proof.
  refine (conj _ (conj _ (conj _ (conj _ (conj _ (conj _ (conj _ _))))))).
  - intros ino. rewrite !builder_inode_finalize_eq.
    cbn [inode_crc set_inode_crc]. rewrite !inode_head_set_crc. reflexivity.
  - intros ino. rewrite !adder_inode_finalize_eq.
    cbn [inode_crc set_inode_crc]. rewrite !inode_head_set_crc. reflexivity.
  - intros de. rewrite !dirent_finalize_eq.
    cbn [de_checksum set_de_checksum]. reflexivity.
  - intros ino. rewrite !builder_inode_finalize_eq, inode_head_set_crc.
    generalize (Builder.crc32 (inode_head ino) 120). reflexivity.
  - intros ino. rewrite !adder_inode_finalize_eq, inode_head_set_crc.
    generalize (Builder.crc32 (inode_head ino ++ repeat 0 8) 128). reflexivity.
  - intros de. rewrite !dirent_finalize_eq.
    change (dirent_head (set_de_checksum de (fold_left Z.lxor (dirent_head de) 0)))
      with (dirent_head de).
    generalize (fold_left Z.lxor (dirent_head de) 0). reflexivity.
  - intros sb.
    rewrite !adder_superblock_finalize_eq, superblock_head_set_checksum.
    generalize (Builder.crc32 (superblock_head sb ++ repeat 0 4) SB_SIZE).
    reflexivity.
  - intros after sb.
    rewrite !builder_superblock_finalize_eq, superblock_head_set_checksum.
    generalize (Builder.crc32 ((superblock_head sb ++ repeat 0 4) ++
                  map after (seq 0 (4092 - SB_SIZE))) (Z.to_nat (BS - 4))).
    reflexivity.
Qed.

(** ** Reads and writes on buffers *)

Lemma write_mid (a h t d : list Z) (off : Z) :
  Z.to_nat off = length a -> length d = length h ->
  write_bytes (a ++ h ++ t) off d = a ++ d ++ t.
Proof.
  intros Hoff Hd. unfold write_bytes. rewrite Hoff.
  rewrite (firstn_head a (h ++ t) (length a) eq_refl).
  rewrite skipn_app, skipn_all2 by lia.
  replace (length a + length d - length a)%nat with (length h) by lia.
  rewrite skipn_app, skipn_all, Nat.sub_diag. cbn [skipn app].
  apply firstn_all2. rewrite !length_app. lia.
Qed.

Lemma write_head (h t d : list Z) (off : Z) :
  Z.to_nat off = 0%nat -> length d = length h ->
  write_bytes (h ++ t) off d = d ++ t.
Proof. intros Hoff Hd. now apply (write_mid [] h t d off). Qed.

Lemma le_value_le_bytes (n : nat) (v : Z) :
  le_value (le_bytes n v) = v mod 256 ^ Z.of_nat n.
Proof.
  revert v; induction n as [|n IH]; intros v.
  - simpl. now rewrite Z.mod_1_r.
  - cbn [le_bytes le_value]. rewrite IH.
    rewrite Nat2Z.inj_succ, Z.pow_succ_r by lia.
    rewrite Z.rem_mul_r by (try apply Z.pow_pos_nonneg; lia).
    reflexivity.
Qed.

Lemma read_bytes_skip (a m : list Z) (off : Z) (n : nat) :
  Z.of_nat (length a) <= off ->
  read_bytes (a ++ m) off n = read_bytes m (off - Z.of_nat (length a)) n.
Proof.
  intros H. unfold read_bytes.
  rewrite skipn_app, skipn_all2 by lia. cbn [app].
  now rewrite Z2Nat.inj_sub, Nat2Z.id by lia.
Qed.

Lemma read_bytes_here (d m : list Z) (off : Z) (n : nat) :
  off = 0 -> n = length d -> read_bytes (d ++ m) off n = d.
Proof.
  intros -> ->. unfold read_bytes. cbn [Z.to_nat skipn].
  rewrite <- app_assoc. apply firstn_head. reflexivity.
Qed.

Lemma read_bytes_at (a d m : list Z) (off : Z) (n : nat) :
  off = Z.of_nat (length a) -> n = length d ->
  read_bytes (a ++ d ++ m) off n = d.
Proof.
  intros Hoff Hn. rewrite read_bytes_skip by lia.
  apply read_bytes_here; [lia | exact Hn].
Qed.

Lemma get_le_skip (n k : nat) (v : Z) (m : list Z) (off : Z) :
  Z.of_nat k <= off ->
  get_le n (le_bytes k v ++ m) off = get_le n m (off - Z.of_nat k).
Proof.
  intros H. unfold get_le.
  now rewrite read_bytes_skip, length_le_bytes by (rewrite length_le_bytes; lia).
Qed.

Lemma get_le_here (n : nat) (v : Z) (m : list Z) (off : Z) :
  off = 0 -> 0 <= v < 256 ^ Z.of_nat n ->
  get_le n (le_bytes n v ++ m) off = v.
Proof.
  intros Hoff Hv. unfold get_le.
  rewrite read_bytes_here by (rewrite ?length_le_bytes; auto).
  rewrite le_value_le_bytes. now apply Z.mod_small.
Qed.

Lemma mk_superblock_ext a1 a2 a3 a4 a5 a6 a7 a8 a9 a10 a11 a12 a13 a14 a15 a16 a17
  b1 b2 b3 b4 b5 b6 b7 b8 b9 b10 b11 b12 b13 b14 b15 b16 b17 :
  a1 = b1 -> a2 = b2 -> a3 = b3 -> a4 = b4 -> a5 = b5 -> a6 = b6 -> a7 = b7 ->
  a8 = b8 -> a9 = b9 -> a10 = b10 -> a11 = b11 -> a12 = b12 -> a13 = b13 ->
  a14 = b14 -> a15 = b15 -> a16 = b16 -> a17 = b17 ->
  mk_superblock a1 a2 a3 a4 a5 a6 a7 a8 a9 a10 a11 a12 a13 a14 a15 a16 a17 =
  mk_superblock b1 b2 b3 b4 b5 b6 b7 b8 b9 b10 b11 b12 b13 b14 b15 b16 b17.
Proof. intros; subst; reflexivity. Qed.

Lemma pow256_4 : 256 ^ Z.of_nat 4 = 2 ^ 32. Proof. reflexivity. Qed.
Lemma pow256_8 : 256 ^ Z.of_nat 8 = 2 ^ 64. Proof. reflexivity. Qed.

Ltac load_field :=
  repeat (rewrite get_le_skip by (cbn; lia); cbn [Z.of_nat Pos.of_succ_nat Pos.succ Z.add Z.sub Z.opp Z.pos_sub Pos.add Pos.pred_double Z.succ_double Z.pred_double Z.double Pos.succ]);
  apply get_le_here; [reflexivity | rewrite ?pow256_4, ?pow256_8; assumption].

(** loading a superblock from its own bytes gives it back *)
Lemma load_superblock_bytes (sb : superblock_t) (rest : list Z) :
  superblock_in_range sb ->
  load_superblock (superblock_bytes sb ++ rest) 0 = sb.
Proof.
  destruct sb as [f1 f2 f3 f4 f5 f6 f7 f8 f9 f10 f11 f12 f13 f14 f15 f16 f17].
  unfold superblock_in_range.
  unfold load_superblock, superblock_bytes, superblock_head.
  cbn [magic version block_size total_blocks inode_count inode_bitmap_start
       inode_bitmap_blocks data_bitmap_start data_bitmap_blocks
       inode_table_start inode_table_blocks data_region_start
       data_region_blocks root_inode mtime_epoch flags checksum].
  intros ((?&?&?&?&?)&(?&?&?&?&?&?)&(?&?&?&?&?&?)).
  rewrite <- !app_assoc.
  apply mk_superblock_ext.
  all: load_field.
Qed.

(** ** The layout computation *)

Lemma ceil_div_eq (a b : Z) : 0 < b -> ceil_div a b = (a + b - 1) / b.
Proof.
  intros Hb. unfold ceil_div.
  pose proof (Z.div_mod (a + b - 1) b) as H1.
  pose proof (Z.mod_pos_bound (a + b - 1) b Hb) as H2.
  symmetry. apply Z.opp_inj. rewrite Z.opp_involutive.
  apply Z.div_unique with (r := b * ((a + b - 1) / b) - a); nia.
Qed.

Lemma params_ok_valid (image : option (list Z)) (size_kib inode_count : Z) :
  Builder.params_ok image size_kib inode_count = true <->
  (exists path, image = Some path) /\ valid_params size_kib inode_count.
Proof.
  unfold Builder.params_ok, valid_params.
  rewrite negb_true_iff, !orb_false_iff, negb_false_iff.
  rewrite !Z.ltb_ge, Z.eqb_eq.
  split.
  - intros [[[[[Hi H1] H2] H3] H4] H5].
    rewrite Z.rem_mod_nonneg in H3 by lia.
    split; [|lia].
    destruct image as [p|]; [now exists p | discriminate].
  - intros [[p ->] (H1 & H2 & H3)].
    rewrite Z.rem_mod_nonneg by lia. split_all; lia.
Qed.

(** ** Pieces of the image the builder writes *)

Lemma flat_zero_inodes (k : nat) :
  flat_map inode_bytes (repeat zero_inode k) = repeat 0 (128 * k).
Proof.
  induction k as [|k IH]; [reflexivity|].
  cbn [repeat flat_map]. rewrite IH.
  replace (128 * S k)%nat with (128 + 128 * k)%nat by lia.
  rewrite repeat_app. reflexivity.
Qed.

Lemma bitmap_first_bit :
  bitmap_set (repeat 0 (Z.to_nat BS)) 0 0 = 1 :: repeat 0 4095.
Proof. vm_compute. reflexivity. Qed.

Lemma sbpad_eq (sb : superblock_t) :
  write_bytes (repeat 0 (Z.to_nat BS)) 0 (superblock_bytes sb)
  = superblock_bytes sb ++ repeat 0 3980.
Proof.
  change (Z.to_nat BS) with (116 + 3980)%nat. rewrite repeat_app.
  apply write_head; [reflexivity|].
  now rewrite length_superblock_bytes, repeat_length.
Qed.

Lemma root_block_eq (n : nat) :
  (128 <= n)%nat ->
  write_bytes
    (write_bytes (repeat 0 n) (0 * BS + 0 * 64) (dirent_bytes Builder.dot))
    (0 * BS + 1 * 64) (dirent_bytes Builder.dotdot)
  = dirent_bytes Builder.dot ++ dirent_bytes Builder.dotdot ++ repeat 0 (n - 128).
Proof.
  intros Hn.
  replace n with (64 + (64 + (n - 128)))%nat at 1 by lia.
  rewrite !repeat_app.
  rewrite write_head
    by (rewrite ?length_dirent_bytes, ?repeat_length; reflexivity).
  apply write_mid; rewrite ?length_dirent_bytes, ?repeat_length; reflexivity.
Qed.

Lemma superblock_of_in_range (l : Builder.layout_t) (ic now : Z)
    (after : nat -> Z) :
  0 <= Builder.l_total_blocks l < 2 ^ 64 ->
  0 <= Builder.l_inode_bitmap_start l < 2 ^ 64 ->
  0 <= Builder.l_data_bitmap_start l < 2 ^ 64 ->
  0 <= Builder.l_inode_table_start l < 2 ^ 64 ->
  0 <= Builder.l_inode_table_blocks l < 2 ^ 64 ->
  0 <= Builder.l_data_region_start l < 2 ^ 64 ->
  0 <= Builder.l_data_region_blocks l < 2 ^ 64 ->
  superblock_in_range (Builder.superblock_of l ic now after).
Proof.
  intros. unfold Builder.superblock_of.
  rewrite builder_superblock_finalize_eq.
  match goal with
  | |- context [set_checksum _ ?c] =>
      pose proof (crc32_u32 ((superblock_head
        {| magic := MAGIC; version := 1; block_size := BS;
           total_blocks := Builder.l_total_blocks l;
           inode_count := u64 ic;
           inode_bitmap_start := Builder.l_inode_bitmap_start l;
           inode_bitmap_blocks := 1;
           data_bitmap_start := Builder.l_data_bitmap_start l;
           data_bitmap_blocks := 1;
           inode_table_start := Builder.l_inode_table_start l;
           inode_table_blocks := Builder.l_inode_table_blocks l;
           data_region_start := Builder.l_data_region_start l;
           data_region_blocks := Builder.l_data_region_blocks l;
           root_inode := ROOT_INO; mtime_epoch := u64 now;
           flags := 0; checksum := 0 |} ++ repeat 0 4) ++
        map after (seq 0 (4092 - SB_SIZE))) (Z.to_nat (BS - 4))) as Hc;
      generalize dependent c
  end.
  intros c Hc. unfold in_u32 in Hc.
  pose proof (Z.mod_pos_bound ic (2 ^ 64) ltac:(lia)).
  pose proof (Z.mod_pos_bound now (2 ^ 64) ltac:(lia)).
  unfold superblock_in_range, set_checksum, u64, MAGIC, BS, ROOT_INO.
  cbn [magic version block_size total_blocks inode_count inode_bitmap_start
       inode_bitmap_blocks data_bitmap_start data_bitmap_blocks
       inode_table_start inode_table_blocks data_region_start
       data_region_blocks root_inode mtime_epoch flags checksum].
  split_all; try assumption; try lia.
Qed.

Lemma map_zero_seq (s k : nat) : map (fun _ : nat => 0) (seq s k) = repeat 0 k.
Proof.
  revert s; induction k as [|k IH]; intros s; [reflexivity|].
  cbn [seq map repeat]. now rewrite IH.
Qed.

(** ** The builder on valid parameters *)

Section ValidParams.

Variables size_kib inode_count : Z.
Hypothesis Hv : valid_params size_kib inode_count.

Local Abbreviation tb := (size_kib * 1024 / 4096).
Local Abbreviation itb := ((inode_count * 128 + 4095) / 4096).
Local Abbreviation drb := (tb - (3 + itb)).
Local Abbreviation planned := (Builder.mk_layout tb 1 2 3 itb (3 + itb) drb).

Lemma itb_bounds : 4 <= itb < 17.
Proof.
  destruct Hv as (Hs & Hm & Hi).
  split; [apply Z.div_le_lower_bound | apply Z.div_lt_upper_bound]; lia.
Qed.

Lemma tb_bounds : 45 <= tb <= 1024.
Proof.
  destruct Hv as (Hs & Hm & Hi).
  split; [apply Z.div_le_lower_bound | apply Z.div_le_upper_bound]; lia.
Qed.

Lemma tb_exact : tb * 4096 = size_kib * 1024.
Proof.
  destruct Hv as (Hs & Hm & Hi).
  pose proof (Z.div_mod size_kib 4 ltac:(lia)) as H4.
  replace (size_kib * 1024) with (size_kib / 4 * 4096) by lia.
  rewrite Z.div_mul by lia. reflexivity.
Qed.

Lemma itb_covers : inode_count * 128 <= itb * 4096.
Proof.
  pose proof (Z.div_mod (inode_count * 128 + 4095) 4096 ltac:(lia)).
  pose proof (Z.mod_pos_bound (inode_count * 128 + 4095) 4096 ltac:(lia)).
  lia.
Qed.

Lemma itb_ceil : itb = ceil_div (inode_count * 128) 4096.
Proof. rewrite ceil_div_eq by lia. f_equal. lia. Qed.

Lemma layout_valid : Builder.layout size_kib inode_count = inr planned.
Proof.
  pose proof itb_bounds as Hq. pose proof tb_bounds as Ht.
  destruct Hv as (Hs & Hm & Hi). unfold Builder.layout, BS, INODE_SIZE.
  change (4096 - 1) with 4095.
  rewrite Z.quot_div_nonneg by lia.
  unfold u64.
  rewrite (Z.mod_small size_kib) by lia.
  rewrite (Z.mod_small (size_kib * 1024)) by lia.
  rewrite (Z.mod_small itb) by lia.
  rewrite (Z.mod_small (3 + _)) by lia.
  rewrite (Z.mod_small (_ - _)) by lia.
  destruct (Z.ltb_spec tb (1 + 1 + 1 + 1)); [lia|].
  destruct (Z.leb_spec tb (3 + itb)); [lia|].
  reflexivity.
Qed.

Lemma planned_in_range (now : Z) (after : nat -> Z) :
  superblock_in_range (Builder.superblock_of planned inode_count now after).
Proof.
  pose proof itb_bounds. pose proof tb_bounds.
  apply superblock_of_in_range;
    cbn [Builder.l_total_blocks Builder.l_inode_bitmap_start
         Builder.l_data_bitmap_start Builder.l_inode_table_start
         Builder.l_inode_table_blocks Builder.l_data_region_start
         Builder.l_data_region_blocks]; lia.
Qed.

(** the image, region by region: block 0 is the superblock padded with
    zeros, blocks 1 and 2 are the bitmaps with bit 0 set, the inode table
    is the root inode followed by zeros, and the data region is the entries
    "." and ".." followed by zeros *)
Lemma builder_image_shape (path : list Z) (now : Z) (after : nat -> Z) :
  Builder.main (Some path) size_kib inode_count now after =
  Builder.Created
    ((superblock_bytes (Builder.superblock_of planned inode_count now after)
        ++ repeat 0 3980) ++
     (1 :: repeat 0 4095) ++
     (1 :: repeat 0 4095) ++
     (inode_bytes (Builder.root_inode_of planned now)
        ++ repeat 0 (Z.to_nat (itb * 4096 - 128))) ++
     (dirent_bytes Builder.dot ++ dirent_bytes Builder.dotdot
        ++ repeat 0 (Z.to_nat (drb * 4096 - 128)))).
Proof.
  pose proof itb_bounds as Hq. pose proof tb_bounds as Ht.
  pose proof itb_covers as Hc.
  pose proof Hv as (Hs & Hm & Hi).
  unfold Builder.main.
  rewrite (proj2 (params_ok_valid (Some path) size_kib inode_count))
    by (split; [now exists path | exact Hv]).
  cbn [negb]. rewrite layout_valid.
  cbv zeta.
  rewrite !bitmap_first_bit, sbpad_eq.
  cbn [Builder.l_data_region_blocks Builder.l_inode_table_blocks].
  unfold u64, BS.
  rewrite (Z.mod_small (drb * 4096)) by lia.
  rewrite (Z.mod_small (inode_count * 128)) by lia.
  rewrite (Z.mod_small (itb * 4096 - _)) by lia.
  rewrite root_block_eq by lia.
  destruct (Z.to_nat inode_count) as [|k] eqn:Hk; [lia|].
  cbn [repeat tl flat_map]. rewrite flat_zero_inodes.
  replace (Z.to_nat (drb * 4096) - 128)%nat
    with (Z.to_nat (drb * 4096 - 128)) by lia.
  replace (Z.to_nat (itb * 4096 - 128))
    with (128 * k + Z.to_nat (itb * 4096 - inode_count * 128))%nat by lia.
  rewrite repeat_app, <- !app_assoc. reflexivity.
Qed.

(** where the regions lie in the image: the inode bitmap is block 1, the
    data bitmap block 2, the inode table starts at block 3 with the root
    inode, and the data region starts at block 3 + inode_table_blocks with
    the entries "." and ".." *)
Lemma builder_image_regions (path : list Z) (now : Z) (after : nat -> Z) :
  let img := Builder.image_of
               (Builder.main (Some path) size_kib inode_count now after) in
  read_bytes img (1 * 4096) 4096 = 1 :: repeat 0 4095 /\
  read_bytes img (2 * 4096) 4096 = 1 :: repeat 0 4095 /\
  read_bytes img (3 * 4096) 128
    = inode_bytes (Builder.root_inode_of planned now) /\
  read_bytes img ((3 + itb) * 4096) 128
    = dirent_bytes Builder.dot ++ dirent_bytes Builder.dotdot.
Proof.
  intros img. subst img. rewrite builder_image_shape.
  pose proof itb_bounds as Hq. pose proof tb_bounds as Ht.
  cbn [Builder.image_of].
  set (b0 := superblock_bytes _ ++ repeat 0 3980).
  set (bm := 1 :: repeat 0 4095).
  set (ino := inode_bytes _).
  set (z1 := repeat 0 (Z.to_nat (itb * 4096 - 128))).
  set (z2 := repeat 0 (Z.to_nat (drb * 4096 - 128))).
  assert (Hb0 : length b0 = 4096%nat)
    by (subst b0; autorewrite with lengths; reflexivity).
  assert (Hbm : length bm = 4096%nat)
    by (subst bm; cbn [length]; now rewrite repeat_length).
  assert (Hino : length ino = 128%nat) by apply length_inode_bytes.
  assert (Hz1 : length z1 = Z.to_nat (itb * 4096 - 128))
    by apply repeat_length.
  split_all.
  - apply read_bytes_at; [rewrite Hb0; reflexivity | now rewrite Hbm].
  - rewrite (app_assoc b0 bm).
    apply read_bytes_at;
      [rewrite length_app, Hb0, Hbm; reflexivity | now rewrite Hbm].
  - rewrite (app_assoc b0 bm), (app_assoc (b0 ++ bm) bm).
    rewrite <- (app_assoc ino z1).
    apply read_bytes_at;
      [rewrite !length_app, Hb0, Hbm; reflexivity | now rewrite Hino].
  - rewrite (app_assoc b0 bm), (app_assoc (b0 ++ bm) bm).
    rewrite (app_assoc ((b0 ++ bm) ++ bm) (ino ++ z1)).
    rewrite (app_assoc (dirent_bytes Builder.dot)).
    apply read_bytes_at.
    + rewrite !length_app, Hb0, Hbm, Hino, Hz1. lia.
    + now rewrite length_app, !length_dirent_bytes.
Qed.

(** the image has exactly size_kib * 1024 bytes *)
Lemma builder_image_length (path : list Z) (now : Z) (after : nat -> Z) :
  Z.of_nat (length (Builder.image_of
                      (Builder.main (Some path) size_kib inode_count now after)))
  = size_kib * 1024.
Proof.
  rewrite builder_image_shape.
  pose proof itb_bounds as Hq. pose proof tb_bounds as Ht.
  pose proof tb_exact as He.
  cbn [Builder.image_of].
  autorewrite with lengths. cbn [length]. autorewrite with lengths.
  unfold SB_SIZE. lia.
Qed.

(** the superblock read back from block 0 is the one main built *)
Lemma builder_image_superblock (path : list Z) (now : Z) (after : nat -> Z) :
  load_superblock
    (Builder.image_of
       (Builder.main (Some path) size_kib inode_count now after)) 0
  = Builder.superblock_of planned inode_count now after.
Proof.
  rewrite builder_image_shape. cbn [Builder.image_of].
  rewrite <- (app_assoc (superblock_bytes _)).
  apply load_superblock_bytes, planned_in_range.
Qed.

(** when the memory after the superblock struct is zero, as it is in the
    block written to the image, the stored checksum is the CRC-32 of the
    first BS - 4 bytes of the stored block with the checksum field zeroed *)
Lemma builder_checksum_reproducible_on_zero_memory (path : list Z) (now : Z) :
  let img := Builder.image_of
               (Builder.main (Some path) size_kib inode_count now (fun _ => 0)) in
  recomputed_checksum_block img = checksum (load_superblock img 0).
Proof.
  intros img. subst img.
  rewrite builder_image_superblock.
  rewrite builder_image_shape. cbn [Builder.image_of].
  unfold recomputed_checksum_block.
  rewrite firstn_head by (autorewrite with lengths; reflexivity).
  unfold superblock_bytes.
  rewrite <- app_assoc.
  rewrite write_mid by (autorewrite with lengths; reflexivity).
  unfold Builder.superblock_of. rewrite builder_superblock_finalize_eq.
  cbn [checksum set_checksum].
  rewrite superblock_head_set_checksum, map_zero_seq.
  unfold Builder.crc32.
  set (h := superblock_head _).
  assert (Hh : length h = 112%nat) by apply length_superblock_head.
  assert (E : firstn (Z.to_nat (BS - 4)) (h ++ repeat 0 4 ++ repeat 0 3980)
              = firstn (Z.to_nat (BS - 4))
                  ((h ++ repeat 0 4) ++ repeat 0 (4092 - SB_SIZE))).
  { change 3980%nat with (3976 + 4)%nat. rewrite repeat_app.
    change (4092 - SB_SIZE)%nat with 3976%nat.
    rewrite !app_assoc.
    assert (Hd : length ((h ++ repeat 0 4) ++ repeat 0 3976)
                 = Z.to_nat (BS - 4)).
    { autorewrite with lengths. rewrite Hh. reflexivity. }
    rewrite (firstn_head _ (repeat 0 4) _ Hd).
    symmetry. apply firstn_all2. rewrite Hd. lia. }
  rewrite E. reflexivity.
Qed.

End ValidParams.

(** ** The Layout Planner *)

(** C8: for every valid (size_kib, inode_count) the layout is
    total_blocks = size_kib*1024/4096, inode bitmap at block 1, data bitmap
    at block 2, inode table at block 3 with ceil(inode_count*128/4096)
    blocks, and the data region from block 3 + inode_table_blocks to the end
    of the image.  The layout depends on nothing else: whatever the path,
    the time and the memory around the superblock are, the superblock at
    block 0 of the image written records exactly these values, the image
    has total_blocks blocks, and the bitmaps, the root inode and the root
    directory entries lie at the planned blocks. *)
Theorem layout_planner (size_kib inode_count : Z) :
  valid_params size_kib inode_count ->
  let tb := size_kib * 1024 / 4096 in
  let itb := ceil_div (inode_count * 128) 4096 in
  Builder.layout size_kib inode_count
    = inr (Builder.mk_layout tb 1 2 3 itb (3 + itb) (tb - (3 + itb))) /\
  forall path now after,
    let img := Builder.image_of
                 (Builder.main (Some path) size_kib inode_count now after) in
    let sb := load_superblock img 0 in
    total_blocks sb = tb /\
    inode_bitmap_start sb = 1 /\ inode_bitmap_blocks sb = 1 /\
    data_bitmap_start sb = 2 /\ data_bitmap_blocks sb = 1 /\
    inode_table_start sb = 3 /\ inode_table_blocks sb = itb /\
    data_region_start sb = 3 + itb /\
    data_region_blocks sb = tb - (3 + itb) /\
    data_region_start sb + data_region_blocks sb = total_blocks sb /\
    Z.of_nat (length img) = total_blocks sb * 4096 /\
    read_bytes img (inode_bitmap_start sb * 4096) 4096 = 1 :: repeat 0 4095 /\
    read_bytes img (data_bitmap_start sb * 4096) 4096 = 1 :: repeat 0 4095 /\
    read_bytes img (inode_table_start sb * 4096) 128
      = inode_bytes
          (Builder.root_inode_of
             (Builder.mk_layout tb 1 2 3 itb (3 + itb) (tb - (3 + itb))) now) /\
    read_bytes img (data_region_start sb * 4096) 128
      = dirent_bytes Builder.dot ++ dirent_bytes Builder.dotdot.
Proof.
  intros Hv tb itb.
  assert (Hitb : itb = (inode_count * 128 + 4095) / 4096)
    by (symmetry; apply itb_ceil).
  rewrite Hitb. clearbody itb. subst itb. subst tb.
  pose proof (itb_bounds _ _ Hv) as Hq. pose proof (tb_bounds _ _ Hv) as Ht.
  split; [apply layout_valid, Hv|].
  intros path now after img sb.
  pose proof (builder_image_regions _ _ Hv path now after) as (R1 & R2 & R3 & R4).
  pose proof (builder_image_length _ _ Hv path now after) as HL.
  pose proof (tb_exact _ _ Hv) as HE.
  pose proof (builder_image_superblock _ _ Hv path now after) as Hsb.
  fold img in R1, R2, R3, R4, HL, Hsb.
  unfold Builder.superblock_of in Hsb.
  rewrite builder_superblock_finalize_eq in Hsb.
  subst sb. rewrite Hsb.
  cbn [set_checksum total_blocks inode_bitmap_start inode_bitmap_blocks
       data_bitmap_start data_bitmap_blocks inode_table_start
       inode_table_blocks data_region_start data_region_blocks
       Builder.l_total_blocks Builder.l_inode_bitmap_start
       Builder.l_data_bitmap_start Builder.l_inode_table_start
       Builder.l_inode_table_blocks Builder.l_data_region_start
       Builder.l_data_region_blocks].
  split_all; try lia; assumption.
Qed.

Lemma layout_planner_witness :
  valid_params 180 128 /\
  Builder.layout 180 128 = inr (Builder.mk_layout 45 1 2 3 4 7 38).
Proof.
  assert (Hv : valid_params 180 128)
    by (unfold valid_params; split_all; (reflexivity || lia)).
  split; [exact Hv | exact (proj1 (layout_planner 180 128 Hv))].
Defined.

(** C10: whenever the builder's parameter check passes, the layout
    branches "image too small" and "invalid layout" are not taken:
    total_blocks is at least 45, data_region_start = 3 +
    ceil(inode_count*128/4096) is at most 19 and below total_blocks, the
    data region is not empty, and main writes an image. *)
Theorem checked_params_never_hit_layout_errors
    (image : option (list Z)) (size_kib inode_count now : Z)
    (after : nat -> Z) :
  Builder.params_ok image size_kib inode_count = true ->
  (exists path, image = Some path) /\
  (180 <= size_kib <= 4096 /\ size_kib mod 4 = 0 /\ 128 <= inode_count <= 512) /\
  (exists l, Builder.layout size_kib inode_count = inr l /\
     Builder.l_total_blocks l = size_kib * 1024 / 4096 /\
     45 <= Builder.l_total_blocks l /\
     Builder.l_data_region_start l = 3 + ceil_div (inode_count * 128) 4096 /\
     Builder.l_data_region_start l <= 19 /\
     Builder.l_data_region_start l < Builder.l_total_blocks l /\
     1 <= Builder.l_data_region_blocks l) /\
  (exists img,
     Builder.main image size_kib inode_count now after = Builder.Created img) /\
  Builder.exit_code (Builder.main image size_kib inode_count now after) = 0.
Proof.
  intros Hok. apply params_ok_valid in Hok as [[path ->] Hv].
  split; [now exists path|]. split; [exact Hv|].
  pose proof (itb_bounds _ _ Hv) as Hq. pose proof (tb_bounds _ _ Hv) as Ht.
  split; [|rewrite (builder_image_shape _ _ Hv); split;
            [eexists; reflexivity | reflexivity]].
  eexists. split; [apply layout_valid, Hv|].
  cbn [Builder.l_total_blocks Builder.l_data_region_start
       Builder.l_data_region_blocks].
  rewrite <- (itb_ceil inode_count).
  split_all; lia.
Qed.

Lemma checked_params_never_hit_layout_errors_witness :
  Builder.params_ok (Some [105; 109; 103]) 180 128 = true /\
  exists img,
    Builder.main (Some [105; 109; 103]) 180 128 0 (fun _ => 0)
    = Builder.Created img.
Proof.
  assert (Hok : Builder.params_ok (Some [105; 109; 103]) 180 128 = true)
    by reflexivity.
  split; [exact Hok|].
  exact (proj1 (proj2 (proj2 (proj2
    (checked_params_never_hit_layout_errors
       (Some [105; 109; 103]) 180 128 0 (fun _ => 0) Hok))))).
Defined.

(** ** The Entry Inserter: validation and early failures *)

Lemma blocks_needed_eq (S : Z) :
  0 <= S < 2 ^ 63 -> Adder.blocks_needed S = (S + 4095) / 4096.
Proof.
  intros HS. unfold Adder.blocks_needed, u64, BS.
  change (4096 - 1) with 4095.
  rewrite (Z.mod_small S) by lia.
  now rewrite (Z.mod_small (S + 4095)) by lia.
Qed.

Lemma blocks_needed_gt_12 (S : Z) :
  0 <= S < 2 ^ 63 -> (12 < Adder.blocks_needed S <-> 12 * 4096 < S).
Proof.
  intros HS. rewrite blocks_needed_eq by exact HS.
  pose proof (Z.div_mod (S + 4095) 4096 ltac:(lia)).
  pose proof (Z.mod_pos_bound (S + 4095) 4096 ltac:(lia)).
  lia.
Qed.

(** a failure before the allocation loop returns the buffer as loaded *)
Lemma early_failure_buffer (img filepath fbuf : list Z) (now : Z)
    (e : Adder.error) (code : Z) (buf : list Z) :
  Adder.main img filepath fbuf now = Adder.Failed e code buf ->
  e = Adder.EmptyImage \/ e = Adder.NotMiniVSFS \/ e = Adder.NoFreeInode \/
  e = Adder.InodeIndexOOB \/ e = Adder.FileTooLarge ->
  buf = img /\
  (e = Adder.FileTooLarge ->
   code = 1 /\
   (DIRECT_MAX <? Adder.blocks_needed (Z.of_nat (length fbuf))) = true).
Proof.
  unfold Adder.main. intros H He.
  destruct (Z.of_nat (length img) <=? 0);
    [inversion H; subst; split; [reflexivity | discriminate]|].
  destruct (negb _ || negb _);
    [inversion H; subst; split; [reflexivity | discriminate]|].
  destruct (Adder.bitmap_ffz _ _ _ <? 0);
    [inversion H; subst; split; [reflexivity | discriminate]|].
  destruct (_ <=? u64 _);
    [inversion H; subst; split; [reflexivity | discriminate]|].
  destruct (DIRECT_MAX <? _) eqn:Hbig;
    [inversion H; subst; split; [reflexivity | intros _; split; reflexivity]|].
  destruct (Adder.alloc_blocks _ _ _ _ _) as [img1 [d|]].
  - destruct (_ =? 0).
    + inversion H; subst. destruct He as [He|[He|[He|[He|He]]]]; discriminate.
    + destruct (Adder.scan_root _ _ _ _ _ _ _) as [[slot used]|].
      * destruct (slot <? 0); inversion H; subst.
        destruct He as [He|[He|[He|[He|He]]]]; discriminate.
      * inversion H; subst.
        destruct He as [He|[He|[He|[He|He]]]]; discriminate.
  - inversion H; subst. destruct He as [He|[He|[He|[He|He]]]]; discriminate.
Qed.

Lemma main_format_mismatch (img filepath fbuf : list Z) (now : Z) :
  img <> [] ->
  block_size (load_superblock img 0) <> BS \/
  magic (load_superblock img 0) <> MAGIC ->
  Adder.main img filepath fbuf now = Adder.Failed Adder.NotMiniVSFS 2 img.
Proof.
  intros Hne Hbad. unfold Adder.main.
  destruct (Z.leb_spec (Z.of_nat (length img)) 0) as [Hl|Hl].
  { destruct img; [contradiction | simpl in Hl; lia]. }
  destruct (Z.eqb_spec (block_size (load_superblock img 0)) BS) as [Hb|Hb];
    [|reflexivity].
  destruct (Z.eqb_spec (magic (load_superblock img 0)) MAGIC) as [Hm|Hm];
    [|reflexivity].
  destruct Hbad; contradiction.
Qed.

Lemma main_format_match (img filepath fbuf : list Z) (now : Z) :
  block_size (load_superblock img 0) = BS ->
  magic (load_superblock img 0) = MAGIC ->
  Adder.error_of (Adder.main img filepath fbuf now) <> Some Adder.NotMiniVSFS.
Proof.
  intros Hb Hm. unfold Adder.main. rewrite Hb, Hm, !Z.eqb_refl. cbn [negb orb].
  destruct (_ <=? 0); [discriminate|].
  destruct (Adder.bitmap_ffz _ _ _ <? 0); [discriminate|].
  destruct (_ <=? u64 _); [discriminate|].
  destruct (DIRECT_MAX <? _); [discriminate|].
  destruct (Adder.alloc_blocks _ _ _ _ _) as [img1 [d|]]; [|discriminate].
  destruct (_ =? 0); [discriminate|].
  destruct (Adder.scan_root _ _ _ _ _ _ _) as [[slot used]|]; [|discriminate].
  destruct (slot <? 0); discriminate.
Qed.

Lemma bad_magic_image_nonempty : bad_magic_image <> [].
Proof.
  intros H. apply (f_equal (fun l => Z.of_nat (length l))) in H.
  vm_compute in H. discriminate.
Qed.

(** C5, as the claim states it, fails: on a fresh image whose magic has
    been overwritten the adder reports the format mismatch and returns 2,
    not 1. *)
Lemma format_mismatch_exit_code_is_not_1 :
  bad_magic_image <> [] /\
  magic (load_superblock bad_magic_image 0) <> MAGIC /\
  Adder.error_of (Adder.main bad_magic_image hello_path [] 0)
    = Some Adder.NotMiniVSFS /\
  Adder.exit_code (Adder.main bad_magic_image hello_path [] 0) <> 1.
Proof.
  assert (Hm : magic (load_superblock bad_magic_image 0) <> MAGIC)
    by (intros H; vm_compute in H; discriminate).
  split; [exact bad_magic_image_nonempty|]. split; [exact Hm|].
  rewrite (main_format_mismatch bad_magic_image hello_path [] 0
             bad_magic_image_nonempty (or_intror Hm)).
  split; [reflexivity | discriminate].
Qed.

(** C5, amended: on a loaded (non-empty) image the adder first checks the
    block-size field against 4096 and the magic field against the format
    tag; if either differs it fails with the format mismatch, returns exit
    code 2 and leaves the buffer as loaded; if both match, the failure is
    never a format mismatch. *)
Theorem format_validation (img filepath fbuf : list Z) (now : Z) :
  img <> [] ->
  (block_size (load_superblock img 0) <> 4096 \/
   magic (load_superblock img 0) <> MAGIC ->
   Adder.main img filepath fbuf now = Adder.Failed Adder.NotMiniVSFS 2 img /\
   Adder.exit_code (Adder.main img filepath fbuf now) = 2) /\
  (block_size (load_superblock img 0) = 4096 /\
   magic (load_superblock img 0) = MAGIC ->
   Adder.error_of (Adder.main img filepath fbuf now) <> Some Adder.NotMiniVSFS).
Proof.
  intros Hne. split.
  - intros Hbad.
    rewrite (main_format_mismatch img filepath fbuf now Hne Hbad).
    split; reflexivity.
  - intros [Hb Hm]. now apply main_format_match.
Qed.

Lemma format_validation_witness :
  bad_magic_image <> [] /\
  magic (load_superblock bad_magic_image 0) <> MAGIC /\
  Adder.main bad_magic_image hello_path [] 0
    = Adder.Failed Adder.NotMiniVSFS 2 bad_magic_image.
Proof.
  assert (Hne : bad_magic_image <> []).
  { intros H. apply (f_equal (fun l => Z.of_nat (length l))) in H.
    vm_compute in H. discriminate H. }
  assert (Hm : magic (load_superblock bad_magic_image 0) <> MAGIC)
    by (intros H; vm_compute in H; discriminate H).
  split; [exact Hne|]. split; [exact Hm|].
  exact (proj1 (proj1 (format_validation bad_magic_image hello_path [] 0 Hne)
                  (or_intror Hm))).
Defined.

(** C7: for a file of S bytes the adder needs ceil(S/4096) blocks; this
    exceeds 12 exactly when S > 12*4096.  A failure with "file too large"
    only happens for such a file, returns 1 and leaves the image buffer
    identical to the loaded one; an image that reaches the check (format
    accepted, a free inode found) fails that way for every such file; and a
    file of at most 12*4096 bytes is never rejected as too large. *)
Theorem file_too_large_check (img filepath fbuf : list Z) (now : Z) :
  Z.of_nat (length fbuf) < 2 ^ 63 ->
  let S := Z.of_nat (length fbuf) in
  Adder.blocks_needed S = ceil_div S 4096 /\
  (12 < ceil_div S 4096 <-> 12 * 4096 < S) /\
  (forall code buf,
      Adder.main img filepath fbuf now = Adder.Failed Adder.FileTooLarge code buf ->
      12 * 4096 < S /\ code = 1 /\ buf = img) /\
  (reaches_size_check img = true ->
   (12 * 4096 < S <->
    Adder.main img filepath fbuf now = Adder.Failed Adder.FileTooLarge 1 img)) /\
  (S <= 12 * 4096 ->
   Adder.error_of (Adder.main img filepath fbuf now) <> Some Adder.FileTooLarge).
Proof.
  intros Hlen S.
  assert (HS : 0 <= S < 2 ^ 63) by (unfold S; lia).
  assert (Hceil : Adder.blocks_needed S = ceil_div S 4096).
  { rewrite blocks_needed_eq, ceil_div_eq by lia. f_equal. lia. }
  assert (Hiff : 12 < ceil_div S 4096 <-> 12 * 4096 < S).
  { rewrite <- Hceil. now apply blocks_needed_gt_12. }
  assert (Hfail : forall code buf,
      Adder.main img filepath fbuf now = Adder.Failed Adder.FileTooLarge code buf ->
      12 * 4096 < S /\ code = 1 /\ buf = img).
  { intros code buf H.
    destruct (early_failure_buffer _ _ _ _ _ _ _ H) as [Hbuf Hrest];
      [now repeat right|].
    destruct (Hrest eq_refl) as [Hcode Hbig].
    apply Z.ltb_lt in Hbig. fold S in Hbig. unfold DIRECT_MAX in Hbig.
    rewrite Hceil in Hbig. apply Hiff in Hbig. auto. }
  split; [exact Hceil|]. split; [exact Hiff|]. split; [exact Hfail|]. split.
  - intros Hreach. split.
    + intros Hbig. unfold reaches_size_check in Hreach.
      apply andb_true_iff in Hreach as [Hreach H5].
      apply andb_true_iff in Hreach as [Hreach H4].
      apply andb_true_iff in Hreach as [Hreach H3].
      apply andb_true_iff in Hreach as [H1 H2].
      apply negb_true_iff in H1, H4, H5.
      unfold Adder.main. rewrite H1, H2, H3, H4, H5. cbn [negb orb].
      fold S.
      assert (Hlt : (DIRECT_MAX <? Adder.blocks_needed S) = true).
      { apply Z.ltb_lt. unfold DIRECT_MAX. rewrite Hceil. now apply Hiff. }
      now rewrite Hlt.
    + intros H. now destruct (Hfail 1 img H).
  - intros Hsmall Herr.
    destruct (Adder.main img filepath fbuf now) as [e code buf|out] eqn:Hmain;
      [|discriminate].
    cbn in Herr. injection Herr as ->.
    destruct (Hfail code buf eq_refl) as [Hbig _]. lia.
Qed.

Lemma file_too_large_check_witness :
  Z.of_nat (length (file_of_size 50000)) < 2 ^ 63 /\
  Adder.main fresh_image hello_path (file_of_size 50000) 1700000001
    = Adder.Failed Adder.FileTooLarge 1 fresh_image.
Proof.
  assert (Hlen : Z.of_nat (length (file_of_size 50000)) < 2 ^ 63)
    by (vm_compute; reflexivity).
  assert (Hbig : 12 * 4096 < Z.of_nat (length (file_of_size 50000)))
    by (vm_compute; reflexivity).
  assert (Hreach : reaches_size_check fresh_image = true)
    by (vm_compute; reflexivity).
  split; [exact Hlen|].
  exact (proj1 (proj1 (proj2 (proj2 (proj2
    (file_too_large_check fresh_image hello_path (file_of_size 50000)
       1700000001 Hlen)))) Hreach) Hbig).
Defined.

(** ** First-fit search *)

Lemma s64_small (i : Z) : 0 <= i < 2 ^ 63 -> s64 i = i.
Proof.
  intros H. unfold s64. rewrite Z.mod_small by lia.
  destruct (Z.ltb_spec i (2 ^ 63)); lia.
Qed.

Lemma ffz_loop_first_fit (m : list Z) (off : Z) (n : nat) (i : Z) :
  0 <= i -> i + Z.of_nat n <= 2 ^ 63 ->
  (Adder.ffz_loop m off i n = -1 /\
   forall j, i <= j < i + Z.of_nat n -> bitmap_test m off j <> 0) \/
  (i <= Adder.ffz_loop m off i n < i + Z.of_nat n /\
   bitmap_test m off (Adder.ffz_loop m off i n) = 0 /\
   forall j, i <= j < Adder.ffz_loop m off i n -> bitmap_test m off j <> 0).
Proof.
  revert i; induction n as [|n IH]; intros i Hi Hn.
  - left. split; [reflexivity | intros j Hj; lia].
  - cbn [Adder.ffz_loop].
    destruct (Z.eqb_spec (bitmap_test m off i) 0) as [Hz|Hnz].
    + right. rewrite s64_small by lia.
      split; [lia|]. split; [exact Hz|]. intros j Hj; lia.
    + assert (H1 : 0 <= i + 1) by lia.
      assert (H2 : i + 1 + Z.of_nat n <= 2 ^ 63) by lia.
      destruct (IH (i + 1) H1 H2) as [[Hr Hall]|(Hr & Hbit & Hall)].
      * left. split; [exact Hr|]. intros j Hj.
        destruct (Z.eq_dec j i) as [->|Hne]; [exact Hnz | apply Hall; lia].
      * right. split; [lia|]. split; [exact Hbit|]. intros j Hj.
        destruct (Z.eq_dec j i) as [->|Hne]; [exact Hnz | apply Hall; lia].
Qed.

(** bitmap_ffz returns the lowest unset bit below [bits], or -1 when every
    bit below [bits] is set *)
Lemma bitmap_ffz_first_fit (m : list Z) (off bits : Z) :
  0 <= bits <= 2 ^ 63 ->
  (Adder.bitmap_ffz m off bits = -1 /\
   forall j, 0 <= j < bits -> bitmap_test m off j <> 0) \/
  (0 <= Adder.bitmap_ffz m off bits < bits /\
   bitmap_test m off (Adder.bitmap_ffz m off bits) = 0 /\
   forall j, 0 <= j < Adder.bitmap_ffz m off bits -> bitmap_test m off j <> 0).
Proof.
  intros Hb. unfold Adder.bitmap_ffz.
  assert (H2 : 0 + Z.of_nat (Z.to_nat bits) <= 2 ^ 63) by lia.
  destruct (ffz_loop_first_fit m off (Z.to_nat bits) 0 (Z.le_refl 0) H2)
    as [[Hr Hall]|H].
  - left. split; [exact Hr|]. intros j Hj. apply Hall. lia.
  - right. rewrite Z2Nat.id in H by lia. exact H.
Qed.

(** ** The evaluated scenarios *)


(** C6, as the claim states it, fails: for size_kib = 180 and 128 inodes
    the data region starts at block 7, not 4. *)
Lemma data_region_start_180_128_is_not_4 :
  ~ (exists l, Builder.layout 180 128 = inr l /\
               Builder.l_data_region_start l = 4).
Proof.
  intros (l & Hl & H4).
  assert (H : Builder.layout 180 128
              = inr (Builder.mk_layout 45 1 2 3 4 7 38)) by reflexivity.
  rewrite H in Hl. injection Hl as <-. discriminate.
Qed.

(** a list is the list of its elements by index *)
Lemma map_nth_seq (l : list Z) :
  map (fun i => nth i l 0) (seq 0 (length l)) = l.
Proof.
  induction l as [|a l IH]; [reflexivity|].
  cbn [length seq map nth]. f_equal.
  rewrite <- seq_shift, map_map. exact IH.
Qed.

(** C6, amended: size_kib = 180 with 128 inodes gives total_blocks = 45,
    inode_table_blocks = ceil(128*128/4096) = 4 and data_region_start = 7;
    the root inode uses block 7 and only bit 0 of the data bitmap is set.
    Adding any 5000-byte file, here under the path /tmp/hello.txt, needs 2
    blocks and succeeds: bits 1 and 2 of the data bitmap, the lowest unset
    ones, become set, the new inode (#2) points at blocks 8 and 9 in that
    order, and slot 2 of the root directory holds an entry of type file (1)
    for inode 2 whose name is the base name of the file, with a valid
    checksum.  This holds whatever the image path, the two times, the memory
    after the builder's superblock and the content of the file are. *)
Theorem scenario_180_128_then_5000_bytes
    (path : list Z) (now0 now1 : Z) (after : nat -> Z) (fbuf : list Z) :
  Z.of_nat (length fbuf) = 5000 ->
  let img := Builder.image_of (Builder.main (Some path) 180 128 now0 after) in
  let r := Adder.main img hello_path fbuf now1 in
  let out := Adder.buffer_of r in
  Builder.layout 180 128 = inr (Builder.mk_layout 45 1 2 3 4 7 38) /\
  ceil_div (128 * 128) 4096 = 4 /\
  direct (load_inode img (3 * 4096)) = 7 :: repeat 0 11 /\
  bitmap_bits img (2 * 4096) 38 = 1 :: repeat 0 37 /\
  Adder.blocks_needed (Z.of_nat (length fbuf)) = 2 /\
  Adder.error_of r = None /\
  Adder.exit_code r = 0 /\
  bitmap_bits out (2 * 4096) 38 = 1 :: 1 :: 1 :: repeat 0 35 /\
  bitmap_bits out (1 * 4096) 128 = 1 :: 1 :: repeat 0 126 /\
  mode (load_inode out (3 * 4096 + 128)) = 32768 /\
  size_bytes (load_inode out (3 * 4096 + 128)) = 5000 /\
  direct (load_inode out (3 * 4096 + 128)) = 8 :: 9 :: repeat 0 10 /\
  load_dirent out (7 * 4096 + 2 * 64)
    = mk_dirent 2 1 (hello_name ++ repeat 0 49) 55 /\
  basename hello_path = hello_name /\
  dirent_valid (load_dirent out (7 * 4096 + 2 * 64)) = true.
Proof.
  intros Hlen img r out. subst out r img.
  assert (Hn : length fbuf = Z.to_nat 5000) by lia.
  rewrite <- (map_nth_seq fbuf), Hn.
  generalize (fun i : nat => nth i fbuf 0). clear fbuf Hlen Hn. intros f.
  split_all; vm_compute; reflexivity.
Qed.

Lemma scenario_180_128_then_5000_bytes_witness :
  Z.of_nat (length (file_of_size 5000)) = 5000 /\
  Adder.error_of (Adder.main fresh_image hello_path (file_of_size 5000)
                    1700000001) = None.
Proof.
  assert (Hlen : Z.of_nat (length (file_of_size 5000)) = 5000)
    by (vm_compute; reflexivity).
  split; [exact Hlen|].
  exact (proj1 (proj2 (proj2 (proj2 (proj2 (proj2
    (scenario_180_128_then_5000_bytes image_path 1700000000 1700000001
       (fun _ => 0) (file_of_size 5000) Hlen))))))).
Defined.

(** C4: for --size-kib 180 --inodes 128 the image has 180*1024 bytes, both
    bitmaps have only bit 0 set, the first inode is the root directory
    (mode 0040000, 2 links, 128 bytes, block 7) and the first data block
    holds "." and ".." for inode 1 with valid checksums; but the superblock
    checksum was computed over 4092 bytes starting at a 116-byte struct, so
    with a byte 1 in the memory after the struct the stored checksum
    (48488885) is neither the CRC-32 of the stored block with the field
    zeroed (770332917) nor that of the stored struct (526161998). *)
Theorem builder_superblock_checksum_not_reproducible :
  Z.of_nat (length fresh_image_dirty) = 180 * 1024 /\
  bitmap_bits fresh_image_dirty (1 * 4096) 128 = 1 :: repeat 0 127 /\
  bitmap_bits fresh_image_dirty (2 * 4096) 38 = 1 :: repeat 0 37 /\
  load_inode fresh_image_dirty (3 * 4096)
    = Builder.root_inode_of (Builder.mk_layout 45 1 2 3 4 7 38) 1700000000 /\
  mode (load_inode fresh_image_dirty (3 * 4096)) = 16384 /\
  links (load_inode fresh_image_dirty (3 * 4096)) = 2 /\
  size_bytes (load_inode fresh_image_dirty (3 * 4096)) = 2 * 64 /\
  direct (load_inode fresh_image_dirty (3 * 4096)) = 7 :: repeat 0 11 /\
  load_dirent fresh_image_dirty (7 * 4096) = mk_dirent 1 2 (46 :: repeat 0 57) 45 /\
  load_dirent fresh_image_dirty (7 * 4096 + 64)
    = mk_dirent 1 2 (46 :: 46 :: repeat 0 56) 3 /\
  dirent_valid (load_dirent fresh_image_dirty (7 * 4096)) = true /\
  dirent_valid (load_dirent fresh_image_dirty (7 * 4096 + 64)) = true /\
  checksum (load_superblock fresh_image_dirty 0) = 48488885 /\
  recomputed_checksum_block fresh_image_dirty = 770332917 /\
  recomputed_checksum_struct fresh_image_dirty = 526161998 /\
  checksum (load_superblock fresh_image_dirty 0)
    <> recomputed_checksum_block fresh_image_dirty /\
  checksum (load_superblock fresh_image_dirty 0)
    <> recomputed_checksum_struct fresh_image_dirty.
Proof.
  split_all;
    first [ vm_compute; reflexivity
          | intros H; vm_compute in H; discriminate H ].
Qed.

(** * Further properties of the code *)

(** ** Buffers, cell by cell *)

Lemma length_read_bytes (m : list Z) (off : Z) (n : nat) :
  length (read_bytes m off n) = n.
Proof.
  unfold read_bytes. rewrite length_firstn, length_app, repeat_length. lia.
Qed.

Lemma nth_read_bytes (m : list Z) (off : Z) (n j : nat) :
  (j < n)%nat ->
  nth j (read_bytes m off n) 0 = nth (Z.to_nat off + j) m 0.
Proof.
  intros Hj. unfold read_bytes. rewrite nth_firstn.
  destruct (Nat.ltb_spec j n) as [_|H]; [|lia].
  destruct (Nat.lt_ge_cases j (length (skipn (Z.to_nat off) m))) as [H|H].
  - rewrite app_nth1 by exact H. apply nth_skipn.
  - rewrite app_nth2 by exact H. rewrite nth_repeat.
    rewrite length_skipn in H. symmetry. apply nth_overflow. lia.
Qed.

Lemma nth_write_bytes (m : list Z) (off : Z) (d : list Z) (j : nat) :
  nth j (write_bytes m off d) 0 =
  if (j <? length m)%nat
  then if ((Z.to_nat off <=? j) && (j <? Z.to_nat off + length d))%nat
       then nth (j - Z.to_nat off) d 0 else nth j m 0
  else 0.
Proof.
  unfold write_bytes. set (o := Z.to_nat off). rewrite nth_firstn.
  destruct (Nat.ltb_spec j (length m)) as [Hm|Hm]; [|reflexivity].
  destruct (Nat.leb_spec o j) as [Ho|Ho]; cbn [andb].
  - rewrite app_nth2 by (rewrite length_firstn; lia).
    rewrite length_firstn. replace (Nat.min o (length m)) with o by lia.
    destruct (Nat.ltb_spec j (o + length d)) as [Hd|Hd].
    + apply app_nth1. lia.
    + rewrite app_nth2 by lia. rewrite nth_skipn. f_equal. lia.
  - rewrite app_nth1 by (rewrite length_firstn; lia).
    rewrite nth_firstn. destruct (Nat.ltb_spec j o); [reflexivity | lia].
Qed.

Lemma get8_write_in (m : list Z) (off a : Z) (d : list Z) :
  0 <= off <= a -> a < off + Z.of_nat (length d) ->
  a < Z.of_nat (length m) ->
  get8 (write_bytes m off d) a = nth (Z.to_nat (a - off)) d 0.
Proof.
  intros H1 H2 H3. unfold get8. rewrite nth_write_bytes.
  destruct (Nat.ltb_spec (Z.to_nat a) (length m)); [|lia].
  destruct (Nat.leb_spec (Z.to_nat off) (Z.to_nat a)); [|lia].
  destruct (Nat.ltb_spec (Z.to_nat a) (Z.to_nat off + length d)); [|lia].
  cbn [andb]. f_equal. lia.
Qed.

Lemma get8_write_out (m : list Z) (off a : Z) (d : list Z) :
  0 <= off -> 0 <= a -> a < off \/ off + Z.of_nat (length d) <= a ->
  get8 (write_bytes m off d) a = get8 m a.
Proof.
  intros H1 H2 H3. unfold get8. rewrite nth_write_bytes.
  destruct (Nat.ltb_spec (Z.to_nat a) (length m)) as [Hm|Hm].
  - destruct (Nat.leb_spec (Z.to_nat off) (Z.to_nat a));
      destruct (Nat.ltb_spec (Z.to_nat a) (Z.to_nat off + length d));
      cbn [andb]; try reflexivity; lia.
  - symmetry. apply nth_overflow. lia.
Qed.

Lemma read_bytes_write_same (m : list Z) (off : Z) (d : list Z) :
  0 <= off -> off + Z.of_nat (length d) <= Z.of_nat (length m) ->
  read_bytes (write_bytes m off d) off (length d) = d.
Proof.
  intros H1 H2. apply nth_ext with (d := 0) (d' := 0).
  - apply length_read_bytes.
  - intros j Hj. rewrite length_read_bytes in Hj.
    rewrite nth_read_bytes by exact Hj. rewrite nth_write_bytes.
    destruct (Nat.ltb_spec (Z.to_nat off + j) (length m)); [|lia].
    destruct (Nat.leb_spec (Z.to_nat off) (Z.to_nat off + j)); [|lia].
    destruct (Nat.ltb_spec (Z.to_nat off + j) (Z.to_nat off + length d)); [|lia].
    cbn [andb]. f_equal. lia.
Qed.

Lemma read_bytes_write_other (m : list Z) (off p : Z) (d : list Z) (n : nat) :
  0 <= off -> 0 <= p ->
  p + Z.of_nat n <= off \/ off + Z.of_nat (length d) <= p ->
  read_bytes (write_bytes m off d) p n = read_bytes m p n.
Proof.
  intros H1 H2 H3. apply nth_ext with (d := 0) (d' := 0).
  - now rewrite !length_read_bytes.
  - intros j Hj. rewrite length_read_bytes in Hj.
    rewrite !nth_read_bytes by exact Hj. rewrite nth_write_bytes.
    destruct (Nat.ltb_spec (Z.to_nat p + j) (length m)) as [Hm|Hm].
    + destruct (Nat.leb_spec (Z.to_nat off) (Z.to_nat p + j));
        destruct (Nat.ltb_spec (Z.to_nat p + j) (Z.to_nat off + length d));
        cbn [andb]; try reflexivity; lia.
    + symmetry. apply nth_overflow. lia.
Qed.

Lemma read_bytes_sub (m : list Z) (off k : Z) (N n : nat) :
  0 <= off -> 0 <= k -> k + Z.of_nat n <= Z.of_nat N ->
  read_bytes (read_bytes m off N) k n = read_bytes m (off + k) n.
Proof.
  intros H1 H2 H3. apply nth_ext with (d := 0) (d' := 0).
  - now rewrite !length_read_bytes.
  - intros j Hj. rewrite length_read_bytes in Hj.
    rewrite !nth_read_bytes by first [exact Hj | lia]. f_equal. lia.
Qed.

Lemma bytes_ok_firstn (n : nat) (m : list Z) :
  bytes_ok m -> bytes_ok (firstn n m).
Proof.
  revert m; induction n as [|n IH]; intros m Hm; [constructor|].
  destruct Hm; cbn [firstn]; constructor; auto. now apply IH.
Qed.

Lemma bytes_ok_skipn (n : nat) (m : list Z) :
  bytes_ok m -> bytes_ok (skipn n m).
Proof.
  revert m; induction n as [|n IH]; intros m Hm; [exact Hm|].
  destruct Hm; cbn [skipn]; [constructor | now apply IH].
Qed.

Lemma bytes_ok_app (a b : list Z) :
  bytes_ok a -> bytes_ok b -> bytes_ok (a ++ b).
Proof. intros Ha Hb. apply Forall_app. now split. Qed.

Lemma bytes_ok_write (m : list Z) (off : Z) (d : list Z) :
  bytes_ok m -> bytes_ok d -> bytes_ok (write_bytes m off d).
Proof.
  intros Hm Hd. unfold write_bytes.
  apply bytes_ok_firstn. repeat apply bytes_ok_app.
  - now apply bytes_ok_firstn.
  - exact Hd.
  - now apply bytes_ok_skipn.
Qed.

Lemma bytes_ok_nth (m : list Z) (j : nat) : bytes_ok m -> byte_ok (nth j m 0).
Proof.
  intros Hm. destruct (Nat.lt_ge_cases j (length m)) as [H|H].
  - unfold bytes_ok in Hm. rewrite Forall_forall in Hm. apply Hm, nth_In, H.
  - rewrite nth_overflow by exact H. unfold byte_ok; lia.
Qed.

Lemma bytes_ok_repeat0 (n : nat) : bytes_ok (repeat 0 n).
Proof. apply Forall_forall. intros x Hx. apply repeat_spec in Hx. subst. unfold byte_ok; lia. Qed.

Lemma bytes_ok_le_bytes (n : nat) (v : Z) : bytes_ok (le_bytes n v).
Proof.
  revert v; induction n as [|n IH]; intros v; cbn [le_bytes]; constructor.
  - unfold byte_ok. apply Z.mod_pos_bound. lia.
  - apply IH.
Qed.

(** ** Bitmaps, bit by bit *)

Lemma bit_of_byte (b k : Z) :
  0 <= k -> Z.land (Z.shiftr b k) 1 = Z.b2z (Z.testbit b k).
Proof.
  intros Hk. change 1 with (Z.ones 1) at 1.
  rewrite Z.land_ones by lia. rewrite Z.shiftr_div_pow2 by lia.
  rewrite Z.testbit_spec' by lia. reflexivity.
Qed.

Lemma idx_split (idx : Z) :
  0 <= idx ->
  Z.shiftr idx 3 = idx / 8 /\ Z.land idx 7 = idx mod 8 /\
  0 <= idx / 8 /\ 0 <= idx mod 8 < 8.
Proof.
  intros H. rewrite Z.shiftr_div_pow2 by lia.
  change 7 with (Z.ones 3). rewrite Z.land_ones by lia.
  change (2 ^ 3) with 8.
  pose proof (Z.mod_pos_bound idx 8 ltac:(lia)).
  pose proof (Z.div_pos idx 8 H ltac:(lia)). auto.
Qed.

Lemma bitmap_test_bit (m : list Z) (off idx : Z) :
  0 <= idx ->
  bitmap_test m off idx
  = Z.b2z (Z.testbit (get8 m (off + idx / 8)) (idx mod 8)).
Proof.
  intros H. destruct (idx_split idx H) as (E1 & E2 & _ & Hk).
  unfold bitmap_test. rewrite E1, E2. apply bit_of_byte. lia.
Qed.

Lemma one_shifted (k : Z) :
  0 <= k < 8 -> u8 (Z.shiftl 1 k) = 2 ^ k.
Proof.
  intros Hk. rewrite Z.shiftl_1_l. unfold u8. apply Z.mod_small.
  split; [apply Z.pow_nonneg; lia|].
  apply Z.pow_lt_mono_r; lia.
Qed.

Lemma byte_ok_bits (b : Z) :
  byte_ok b <-> (0 <= b /\ forall j, 8 <= j -> Z.testbit b j = false).
Proof.
  unfold byte_ok. split.
  - intros [H0 H]. split; [exact H0|]. intros j Hj.
    destruct (Z.eq_dec b 0) as [->|Hb]; [apply Z.bits_0|].
    apply Z.bits_above_log2; [lia|].
    assert (Z.log2 b < 8) by (apply Z.log2_lt_pow2; lia). lia.
  - intros [H0 H]. split; [exact H0|].
    destruct (Z.eq_dec b 0) as [->|Hb]; [lia|].
    change 256 with (2 ^ 8). apply Z.log2_lt_pow2; [lia|].
    destruct (Z.lt_ge_cases (Z.log2 b) 8) as [Hl|Hl]; [exact Hl|].
    pose proof (Z.bit_log2 b ltac:(lia)) as Hbit.
    rewrite H in Hbit by exact Hl. discriminate Hbit.
Qed.

Lemma byte_ok_lor (a b : Z) : byte_ok a -> byte_ok b -> byte_ok (Z.lor a b).
Proof.
  rewrite !byte_ok_bits. intros [Ha Ha'] [Hb Hb']. split.
  - apply Z.lor_nonneg. auto.
  - intros j Hj. now rewrite Z.lor_spec, Ha', Hb'.
Qed.

Lemma byte_ok_land (a b : Z) : byte_ok a -> 0 <= b -> byte_ok (Z.land a b).
Proof.
  rewrite !byte_ok_bits. intros [Ha Ha'] Hb. split.
  - apply Z.land_nonneg. auto.
  - intros j Hj. now rewrite Z.land_spec, Ha'.
Qed.

Lemma byte_ok_pow2 (k : Z) : 0 <= k < 8 -> byte_ok (2 ^ k).
Proof.
  intros Hk. split; [apply Z.pow_nonneg; lia|].
  change 256 with (2 ^ 8). apply Z.pow_lt_mono_r; lia.
Qed.

(** the cells and bits two indices address *)
Lemma idx_cases (i j : Z) :
  0 <= i -> 0 <= j -> i <> j -> i / 8 <> j / 8 \/ i mod 8 <> j mod 8.
Proof.
  intros Hi Hj Hne.
  pose proof (Z.div_mod i 8 ltac:(lia)). pose proof (Z.div_mod j 8 ltac:(lia)).
  destruct (Z.eq_dec (i / 8) (j / 8)); [right | left]; lia.
Qed.

Section Bitmap.

Variables (m : list Z) (off idx : Z).
Hypothesis Hoff : 0 <= off.
Hypothesis Hidx : 0 <= idx.
Hypothesis Hin : off + idx / 8 < Z.of_nat (length m).

Lemma bitmap_set_get8_same :
  get8 (bitmap_set m off idx) (off + idx / 8)
  = Z.lor (get8 m (off + idx / 8)) (2 ^ (idx mod 8)).
Proof.
  destruct (idx_split idx Hidx) as (E1 & E2 & Hd & Hk).
  unfold bitmap_set, set8. rewrite E1, E2, one_shifted by exact Hk.
  rewrite get8_write_in by (cbn [length]; lia).
  now rewrite Z.sub_diag.
Qed.

Lemma bitmap_set_get8_other (a : Z) :
  0 <= a -> a <> off + idx / 8 ->
  get8 (bitmap_set m off idx) a = get8 m a.
Proof.
  intros Ha Hne. destruct (idx_split idx Hidx) as (E1 & E2 & Hd & Hk).
  unfold bitmap_set, set8. rewrite E1.
  apply get8_write_out; cbn [length]; lia.
Qed.

Lemma bitmap_clear_get8_same :
  get8 (bitmap_clear m off idx) (off + idx / 8)
  = Z.land (get8 m (off + idx / 8)) (u8 (Z.lnot (2 ^ (idx mod 8)))).
Proof.
  destruct (idx_split idx Hidx) as (E1 & E2 & Hd & Hk).
  unfold bitmap_clear, set8. rewrite E1, E2, Z.shiftl_1_l.
  rewrite get8_write_in by (cbn [length]; lia).
  now rewrite Z.sub_diag.
Qed.

Lemma bitmap_clear_get8_other (a : Z) :
  0 <= a -> a <> off + idx / 8 ->
  get8 (bitmap_clear m off idx) a = get8 m a.
Proof.
  intros Ha Hne. destruct (idx_split idx Hidx) as (E1 & E2 & Hd & Hk).
  unfold bitmap_clear, set8. rewrite E1.
  apply get8_write_out; cbn [length]; lia.
Qed.

Lemma bitmap_set_test_same : bitmap_test (bitmap_set m off idx) off idx = 1.
Proof.
  destruct (idx_split idx Hidx) as (E1 & E2 & Hd & Hk).
  rewrite bitmap_test_bit by exact Hidx.
  rewrite bitmap_set_get8_same, Z.lor_spec, Z.pow2_bits_eqb by lia.
  now rewrite Z.eqb_refl, orb_true_r.
Qed.

Lemma bitmap_set_test_other (j : Z) :
  0 <= j -> j <> idx ->
  bitmap_test (bitmap_set m off idx) off j = bitmap_test m off j.
Proof.
  intros Hj Hne. destruct (idx_split idx Hidx) as (E1 & E2 & Hd & Hk).
  destruct (idx_split j Hj) as (_ & _ & Hdj & Hkj).
  rewrite !bitmap_test_bit by exact Hj.
  destruct (Z.eq_dec (j / 8) (idx / 8)) as [He|He].
  - rewrite He, bitmap_set_get8_same, Z.lor_spec, Z.pow2_bits_eqb by lia.
    destruct (idx_cases j idx Hj Hidx Hne) as [H|H]; [contradiction|].
    destruct (Z.eqb_spec (idx mod 8) (j mod 8)); [lia|].
    now rewrite orb_false_r.
  - rewrite bitmap_set_get8_other by lia. reflexivity.
Qed.

Lemma bitmap_clear_test_same : bitmap_test (bitmap_clear m off idx) off idx = 0.
Proof.
  destruct (idx_split idx Hidx) as (E1 & E2 & Hd & Hk).
  rewrite bitmap_test_bit by exact Hidx.
  rewrite bitmap_clear_get8_same, Z.land_spec. unfold u8.
  rewrite Z.testbit_mod_pow2, Z.lnot_spec, Z.pow2_bits_eqb by lia.
  now rewrite Z.eqb_refl, !andb_false_r.
Qed.

Lemma bitmap_clear_test_other (j : Z) :
  0 <= j -> j <> idx ->
  bitmap_test (bitmap_clear m off idx) off j = bitmap_test m off j.
Proof.
  intros Hj Hne. destruct (idx_split idx Hidx) as (E1 & E2 & Hd & Hk).
  destruct (idx_split j Hj) as (_ & _ & Hdj & Hkj).
  rewrite !bitmap_test_bit by exact Hj.
  destruct (Z.eq_dec (j / 8) (idx / 8)) as [He|He].
  - rewrite He, bitmap_clear_get8_same, Z.land_spec. unfold u8.
    rewrite Z.testbit_mod_pow2, Z.lnot_spec, Z.pow2_bits_eqb by lia.
    destruct (idx_cases j idx Hj Hidx Hne) as [H|H]; [contradiction|].
    destruct (Z.eqb_spec (idx mod 8) (j mod 8)); [lia|].
    destruct (Z.ltb_spec (j mod 8) 8); [|lia].
    now rewrite !andb_true_r.
  - rewrite bitmap_clear_get8_other by lia. reflexivity.
Qed.

End Bitmap.

Lemma bytes_ok_bitmap_set (m : list Z) (off idx : Z) :
  0 <= idx -> bytes_ok m -> bytes_ok (bitmap_set m off idx).
Proof.
  intros Hidx Hm. destruct (idx_split idx Hidx) as (E1 & E2 & Hd & Hk).
  unfold bitmap_set, set8. apply bytes_ok_write; [exact Hm|].
  constructor; [|constructor].
  rewrite E2, one_shifted by exact Hk.
  apply byte_ok_lor; [apply bytes_ok_nth, Hm | apply byte_ok_pow2, Hk].
Qed.

Lemma bytes_ok_bitmap_clear (m : list Z) (off idx : Z) :
  bytes_ok m -> bytes_ok (bitmap_clear m off idx).
Proof.
  intros Hm. unfold bitmap_clear, set8. apply bytes_ok_write; [exact Hm|].
  constructor; [|constructor].
  apply byte_ok_land; [apply bytes_ok_nth, Hm|].
  unfold u8. apply Z.mod_pos_bound. lia.
Qed.

Lemma length_bitmap_set (m : list Z) (off idx : Z) :
  length (bitmap_set m off idx) = length m.
Proof. apply length_write_bytes. Qed.

Lemma length_bitmap_clear (m : list Z) (off idx : Z) :
  length (bitmap_clear m off idx) = length m.
Proof. apply length_write_bytes. Qed.

Lemma list_eq_get8 (a b : list Z) :
  length a = length b ->
  (forall c, 0 <= c < Z.of_nat (length a) -> get8 a c = get8 b c) -> a = b.
Proof.
  intros Hl H. apply nth_ext with (d := 0) (d' := 0); [exact Hl|].
  intros n Hn. specialize (H (Z.of_nat n) ltac:(lia)).
  unfold get8 in H. now rewrite Nat2Z.id in H.
Qed.

(** X1: bitmap_set on a bit whose byte lies inside the buffer keeps the
    buffer length, makes bitmap_test return 1 for that bit, leaves
    bitmap_test of every other bit as it was, keeps every cell a byte, and
    setting the same bit again changes nothing. *)
Theorem bitmap_set_sets_exactly_one_bit (m : list Z) (off idx : Z) :
  0 <= off -> 0 <= idx -> off + idx / 8 < Z.of_nat (length m) ->
  length (bitmap_set m off idx) = length m /\
  bitmap_test (bitmap_set m off idx) off idx = 1 /\
  (forall j, 0 <= j -> j <> idx ->
     bitmap_test (bitmap_set m off idx) off j = bitmap_test m off j) /\
  (bytes_ok m -> bytes_ok (bitmap_set m off idx)) /\
  bitmap_set (bitmap_set m off idx) off idx = bitmap_set m off idx.
Proof.
  intros Hoff Hidx Hin.
  assert (Hlen : length (bitmap_set m off idx) = length m)
    by apply length_bitmap_set.
  split; [exact Hlen|].
  split; [now apply bitmap_set_test_same|].
  split; [intros j Hj Hne; now apply bitmap_set_test_other|].
  split; [now apply bytes_ok_bitmap_set|].
  apply list_eq_get8; [apply length_bitmap_set|].
  intros c Hc. rewrite !length_bitmap_set in Hc.
  destruct (Z.eq_dec c (off + idx / 8)) as [->|Hne].
  - rewrite bitmap_set_get8_same by (rewrite ?Hlen; assumption).
    rewrite bitmap_set_get8_same by assumption.
    rewrite <- Z.lor_assoc, Z.lor_diag. reflexivity.
  - rewrite bitmap_set_get8_other by (rewrite ?Hlen; lia). reflexivity.
Qed.

Lemma bitmap_set_sets_exactly_one_bit_witness :
  bitmap_test (bitmap_set [0; 0; 0] 1 9) 1 9 = 1.
Proof.
  exact (proj1 (proj2 (bitmap_set_sets_exactly_one_bit [0; 0; 0] 1 9
           ltac:(lia) ltac:(lia) ltac:(vm_compute; reflexivity)))).
Defined.

(** X2: bitmap_clear on a bit whose byte lies inside the buffer keeps the
    buffer length, makes bitmap_test return 0 for that bit, leaves
    bitmap_test of every other bit as it was, keeps every cell a byte, and
    undoes a bitmap_set of a bit that was clear. *)
Theorem bitmap_clear_clears_exactly_one_bit (m : list Z) (off idx : Z) :
  0 <= off -> 0 <= idx -> off + idx / 8 < Z.of_nat (length m) ->
  length (bitmap_clear m off idx) = length m /\
  bitmap_test (bitmap_clear m off idx) off idx = 0 /\
  (forall j, 0 <= j -> j <> idx ->
     bitmap_test (bitmap_clear m off idx) off j = bitmap_test m off j) /\
  (bytes_ok m -> bytes_ok (bitmap_clear m off idx)) /\
  (bytes_ok m -> bitmap_test m off idx = 0 ->
     bitmap_clear (bitmap_set m off idx) off idx = m).
Proof.
  intros Hoff Hidx Hin.
  split; [apply length_bitmap_clear|].
  split; [now apply bitmap_clear_test_same|].
  split; [intros j Hj Hne; now apply bitmap_clear_test_other|].
  split; [now apply bytes_ok_bitmap_clear|].
  intros Hm Hbit.
  destruct (idx_split idx Hidx) as (E1 & E2 & Hd & Hk).
  assert (Hlen : length (bitmap_set m off idx) = length m)
    by apply length_bitmap_set.
  apply list_eq_get8; [now rewrite length_bitmap_clear|].
  intros c Hc. rewrite length_bitmap_clear, Hlen in Hc.
  destruct (Z.eq_dec c (off + idx / 8)) as [->|Hne].
  - rewrite bitmap_clear_get8_same by (rewrite ?Hlen; assumption).
    rewrite bitmap_set_get8_same by assumption.
    rewrite bitmap_test_bit in Hbit by exact Hidx.
    pose proof (bytes_ok_nth m (Z.to_nat (off + idx / 8)) Hm) as Hb.
    fold (get8 m (off + idx / 8)) in Hb.
    set (b := get8 m (off + idx / 8)) in *.
    apply byte_ok_bits in Hb as [Hb0 Hb8].
    apply Z.bits_inj'. intros j Hj.
    rewrite Z.land_spec, Z.lor_spec. unfold u8.
    rewrite Z.testbit_mod_pow2, Z.lnot_spec, Z.pow2_bits_eqb by lia.
    destruct (Z.eqb_spec (idx mod 8) j) as [<-|Hkj].
    + destruct (Z.testbit b (idx mod 8)); [discriminate Hbit|].
      now rewrite !andb_false_r.
    + destruct (Z.ltb_spec j 8) as [H8|H8].
      * now rewrite orb_false_r, !andb_true_r.
      * rewrite Hb8 by lia. reflexivity.
  - rewrite bitmap_clear_get8_other by (rewrite ?Hlen; lia).
    rewrite bitmap_set_get8_other by lia. reflexivity.
Qed.

Lemma bitmap_clear_clears_exactly_one_bit_witness :
  bitmap_test (bitmap_clear [255; 255; 255] 1 9) 1 9 = 0.
Proof.
  exact (proj1 (proj2 (bitmap_clear_clears_exactly_one_bit [255; 255; 255] 1 9
           ltac:(lia) ltac:(lia) ltac:(vm_compute; reflexivity)))).
Defined.

(** X3: for at most 2^63 bits, bitmap_ffz returns -1 or an index below
    [bits]; it returns -1 exactly when every one of the bits is set, and
    otherwise the index of a clear bit below which every bit is set. *)
Theorem bitmap_ffz_lowest_free_bit (m : list Z) (off bits : Z) :
  0 <= bits <= 2 ^ 63 ->
  let r := Adder.bitmap_ffz m off bits in
  (r = -1 \/ 0 <= r < bits) /\
  (r = -1 <-> forall j, 0 <= j < bits -> bitmap_test m off j <> 0) /\
  (0 <= r -> bitmap_test m off r = 0 /\
             forall j, 0 <= j < r -> bitmap_test m off j <> 0).
Proof.
  intros Hb r. subst r.
  destruct (bitmap_ffz_first_fit m off bits Hb) as [[Hr Hall]|(Hr & Hbit & Hall)].
  - rewrite Hr. split; [now left|]. split; [tauto|]. intros H; lia.
  - split; [now right|]. split; [|auto].
    split; [lia|]. intros Hall'. exfalso.
    apply (Hall' (Adder.bitmap_ffz m off bits) Hr Hbit).
Qed.

Lemma bitmap_ffz_lowest_free_bit_witness :
  Adder.bitmap_ffz [255; 251] 0 16 = -1 \/
  0 <= Adder.bitmap_ffz [255; 251] 0 16 < 16.
Proof.
  exact (proj1 (bitmap_ffz_lowest_free_bit [255; 251] 0 16
                  ltac:(split; [lia | vm_compute; discriminate]))).
Defined.

(** X4: one step of the allocation loop makes progress: after bitmap_set
    on the bit that bitmap_ffz found, the next bitmap_ffz returns -1 or a
    strictly larger index, so no bit is handed out twice. *)
Theorem bitmap_ffz_after_set_moves_on (m : list Z) (off bits : Z) :
  0 <= off -> 0 <= bits <= 2 ^ 63 ->
  off + bits / 8 < Z.of_nat (length m) ->
  let r := Adder.bitmap_ffz m off bits in
  0 <= r ->
  let r' := Adder.bitmap_ffz (bitmap_set m off r) off bits in
  r' = -1 \/ r < r' < bits.
Proof.
  intros Hoff Hb Hlen r Hr r'.
  destruct (bitmap_ffz_first_fit m off bits Hb) as [[H1 _]|(H1 & Hbit & Hall)];
    fold r in H1; [lia|]. fold r in Hbit, Hall.
  assert (Hin : off + r / 8 < Z.of_nat (length m)).
  { pose proof (Z.div_le_mono r bits 8 ltac:(lia) ltac:(lia)). lia. }
  destruct (bitmap_ffz_first_fit (bitmap_set m off r) off bits Hb)
    as [[H2 _]|(H2 & Hbit' & Hall')]; fold r' in H2; [now left|].
  fold r' in Hbit', Hall'. right.
  destruct (Z.lt_trichotomy r' r) as [Hlt|[Heq|Hgt]]; [| |lia].
  - exfalso. rewrite bitmap_set_test_other in Hbit' by lia.
    apply (Hall r'); [lia | exact Hbit'].
  - exfalso. rewrite Heq, bitmap_set_test_same in Hbit' by lia.
    discriminate Hbit'.
Qed.

Lemma bitmap_ffz_after_set_moves_on_witness :
  Adder.bitmap_ffz (bitmap_set [255; 251; 0] 0 (Adder.bitmap_ffz [255; 251; 0] 0 16)) 0 16 = -1 \/
  Adder.bitmap_ffz [255; 251; 0] 0 16
    < Adder.bitmap_ffz (bitmap_set [255; 251; 0] 0 (Adder.bitmap_ffz [255; 251; 0] 0 16)) 0 16
    < 16.
Proof.
  exact (bitmap_ffz_after_set_moves_on [255; 251; 0] 0 16
           ltac:(lia) ltac:(split; [lia | vm_compute; discriminate])
           ltac:(vm_compute; reflexivity)
           ltac:(vm_compute; discriminate)).
Defined.

(** ** CRC-32, incrementally *)

Lemma crc32_update_all (c : Z) (a b : list Z) :
  Adder.crc32_update c (a ++ b) (length a) = fold_left crc32_round a c.
Proof.
  unfold Adder.crc32_update.
  now rewrite (firstn_head a b (length a) eq_refl).
Qed.

Lemma crc32_update_exact (c : Z) (a : list Z) :
  Adder.crc32_update c a (length a) = fold_left crc32_round a c.
Proof. unfold Adder.crc32_update. now rewrite firstn_all. Qed.

(** X5: crc32_update can be fed a buffer in pieces: the CRC state after
    a ++ b is the state after b started from the state after a, and bytes
    past [len] are not read; crc32_finalize is the update from 0xFFFFFFFF
    followed by the final complement, stays within 32 bits, agrees with the
    builder's crc32, and yields the CRC-32 check value 0xCBF43926 on the
    nine characters 123456789. *)
Theorem crc32_update_streams :
  (forall c a b,
      Adder.crc32_update c (a ++ b) (length a + length b)
      = Adder.crc32_update (Adder.crc32_update c a (length a)) b (length b)) /\
  (forall c a b,
      Adder.crc32_update c (a ++ b) (length a)
      = Adder.crc32_update c a (length a)) /\
  (forall a b,
      Adder.crc32_finalize (a ++ b) (length a + length b)
      = Z.lxor (Adder.crc32_update
                  (Adder.crc32_update 0xFFFFFFFF a (length a)) b (length b))
               0xFFFFFFFF) /\
  (forall c buf len, in_u32 c -> in_u32 (Adder.crc32_update c buf len)) /\
  (forall buf len,
      in_u32 (Adder.crc32_finalize buf len) /\
      Adder.crc32_finalize buf len = Builder.crc32 buf len) /\
  Adder.crc32_finalize [49; 50; 51; 52; 53; 54; 55; 56; 57] 9 = 0xCBF43926.
Proof.
  assert (Happ : forall c a b,
      Adder.crc32_update c (a ++ b) (length a + length b)
      = Adder.crc32_update (Adder.crc32_update c a (length a)) b (length b)).
  { intros c a b. rewrite <- length_app, !crc32_update_exact.
    apply fold_left_app. }
  split; [exact Happ|].
  split.
  { intros c a b. now rewrite crc32_update_all, crc32_update_exact. }
  split; [intros a b; unfold Adder.crc32_finalize; now rewrite Happ|].
  split; [intros c buf len Hc; now apply crc32_fold_u32|].
  split; [intros buf len; split; [apply crc32_u32 | reflexivity]|].
  vm_compute. reflexivity.
Qed.

(** ** The XOR checksum of directory entries *)

Lemma byte_ok_lxor (a b : Z) : byte_ok a -> byte_ok b -> byte_ok (Z.lxor a b).
Proof.
  rewrite !byte_ok_bits. intros [Ha Ha'] [Hb Hb']. split.
  - apply Z.lxor_nonneg. tauto.
  - intros j Hj. now rewrite Z.lxor_spec, Ha', Hb'.
Qed.

Lemma fold_lxor_byte (l : list Z) (acc : Z) :
  bytes_ok l -> byte_ok acc -> byte_ok (fold_left Z.lxor l acc).
Proof.
  revert acc; induction l as [|x l IH]; intros acc Hl Ha; [exact Ha|].
  inversion Hl; subst. cbn [fold_left]. apply IH; [assumption|].
  now apply byte_ok_lxor.
Qed.

Lemma fold_lxor_acc (l : list Z) (acc : Z) :
  fold_left Z.lxor l acc = Z.lxor acc (fold_left Z.lxor l 0).
Proof.
  revert acc; induction l as [|x l IH]; intros acc; cbn [fold_left].
  - now rewrite Z.lxor_0_r.
  - rewrite IH, (IH (Z.lxor 0 x)), Z.lxor_0_l, Z.lxor_assoc. reflexivity.
Qed.

Lemma bytes_ok_map_u8 (l : list Z) : bytes_ok (map u8 l).
Proof.
  induction l as [|x l IH]; constructor; [|exact IH].
  unfold byte_ok, u8. apply Z.mod_pos_bound. lia.
Qed.

Lemma bytes_ok_dirent_head (de : dirent64_t) : bytes_ok (dirent_head de).
Proof.
  unfold dirent_head. repeat apply bytes_ok_app;
    try apply bytes_ok_le_bytes. apply bytes_ok_map_u8.
Qed.

(** X6: after dirent_checksum_finalize the checksum is a byte, it is
    byte 63 of the 64-byte entry, and the XOR of all 64 bytes of the entry
    is 0. *)
Theorem dirent_bytes_xor_to_zero (de : dirent64_t) :
  byte_ok (de_checksum (dirent_checksum_finalize de)) /\
  nth 63 (dirent_bytes (dirent_checksum_finalize de)) 0
    = de_checksum (dirent_checksum_finalize de) /\
  fold_left Z.lxor (dirent_bytes (dirent_checksum_finalize de)) 0 = 0.
Proof.
  rewrite dirent_finalize_eq. cbn [de_checksum set_de_checksum].
  set (x := fold_left Z.lxor (dirent_head de) 0).
  assert (Hx : byte_ok x).
  { apply fold_lxor_byte; [apply bytes_ok_dirent_head | unfold byte_ok; lia]. }
  assert (Hb : dirent_bytes (set_de_checksum de x) = dirent_head de ++ [x]).
  { unfold dirent_bytes. cbn [le_bytes de_checksum set_de_checksum].
    rewrite Z.mod_small by exact Hx. reflexivity. }
  rewrite Hb. split; [exact Hx|]. split.
  - rewrite app_nth2 by (rewrite length_dirent_head; lia).
    now rewrite length_dirent_head.
  - rewrite fold_left_app. cbn [fold_left]. fold x. apply Z.lxor_nilpotent.
Qed.

(** X7: two directory entries whose first 63 bytes differ in exactly one
    position get different checksums from dirent_checksum_finalize. *)
Theorem dirent_checksum_detects_one_byte
    (de1 de2 : dirent64_t) (a b : list Z) (x y : Z) :
  dirent_head de1 = a ++ x :: b ->
  dirent_head de2 = a ++ y :: b ->
  x <> y ->
  de_checksum (dirent_checksum_finalize de1)
  <> de_checksum (dirent_checksum_finalize de2).
Proof.
  intros H1 H2 Hne. rewrite !dirent_checksum, H1, H2.
  rewrite !fold_left_app. cbn [fold_left].
  rewrite (fold_lxor_acc b (Z.lxor _ x)), (fold_lxor_acc b (Z.lxor _ y)).
  intros Heq. apply Hne. apply Z.bits_inj'. intros n Hn.
  apply (f_equal (fun v => Z.testbit v n)) in Heq.
  rewrite !Z.lxor_spec in Heq.
  destruct (Z.testbit x n), (Z.testbit y n),
    (Z.testbit (fold_left Z.lxor a 0) n),
    (Z.testbit (fold_left Z.lxor b 0) n); try reflexivity; discriminate Heq.
Qed.

Lemma dirent_checksum_detects_one_byte_witness :
  de_checksum (dirent_checksum_finalize (mk_dirent 2 1 [97] 0))
  <> de_checksum (dirent_checksum_finalize (mk_dirent 2 1 [98] 0)).
Proof.
  exact (dirent_checksum_detects_one_byte
           (mk_dirent 2 1 [97] 0) (mk_dirent 2 1 [98] 0)
           [2; 0; 0; 0; 1] (repeat 0 57) 97 98
           ltac:(vm_compute; reflexivity) ltac:(vm_compute; reflexivity)
           ltac:(discriminate)).
Defined.

(** ** File names *)

Local Abbreviation base_step :=
  (fun (acc : list Z) (c : Z) => if c =? 47 then [] else acc ++ [c]).

Lemma basename_fold (path : list Z) :
  basename path = fold_left base_step path [].
Proof. reflexivity. Qed.

Lemma base_fold_plain (n acc : list Z) :
  ~ In 47 n -> fold_left base_step n acc = acc ++ n.
Proof.
  revert acc; induction n as [|c n IH]; intros acc Hn; cbn [fold_left].
  - now rewrite app_nil_r.
  - destruct (Z.eqb_spec c 47) as [->|Hc]; [exfalso; apply Hn; now left|].
    rewrite IH by (intros H; apply Hn; now right).
    now rewrite <- app_assoc.
Qed.

Lemma base_fold_clean (l acc : list Z) :
  ~ In 47 acc -> ~ In 47 (fold_left base_step l acc).
Proof.
  revert acc; induction l as [|c l IH]; intros acc Ha; cbn [fold_left];
    [exact Ha|].
  apply IH.
  destruct (Z.eqb_spec c 47) as [->|Hc]; [intros []|].
  intros H. apply in_app_or in H as [H|[H|[]]]; [now apply Ha | congruence].
Qed.

(** X8: the base name main computes with strrchr never contains a slash;
    a path without a slash is its own base name; the base name of
    dir/name is name; a path that ends in a slash has the empty base name. *)
Theorem basename_is_last_component :
  (forall path, ~ In 47 (basename path)) /\
  (forall name, ~ In 47 name -> basename name = name) /\
  (forall dir name, ~ In 47 name -> basename (dir ++ 47 :: name) = name) /\
  (forall dir, basename (dir ++ [47]) = []).
Proof.
  split; [intros path; rewrite basename_fold; apply base_fold_clean; intros []|].
  split; [intros name Hn; rewrite basename_fold; now apply base_fold_plain|].
  assert (H : forall dir name,
             ~ In 47 name -> basename (dir ++ 47 :: name) = name).
  { intros dir name Hn. rewrite basename_fold, fold_left_app.
    cbn [fold_left]. cbn [Z.eqb Pos.eqb].
    now apply base_fold_plain. }
  split; [exact H|]. intros dir. apply H. intros [].
Qed.

Lemma char_u8 (c : Z) : char_ok c -> u8 c = c /\ (c =? 0) = false.
Proof.
  intros [H0 H]. split; [unfold u8; apply Z.mod_small; lia|].
  apply Z.eqb_neq. lia.
Qed.

Lemma length_strncpy_bytes (src : list Z) (n : nat) :
  length (strncpy_bytes src n) = n.
Proof.
  revert src; induction n as [|n IH]; intros src;
    [destruct src; reflexivity|].
  destruct src as [|c s]; cbn [strncpy_bytes]; [apply repeat_length|].
  destruct (c =? 0); [apply repeat_length|]. cbn [length]. now rewrite IH.
Qed.

Lemma bytes_ok_strncpy_bytes (src : list Z) (n : nat) :
  bytes_ok (strncpy_bytes src n).
Proof.
  revert src; induction n as [|n IH]; intros src;
    [destruct src; constructor|].
  destruct src as [|c s]; cbn [strncpy_bytes]; [apply bytes_ok_repeat0|].
  destruct (c =? 0); [apply bytes_ok_repeat0|].
  constructor; [|apply IH]. unfold byte_ok, u8. apply Z.mod_pos_bound. lia.
Qed.

(** the stored name against a candidate, [n] characters and the NUL *)
Lemma stored_name_match (n : nat) (a b : list Z) :
  Forall char_ok a -> Forall char_ok b ->
  (strncmp (strncpy_bytes a n ++ [0]) b (S n) = 0 <-> b = firstn n a).
Proof.
  revert a b; induction n as [|n IH]; intros a b Ha Hb.
  - replace (strncpy_bytes a 0) with (@nil Z) by (destruct a; reflexivity).
    cbn [app strncmp hd firstn].
    change (u8 0) with 0.
    destruct b as [|e t]; cbn [hd].
    + change (u8 0) with 0. cbn. tauto.
    + inversion Hb as [|? ? He Ht]; subst.
      destruct (char_u8 e He) as [-> Hz].
      rewrite Z.eqb_sym, Hz. unfold char_ok in He.
      split; [intros H; lia | discriminate].
  - destruct a as [|c s].
    + cbn [strncpy_bytes repeat app strncmp hd firstn]. change (u8 0) with 0.
      destruct b as [|e t]; cbn [hd].
      * change (u8 0) with 0. cbn. tauto.
      * inversion Hb as [|? ? He Ht]; subst.
        destruct (char_u8 e He) as [-> Hz].
        rewrite Z.eqb_sym, Hz. unfold char_ok in He.
        split; [intros H; lia | discriminate].
    + inversion Ha as [|? ? Hc Hs]; subst.
      destruct (char_u8 c Hc) as [Ec Hz].
      cbn [strncpy_bytes]. rewrite Hz. rewrite Ec.
      cbn [app firstn]. cbn [strncmp hd tl]. rewrite Ec.
      destruct b as [|e t]; cbn [hd tl].
      * change (u8 0) with 0. rewrite Hz. unfold char_ok in Hc.
        split; [intros H; lia | discriminate].
      * inversion Hb as [|? ? He Ht]; subst.
        destruct (char_u8 e He) as [-> _].
        destruct (Z.eqb_spec c e) as [->|Hne].
        -- destruct (char_u8 e He) as [_ ->].
           rewrite (IH s t Hs Ht). split; [now intros -> | now intros [= ->]].
        -- split; [intros H; lia | intros [= H]; congruence].
Qed.

(** X9: the name field that strncpy(de.name, base, 57) fills in a zeroed
    entry has 58 bytes with a NUL at index 57; under the strncmp of the
    duplicate check (58 bytes) it equals a name b exactly when b is the
    first 57 characters of the source, so it equals its own source exactly
    when the source has at most 57 characters (a longer name is truncated
    and not found again). *)
Theorem stored_name_duplicate_check (a b : list Z) :
  Forall char_ok a -> Forall char_ok b ->
  let stored := strncpy (name zero_dirent) a 57 in
  length stored = 58%nat /\ nth 57 stored 0 = 0 /\ bytes_ok stored /\
  (strncmp stored b 58 = 0 <-> b = firstn 57 a) /\
  (strncmp stored a 58 = 0 <-> (length a <= 57)%nat).
Proof.
  intros Ha Hb stored.
  assert (Hst : stored = strncpy_bytes a 57 ++ [0]) by reflexivity.
  rewrite Hst. split; [now rewrite length_app, length_strncpy_bytes|].
  split; [rewrite app_nth2 by (rewrite length_strncpy_bytes; lia);
          now rewrite length_strncpy_bytes|].
  split; [apply bytes_ok_app; [apply bytes_ok_strncpy_bytes|];
          constructor; [unfold byte_ok; lia | constructor]|].
  split; [now apply stored_name_match|].
  rewrite (stored_name_match 57 a a Ha Ha). split.
  - intros H. apply (f_equal (@length Z)) in H.
    rewrite length_firstn in H. lia.
  - intros H. symmetry. now apply firstn_all2.
Qed.

Lemma stored_name_duplicate_check_witness :
  strncmp (strncpy (name zero_dirent) hello_name 57) hello_name 58 = 0 <->
  (length hello_name <= 57)%nat.
Proof.
  assert (H : Forall char_ok hello_name)
    by (repeat constructor; vm_compute; discriminate).
  exact (proj2 (proj2 (proj2 (proj2
    (stored_name_duplicate_check hello_name hello_name H H))))).
Defined.

(** ** Typed loads read what the encodings wrote *)

Lemma get_le_sub (n : nat) (m : list Z) (off k : Z) (N : nat) :
  0 <= off -> 0 <= k -> k + Z.of_nat n <= Z.of_nat N ->
  get_le n (read_bytes m off N) k = get_le n m (off + k).
Proof.
  intros. unfold get_le. now rewrite read_bytes_sub.
Qed.

Lemma mk_inode_ext a1 a2 a3 a4 a5 a6 a7 a8 a9 a10 a11 a12 a13 a14 a15 a16
  b1 b2 b3 b4 b5 b6 b7 b8 b9 b10 b11 b12 b13 b14 b15 b16 :
  a1 = b1 -> a2 = b2 -> a3 = b3 -> a4 = b4 -> a5 = b5 -> a6 = b6 -> a7 = b7 ->
  a8 = b8 -> a9 = b9 -> a10 = b10 -> a11 = b11 -> a12 = b12 -> a13 = b13 ->
  a14 = b14 -> a15 = b15 -> a16 = b16 ->
  mk_inode a1 a2 a3 a4 a5 a6 a7 a8 a9 a10 a11 a12 a13 a14 a15 a16 =
  mk_inode b1 b2 b3 b4 b5 b6 b7 b8 b9 b10 b11 b12 b13 b14 b15 b16.
Proof. intros; subst; reflexivity. Qed.

Lemma pow256_2 : 256 ^ Z.of_nat 2 = 2 ^ 16. Proof. reflexivity. Qed.
Lemma pow256_1 : 256 ^ Z.of_nat 1 = 2 ^ 8. Proof. reflexivity. Qed.

Ltac load_field' :=
  repeat (rewrite get_le_skip by (cbn; lia);
          cbn [Z.of_nat Pos.of_succ_nat Pos.succ Z.add Z.sub Z.opp Z.pos_sub
               Pos.add Pos.pred_double Z.succ_double Z.pred_double Z.double
               Z.mul Pos.mul]);
  apply get_le_here;
  [reflexivity
  | rewrite ?pow256_1, ?pow256_2, ?pow256_4, ?pow256_8; assumption].

(** loading an inode from its own bytes gives it back *)
Lemma load_inode_bytes (ino : inode_t) (rest : list Z) :
  inode_in_range ino -> load_inode (inode_bytes ino ++ rest) 0 = ino.
Proof.
  destruct ino as [f1 f2 f3 f4 f5 f6 f7 f8 d f10 f11 f12 f13 f14 f15 f16].
  unfold inode_in_range.
  cbn [mode links uid gid size_bytes atime mtime ctime direct reserved_0
       reserved_1 reserved_2 proj_id uid16_gid16 xattr_ptr inode_crc].
  intros ((?&?&?&?)&(?&?&?&?)&(Hl&Hd)&(?&?&?&?&?)&(?&?)).
  do 13 (destruct d as [|? d]; try discriminate Hl).
  repeat match goal with H : Forall _ (_ :: _) |- _ =>
    let H1 := fresh in let H2 := fresh in
    inversion H as [|? ? H1 H2]; clear H; subst end.
  unfold load_inode, inode_bytes, inode_head.
  cbn [mode links uid gid size_bytes atime mtime ctime direct reserved_0
       reserved_1 reserved_2 proj_id uid16_gid16 xattr_ptr inode_crc
       fit firstn app repeat flat_map seq map].
  rewrite <- !app_assoc. cbn [app].
  apply mk_inode_ext; try load_field'.
  repeat (apply (f_equal2 (@cons Z)); [load_field'|]). reflexivity.
Qed.

Lemma load_inode_read (m : list Z) (off : Z) :
  0 <= off -> load_inode m off = load_inode (read_bytes m off 128) 0.
Proof.
  intros Hoff. unfold load_inode.
  cbn [seq map]. 
  apply mk_inode_ext;
    try (rewrite get_le_sub by (cbn; lia); f_equal; lia).
  repeat (apply (f_equal2 (@cons Z));
          [rewrite get_le_sub by (cbn; lia); f_equal; lia|]).
  reflexivity.
Qed.

Lemma mk_dirent_ext a1 a2 a3 a4 b1 b2 b3 b4 :
  a1 = b1 -> a2 = b2 -> a3 = b3 -> a4 = b4 ->
  mk_dirent a1 a2 a3 a4 = mk_dirent b1 b2 b3 b4.
Proof. intros; subst; reflexivity. Qed.

Lemma map_u8_bytes (l : list Z) : bytes_ok l -> map u8 l = l.
Proof.
  induction 1 as [|x l Hx Hl IH]; [reflexivity|].
  cbn [map]. rewrite IH. f_equal. unfold u8. now apply Z.mod_small.
Qed.

(** loading a directory entry from its own bytes gives it back *)
Lemma load_dirent_bytes (de : dirent64_t) (rest : list Z) :
  dirent_in_range de -> load_dirent (dirent_bytes de ++ rest) 0 = de.
Proof.
  destruct de as [f1 f2 nm f4]. unfold dirent_in_range.
  cbn [inode_no type name de_checksum].
  intros (H1 & H2 & Hl & Hn & H4).
  unfold load_dirent, dirent_bytes, dirent_head.
  cbn [inode_no type name de_checksum].
  assert (Hfit : map u8 (fit 58 0 nm) = nm).
  { unfold fit. rewrite firstn_app, Hl, Nat.sub_diag, firstn_O, app_nil_r.
    rewrite <- Hl, firstn_all. now apply map_u8_bytes. }
  rewrite Hfit, <- !app_assoc.
  apply mk_dirent_ext.
  - load_field'.
  - load_field'.
  - rewrite (app_assoc (le_bytes 4 f1)).
    apply read_bytes_at; [|now rewrite Hl].
    now rewrite length_app, !length_le_bytes.
  - unfold get_le.
    rewrite (app_assoc (le_bytes 4 f1)), (app_assoc _ nm).
    rewrite read_bytes_skip
      by (rewrite !length_app, !length_le_bytes, Hl; cbn; lia).
    rewrite !length_app, !length_le_bytes, Hl.
    rewrite read_bytes_here by (cbn; reflexivity).
    rewrite le_value_le_bytes, pow256_1. now apply Z.mod_small.
Qed.

Lemma load_dirent_read (m : list Z) (off : Z) :
  0 <= off -> load_dirent m off = load_dirent (read_bytes m off 64) 0.
Proof.
  intros Hoff. unfold load_dirent.
  apply mk_dirent_ext;
    try (rewrite get_le_sub by (cbn; lia); f_equal; lia).
  rewrite read_bytes_sub by (cbn; lia). f_equal.
Qed.

(** ** The builder, for every parameter set *)


Section FreshImage.

Variables skib icount : Z.
Hypothesis Hv : valid_params skib icount.
Variables (path : list Z) (now : Z) (after : nat -> Z).

Local Abbreviation itb := ((icount * 128 + 4095) / 4096).
Local Abbreviation planned :=
  (Builder.mk_layout (skib * 1024 / 4096) 1 2 3 itb (3 + itb)
     (skib * 1024 / 4096 - (3 + itb))).
Local Abbreviation img :=
  (Builder.image_of
     (Builder.main (Some path) skib icount now after)).

Lemma root_inode_in_range :
  inode_in_range (Builder.root_inode_of planned now).
Proof.
  pose proof (itb_bounds _ _ Hv) as Hq.
  unfold Builder.root_inode_of. rewrite builder_inode_finalize_eq.
  match goal with |- context [set_inode_crc _ ?c] =>
    assert (Hc : in_u32 c) by apply crc32_u32; generalize dependent c end.
  intros c Hc. unfold in_u32 in Hc.
  pose proof (Z.mod_pos_bound now (2 ^ 64) ltac:(lia)).
  unfold inode_in_range, set_inode_crc, u64, u32.
  cbn [mode links uid gid size_bytes atime mtime ctime direct reserved_0
       reserved_1 reserved_2 proj_id uid16_gid16 xattr_ptr inode_crc
       Builder.l_data_region_start].
  rewrite (Z.mod_small (3 + itb + 0)) by lia.
  split_all; try lia; try reflexivity.
  repeat (apply Forall_cons; [lia|]). apply Forall_nil.
Qed.

Lemma fresh_root_inode :
  load_inode img (3 * 4096) = Builder.root_inode_of planned now.
Proof.
  destruct (builder_image_regions _ _ Hv path now after) as (_ & _ & R3 & _).
  rewrite load_inode_read by lia. rewrite R3.
  rewrite <- (app_nil_r (inode_bytes _)).
  apply load_inode_bytes, root_inode_in_range.
Qed.

Lemma dot_in_range :
  dirent_in_range Builder.dot /\ dirent_in_range Builder.dotdot.
Proof.
  unfold dirent_in_range.
  split; (split_all;
          try (vm_compute; first [reflexivity | discriminate]);
          apply Forall_forall; intros x Hx;
          assert (Hb : forallb (fun b => (0 <=? b) && (b <? 256))
                         (name Builder.dot ++ name Builder.dotdot) = true)
            by (vm_compute; reflexivity);
          rewrite forallb_forall in Hb;
          specialize (Hb x ltac:(apply in_or_app; auto));
          apply andb_true_iff in Hb as [Hb1 Hb2]; unfold byte_ok; lia).
Qed.

Lemma fresh_dirents :
  load_dirent img ((3 + itb) * 4096) = Builder.dot /\
  load_dirent img ((3 + itb) * 4096 + 64) = Builder.dotdot.
Proof.
  pose proof (itb_bounds _ _ Hv) as Hq.
  destruct (builder_image_regions _ _ Hv path now after) as (_ & _ & _ & R4).
  destruct dot_in_range as [Hd Hdd].
  assert (L : length (dirent_bytes Builder.dot) = 64%nat)
    by apply length_dirent_bytes.
  assert (L' : length (dirent_bytes Builder.dotdot) = 64%nat)
    by apply length_dirent_bytes.
  split.
  - rewrite load_dirent_read by lia.
    replace ((3 + itb) * 4096) with ((3 + itb) * 4096 + 0) at 1 by lia.
    rewrite <- (read_bytes_sub _ _ 0 128 64) by lia. rewrite R4.
    rewrite read_bytes_here by (now rewrite ?L).
    rewrite <- (app_nil_r (dirent_bytes _)). now apply load_dirent_bytes.
  - rewrite load_dirent_read by lia.
    rewrite <- (read_bytes_sub _ _ 64 128 64) by lia. rewrite R4.
    rewrite <- (app_nil_r (dirent_bytes Builder.dotdot)) at 1.
    rewrite read_bytes_at by (rewrite ?L, ?L'; reflexivity).
    rewrite <- (app_nil_r (dirent_bytes _)). now apply load_dirent_bytes.
Qed.

Lemma fresh_bitmap_cells : get8 img 4096 = 1 /\ get8 img 8192 = 1.
Proof.
  destruct (builder_image_regions _ _ Hv path now after) as (R1 & R2 & _ & _).
  split.
  - apply (f_equal (fun l => nth 0 l 0)) in R1.
    rewrite nth_read_bytes in R1 by lia. exact R1.
  - apply (f_equal (fun l => nth 0 l 0)) in R2.
    rewrite nth_read_bytes in R2 by lia. exact R2.
Qed.

Lemma fresh_free_inode : Adder.bitmap_ffz img 4096 icount = 1.
Proof.
  destruct Hv as (_ & _ & Hi). destruct fresh_bitmap_cells as [Hc _].
  unfold Adder.bitmap_ffz.
  destruct (Z.to_nat icount) as [|[|k]] eqn:Hk; try lia.
  cbn [Adder.ffz_loop].
  assert (H0 : bitmap_test img 4096 0 = 1).
  { rewrite bitmap_test_bit by lia.
    change (4096 + 0 / 8) with 4096. now rewrite Hc. }
  assert (H1 : bitmap_test img 4096 (0 + 1) = 0).
  { rewrite bitmap_test_bit by lia.
    change (4096 + (0 + 1) / 8) with 4096. now rewrite Hc. }
  rewrite H0, H1. reflexivity.
Qed.

Lemma fresh_reaches_size_check : reaches_size_check img = true.
Proof.
  pose proof Hv as (Hs & _ & Hi).
  pose proof (builder_image_length _ _ Hv path now after) as Hlen.
  unfold reaches_size_check.
  rewrite (builder_image_superblock _ _ Hv).
  unfold Builder.superblock_of. rewrite builder_superblock_finalize_eq.
  cbn [set_checksum block_size magic inode_bitmap_start inode_count
       Builder.l_inode_bitmap_start].
  assert (Hu : u64 icount = icount)
    by (unfold u64; apply Z.mod_small; lia).
  rewrite !Hu. change (u64 (1 * BS)) with 4096. rewrite fresh_free_inode.
  rewrite !Z.eqb_refl. change (u64 1) with 1.
  destruct (Z.leb_spec (Z.of_nat (length img)) 0); [lia|].
  destruct (Z.leb_spec icount 1); [lia|].
  reflexivity.
Qed.

Lemma fresh_root_block_rest :
  read_bytes img ((3 + itb) * 4096 + 128) 3968 = repeat 0 3968.
Proof.
  pose proof (itb_bounds _ _ Hv) as Hq. pose proof (tb_bounds _ _ Hv) as Ht.
  rewrite (builder_image_shape _ _ Hv). cbn [Builder.image_of].
  set (b0 := superblock_bytes _ ++ repeat 0 3980).
  set (bm := 1 :: repeat 0 4095).
  set (ino := inode_bytes _).
  set (z1 := repeat 0 (Z.to_nat (itb * 4096 - 128))).
  assert (Hb0 : length b0 = 4096%nat)
    by (subst b0; autorewrite with lengths; reflexivity).
  assert (Hbm : length bm = 4096%nat)
    by (subst bm; cbn [length]; now rewrite repeat_length).
  assert (Hino : length ino = 128%nat) by apply length_inode_bytes.
  assert (Hz1 : length z1 = Z.to_nat (itb * 4096 - 128))
    by apply repeat_length.
  replace (Z.to_nat ((skib * 1024 / 4096 - (3 + itb)) * 4096 - 128))
    with (3968 + (Z.to_nat ((skib * 1024 / 4096 - (3 + itb)) * 4096 - 128)
                  - 3968))%nat by lia.
  rewrite repeat_app.
  rewrite (app_assoc b0 bm), (app_assoc (b0 ++ bm) bm).
  rewrite (app_assoc ((b0 ++ bm) ++ bm) (ino ++ z1)).
  rewrite (app_assoc (dirent_bytes Builder.dot)).
  rewrite (app_assoc (((b0 ++ bm) ++ bm) ++ ino ++ z1)).
  apply read_bytes_at.
  - rewrite !length_app, Hb0, Hbm, Hino, Hz1, !length_dirent_bytes. lia.
  - now rewrite repeat_length.
Qed.

End FreshImage.

(** X11: in every image the builder writes, the root inode stored at
    block 3 carries in its 8-byte inode_crc field the CRC-32 of its first
    120 bytes, the two entries . and .. at the start of the root directory
    block each XOR to 0 over their 64 bytes, and the rest of that block is
    zero (free entries). *)
Theorem builder_image_inode_and_entries_verify
    (path : list Z) (size_kib inode_count now : Z) (after : nat -> Z) :
  valid_params size_kib inode_count ->
  let img := Builder.image_of
               (Builder.main (Some path) size_kib inode_count now after) in
  let itab := 3 * 4096 in
  let dblk := (3 + ceil_div (inode_count * 128) 4096) * 4096 in
  Builder.crc32 (read_bytes img itab 120) 120 = get_le 8 img (itab + 120) /\
  fold_left Z.lxor (read_bytes img dblk 64) 0 = 0 /\
  fold_left Z.lxor (read_bytes img (dblk + 64) 64) 0 = 0 /\
  read_bytes img (dblk + 128) 3968 = repeat 0 3968.
Proof.
  intros Hv img itab dblk. subst img itab dblk.
  rewrite <- (itb_ceil inode_count).
  pose proof (itb_bounds _ _ Hv) as Hq. pose proof (tb_bounds _ _ Hv) as Ht.
  destruct (builder_image_regions _ _ Hv path now after) as (_ & _ & R3 & R4).
  assert (L : length (dirent_bytes Builder.dot) = 64%nat)
    by apply length_dirent_bytes.
  assert (L' : length (dirent_bytes Builder.dotdot) = 64%nat)
    by apply length_dirent_bytes.
  split_all.
  - replace (3 * 4096) with (3 * 4096 + 0) at 1 by lia.
    rewrite <- (read_bytes_sub _ _ 0 128 120) by lia.
    unfold get_le. rewrite <- (read_bytes_sub _ _ 120 128 8) by lia.
    rewrite R3. unfold Builder.root_inode_of.
    rewrite builder_inode_finalize_eq.
    match goal with |- context [set_inode_crc ?r _] => set (root0 := r) end.
    match goal with |- context [set_inode_crc root0 ?c] =>
      assert (Hc : in_u32 c) by apply crc32_u32;
      assert (Hb : inode_bytes (set_inode_crc root0 c)
                   = inode_head root0 ++ le_bytes 8 c) by reflexivity
    end.
    rewrite Hb.
    rewrite read_bytes_here by (now rewrite ?length_inode_head).
    rewrite <- (app_nil_r (le_bytes 8 _)).
    rewrite read_bytes_at
      by (now rewrite ?length_inode_head, ?length_le_bytes).
    rewrite le_value_le_bytes, pow256_8.
    unfold in_u32 in Hc. rewrite Z.mod_small by lia. reflexivity.
  - replace ((3 + (inode_count * 128 + 4095) / 4096) * 4096)
      with ((3 + (inode_count * 128 + 4095) / 4096) * 4096 + 0) by lia.
    rewrite <- (read_bytes_sub _ _ 0 128 64) by lia. rewrite R4.
    rewrite read_bytes_here by (now rewrite ?L).
    vm_compute. reflexivity.
  - rewrite <- (read_bytes_sub _ _ 64 128 64) by lia. rewrite R4.
    rewrite <- (app_nil_r (dirent_bytes Builder.dotdot)).
    rewrite read_bytes_at by (rewrite ?L, ?L'; reflexivity).
    vm_compute. reflexivity.
  - apply (fresh_root_block_rest _ _ Hv).
Qed.

Lemma builder_image_inode_and_entries_verify_witness :
  valid_params 180 128 /\
  fold_left Z.lxor (read_bytes fresh_image (7 * 4096) 64) 0 = 0.
Proof.
  assert (Hv : valid_params 180 128)
    by (unfold valid_params; split_all; (reflexivity || lia)).
  split; [exact Hv|].
  exact (proj1 (proj2 (builder_image_inode_and_entries_verify
                         image_path 180 128 1700000000 (fun _ => 0) Hv))).
Defined.

Lemma bytes_okb_ok (m : list Z) : bytes_okb m = true -> bytes_ok m.
Proof.
  unfold bytes_okb, bytes_ok. rewrite forallb_forall, Forall_forall.
  intros H b Hb. specialize (H b Hb). unfold byte_ok. lia.
Qed.

(** ** The adder, for every image *)

Lemma s64_bounds (x : Z) : - 2 ^ 63 <= s64 x < 2 ^ 63.
Proof.
  unfold s64. pose proof (Z.mod_pos_bound x (2 ^ 64) ltac:(lia)).
  destruct (Z.ltb_spec (x mod 2 ^ 64) (2 ^ 63)); lia.
Qed.

Lemma s64_le (x : Z) : 0 <= x -> s64 x <= x.
Proof.
  intros Hx. unfold s64.
  pose proof (Z.mod_pos_bound x (2 ^ 64) ltac:(lia)).
  pose proof (Z.mod_le x (2 ^ 64) Hx ltac:(lia)).
  destruct (Z.ltb_spec (x mod 2 ^ 64) (2 ^ 63)); lia.
Qed.

Lemma ffz_loop_upper (m : list Z) (off : Z) (n : nat) (i : Z) :
  0 <= i ->
  Adder.ffz_loop m off i n < 2 ^ 63 /\
  (0 <= Adder.ffz_loop m off i n ->
   Adder.ffz_loop m off i n < i + Z.of_nat n).
Proof.
  revert i; induction n as [|n IH]; intros i Hi; cbn [Adder.ffz_loop].
  - split; lia.
  - destruct (bitmap_test m off i =? 0).
    + pose proof (s64_bounds i). pose proof (s64_le i Hi). split; lia.
    + destruct (IH (i + 1) ltac:(lia)) as [H1 H2]. split; [exact H1|].
      intros H. specialize (H2 H). lia.
Qed.

Lemma bitmap_ffz_upper (m : list Z) (off bits : Z) :
  Adder.bitmap_ffz m off bits < 2 ^ 63 /\
  (0 <= Adder.bitmap_ffz m off bits -> Adder.bitmap_ffz m off bits < bits).
Proof.
  unfold Adder.bitmap_ffz.
  destruct (ffz_loop_upper m off (Z.to_nat bits) 0 ltac:(lia)) as [H1 H2].
  split; [exact H1|]. intros H. specialize (H2 H). lia.
Qed.

(** X12: the check on line 191 of mkfs_adder.c is dead code: bitmap_ffz
    only returns indices below its bound, so main never fails with
    the message inode index OOB. *)
Theorem adder_inode_index_is_never_out_of_bounds
    (img filepath fbuf : list Z) (now : Z) :
  Adder.error_of (Adder.main img filepath fbuf now)
  <> Some Adder.InodeIndexOOB.
Proof.
  unfold Adder.main.
  destruct (_ <=? 0); [discriminate|].
  destruct (negb _ || negb _); [discriminate|].
  set (sb := load_superblock img 0).
  set (bm := u64 (inode_bitmap_start sb * BS)).
  destruct (bitmap_ffz_upper img bm (inode_count sb)) as [H1 H2].
  destruct (Z.ltb_spec (Adder.bitmap_ffz img bm (inode_count sb)) 0) as [Hneg|Hpos];
    [discriminate|].
  specialize (H2 Hpos).
  assert (Hu : u64 (Adder.bitmap_ffz img bm (inode_count sb))
               = Adder.bitmap_ffz img bm (inode_count sb))
    by (unfold u64; apply Z.mod_small; lia).
  rewrite Hu.
  destruct (Z.leb_spec (inode_count sb) (Adder.bitmap_ffz img bm (inode_count sb)));
    [lia|].
  destruct (DIRECT_MAX <? _); [discriminate|].
  destruct (Adder.alloc_blocks _ _ _ _ _) as [img1 [d|]]; [|discriminate].
  destruct (_ =? 0); [discriminate|].
  destruct (Adder.scan_root _ _ _ _ _ _ _) as [[slot used]|]; [|discriminate].
  destruct (slot <? 0); discriminate.
Qed.

Lemma length_alloc_blocks (n : nat) (i : Z) (img : list Z) (bm : Z)
    (d : list Z) :
  length (fst (Adder.alloc_blocks n i img bm d)) = length img.
Proof.
  revert i img d; induction n as [|n IH]; intros i img d;
    cbn [Adder.alloc_blocks]; [reflexivity|].
  destruct (_ <? 0); [reflexivity|].
  rewrite IH. apply length_bitmap_set.
Qed.

Lemma length_write_file_data (n : nat) (i : Z) (img d fbuf : list Z) (fsz : Z) :
  length (Adder.write_file_data n i img d fbuf fsz) = length img.
Proof.
  revert i img; induction n as [|n IH]; intros i img;
    cbn [Adder.write_file_data]; [reflexivity|].
  rewrite IH.
  repeat match goal with |- context [if ?c then _ else _] => destruct c end;
    rewrite ?length_write_bytes; reflexivity.
Qed.

Lemma length_commit img inode_bm itab dblk free_in new_ino n d slot used
    base fbuf fsz now :
  length (Adder.commit img inode_bm itab dblk free_in new_ino n d slot used
            base fbuf fsz now) = length img.
Proof.
  unfold Adder.commit.
  rewrite !length_write_bytes, length_write_file_data, length_bitmap_set.
  apply length_write_bytes.
Qed.

(** X13: whatever happens, the buffer the adder holds when main returns
    (and writes out on success) has the length of the input image. *)
Theorem adder_keeps_the_image_size (img filepath fbuf : list Z) (now : Z) :
  length (Adder.buffer_of (Adder.main img filepath fbuf now)) = length img.
Proof.
  unfold Adder.main.
  destruct (_ <=? 0); [reflexivity|].
  destruct (negb _ || negb _); [reflexivity|].
  destruct (_ <? 0); [reflexivity|].
  destruct (_ <=? u64 _); [reflexivity|].
  destruct (DIRECT_MAX <? _); [reflexivity|].
  match goal with |- context [Adder.alloc_blocks ?n ?i ?m ?b ?d] =>
    pose proof (length_alloc_blocks n i m b d) as Hl;
    destruct (Adder.alloc_blocks n i m b d) as [img1 [dd|]] end;
    cbn [fst] in Hl; [|exact Hl].
  destruct (_ =? 0); [exact Hl|].
  destruct (Adder.scan_root _ _ _ _ _ _ _) as [[slot used]|]; [|exact Hl].
  destruct (slot <? 0); [exact Hl|].
  cbn [Adder.buffer_of]. now rewrite length_commit.
Qed.

(** what a successful run went through *)
Lemma main_written (img filepath fbuf : list Z) (now : Z) (out : list Z) :
  Adder.main img filepath fbuf now = Adder.Written out ->
  let sb := load_superblock img 0 in
  let inode_bm := u64 (inode_bitmap_start sb * BS) in
  let data_bm := u64 (data_bitmap_start sb * BS) in
  let itab := u64 (inode_table_start sb * BS) in
  let fsz := Z.of_nat (length fbuf) in
  let free_in := Adder.bitmap_ffz img inode_bm (inode_count sb) in
  let n := Adder.blocks_needed fsz in
  exists img1 d slot used,
    block_size sb = BS /\ magic sb = MAGIC /\
    0 <= free_in < inode_count sb /\ n <= DIRECT_MAX /\
    Adder.alloc_blocks (Z.to_nat n) 0 img data_bm (repeat 0 12)
      = (img1, Some d) /\
    nth 0 (direct (load_inode img1 itab)) 0 <> 0 /\
    Adder.scan_root (Z.to_nat (BS / 64)) 0 img1
      (u64 (nth 0 (direct (load_inode img1 itab)) 0 * BS))
      (basename filepath) (-1) 0 = Some (slot, used) /\
    0 <= slot /\
    out = Adder.commit img1 inode_bm itab
            (u64 (nth 0 (direct (load_inode img1 itab)) 0 * BS))
            free_in (u32 (free_in + 1)) n d slot used
            (basename filepath) fbuf fsz now.
Proof.
  intros H sb inode_bm data_bm itab fsz free_in n.
  unfold Adder.main in H.
  fold sb inode_bm data_bm itab fsz free_in n in H.
  destruct (_ <=? 0); [discriminate H|].
  destruct (Z.eqb_spec (block_size sb) BS) as [Hb|Hb]; [|discriminate H].
  destruct (Z.eqb_spec (magic sb) MAGIC) as [Hm|Hm]; [|discriminate H].
  cbn [negb orb] in H.
  destruct (Z.ltb_spec free_in 0) as [Hf|Hf]; [discriminate H|].
  destruct (bitmap_ffz_upper img inode_bm (inode_count sb)) as [H1 H2].
  fold free_in in H1, H2. specialize (H2 Hf).
  destruct (_ <=? u64 _); [discriminate H|].
  destruct (Z.ltb_spec DIRECT_MAX n) as [Hn|Hn]; [discriminate H|].
  destruct (Adder.alloc_blocks _ _ _ _ _) as [img1 [d|]] eqn:Ha;
    [|discriminate H].
  destruct (Z.eqb_spec (nth 0 (direct (load_inode img1 itab)) 0) 0) as [Hr|Hr];
    [discriminate H|].
  destruct (Adder.scan_root _ _ _ _ _ _ _) as [[slot used]|] eqn:Hs;
    [|discriminate H].
  destruct (Z.ltb_spec slot 0) as [Hsl|Hsl]; [discriminate H|].
  exists img1, d, slot, used.
  split_all; try assumption; try lia; try reflexivity.
  now injection H as <-.
Qed.

Lemma bytes_ok_bitmap_set_any (m : list Z) (off idx : Z) :
  bytes_ok m -> bytes_ok (bitmap_set m off idx).
Proof.
  intros Hm. unfold bitmap_set, set8. apply bytes_ok_write; [exact Hm|].
  constructor; [|constructor].
  change 7 with (Z.ones 3). rewrite Z.land_ones by lia.
  change (2 ^ 3) with 8.
  pose proof (Z.mod_pos_bound idx 8 ltac:(lia)) as Hk.
  rewrite one_shifted by exact Hk.
  apply byte_ok_lor; [apply bytes_ok_nth, Hm | apply byte_ok_pow2, Hk].
Qed.

Lemma bytes_ok_alloc_blocks (n : nat) (i : Z) (img : list Z) (bm : Z)
    (d : list Z) :
  bytes_ok img -> bytes_ok (fst (Adder.alloc_blocks n i img bm d)).
Proof.
  revert i img d; induction n as [|n IH]; intros i img d Hm;
    cbn [Adder.alloc_blocks]; [exact Hm|].
  destruct (_ <? 0); [exact Hm|].
  apply IH. now apply bytes_ok_bitmap_set_any.
Qed.

Lemma bytes_ok_write_file_data (n : nat) (i : Z) (img d fbuf : list Z)
    (fsz : Z) :
  bytes_ok img -> bytes_ok fbuf ->
  bytes_ok (Adder.write_file_data n i img d fbuf fsz).
Proof.
  revert i img; induction n as [|n IH]; intros i img Hm Hf;
    cbn [Adder.write_file_data]; [exact Hm|].
  apply IH; [|exact Hf].
  repeat match goal with |- context [if ?c then _ else _] => destruct c end;
    repeat apply bytes_ok_write; try assumption;
    try apply bytes_ok_repeat0;
    apply bytes_ok_firstn, bytes_ok_skipn, Hf.
Qed.

Lemma bytes_ok_flat_le4 (l : list Z) : bytes_ok (flat_map (le_bytes 4) l).
Proof.
  induction l as [|x l IH]; [constructor|].
  cbn [flat_map]. apply bytes_ok_app; [apply bytes_ok_le_bytes | exact IH].
Qed.

Lemma bytes_ok_inode_bytes (ino : inode_t) : bytes_ok (inode_bytes ino).
Proof.
  unfold inode_bytes, inode_head.
  repeat apply bytes_ok_app; try apply bytes_ok_le_bytes.
  apply bytes_ok_flat_le4.
Qed.

Lemma bytes_ok_dirent_bytes (de : dirent64_t) : bytes_ok (dirent_bytes de).
Proof.
  unfold dirent_bytes.
  apply bytes_ok_app; [apply bytes_ok_dirent_head | apply bytes_ok_le_bytes].
Qed.

Lemma bytes_ok_superblock_bytes (sb : superblock_t) :
  bytes_ok (superblock_bytes sb).
Proof.
  unfold superblock_bytes, superblock_head.
  repeat apply bytes_ok_app; apply bytes_ok_le_bytes.
Qed.

Lemma bytes_ok_commit img inode_bm itab dblk free_in new_ino n d slot used
    base fbuf fsz now :
  bytes_ok img -> bytes_ok fbuf ->
  bytes_ok (Adder.commit img inode_bm itab dblk free_in new_ino n d slot used
              base fbuf fsz now).
Proof.
  intros Hm Hf. unfold Adder.commit.
  apply bytes_ok_write; [|apply bytes_ok_superblock_bytes].
  apply bytes_ok_write; [|apply bytes_ok_inode_bytes].
  apply bytes_ok_write; [|apply bytes_ok_dirent_bytes].
  apply bytes_ok_write_file_data; [|exact Hf].
  apply bytes_ok_bitmap_set_any.
  apply bytes_ok_write; [exact Hm | apply bytes_ok_inode_bytes].
Qed.

Lemma le_value_range (bs : list Z) :
  bytes_ok bs -> 0 <= le_value bs < 256 ^ Z.of_nat (length bs).
Proof.
  induction 1 as [|b bs Hb Hbs IH]; [cbn; lia|].
  cbn [le_value length]. rewrite Nat2Z.inj_succ, Z.pow_succ_r by lia.
  unfold byte_ok in Hb. nia.
Qed.

Lemma bytes_ok_read_bytes (m : list Z) (off : Z) (n : nat) :
  bytes_ok m -> bytes_ok (read_bytes m off n).
Proof.
  intros Hm. unfold read_bytes. apply bytes_ok_firstn, bytes_ok_app.
  - now apply bytes_ok_skipn.
  - apply bytes_ok_repeat0.
Qed.

Lemma get_le_range (n : nat) (m : list Z) (off : Z) :
  bytes_ok m -> 0 <= get_le n m off < 256 ^ Z.of_nat n.
Proof.
  intros Hm. unfold get_le.
  pose proof (le_value_range (read_bytes m off n)
                (bytes_ok_read_bytes m off n Hm)) as H.
  now rewrite length_read_bytes in H.
Qed.

Lemma load_superblock_in_range (m : list Z) (off : Z) :
  bytes_ok m -> superblock_in_range (load_superblock m off).
Proof.
  intros Hm. unfold superblock_in_range, load_superblock.
  cbn [magic version block_size total_blocks inode_count inode_bitmap_start
       inode_bitmap_blocks data_bitmap_start data_bitmap_blocks
       inode_table_start inode_table_blocks data_region_start
       data_region_blocks root_inode mtime_epoch flags checksum].
  split_all;
    first [ apply (proj1 (get_le_range 4 m _ Hm))
          | rewrite <- pow256_4; apply (proj2 (get_le_range 4 m _ Hm))
          | apply (proj1 (get_le_range 8 m _ Hm))
          | rewrite <- pow256_8; apply (proj2 (get_le_range 8 m _ Hm)) ].
Qed.

Lemma write_superblock_read_back (m : list Z) (sb : superblock_t) :
  (116 <= length m)%nat -> superblock_in_range sb ->
  load_superblock (write_bytes m 0 (superblock_bytes sb)) 0 = sb.
Proof.
  intros Hl Hsb.
  rewrite <- (firstn_skipn 116 m) at 1.
  rewrite write_head
    by (rewrite ?length_firstn, ?length_superblock_bytes; unfold SB_SIZE;
        first [reflexivity | lia]).
  now apply load_superblock_bytes.
Qed.

Lemma finalized_superblock_verifies (sb0 : superblock_t) :
  let sb := Adder.superblock_crc_finalize sb0 in
  checksum sb
    = Adder.crc32_finalize (superblock_head sb ++ repeat 0 4) SB_SIZE /\
  Adder.superblock_crc_finalize sb = sb.
Proof.
  intros sb. subst sb.
  rewrite !adder_superblock_finalize_eq, !superblock_head_set_checksum.
  rewrite (crc32_finalize_eq (superblock_head sb0 ++ repeat 0 4) SB_SIZE).
  generalize (Builder.crc32 (superblock_head sb0 ++ repeat 0 4) SB_SIZE).
  intros c. split; [reflexivity|]. destruct sb0; reflexivity.
Qed.

Lemma finalized_superblock_in_range (sb0 : superblock_t) (t : Z) :
  superblock_in_range sb0 -> 0 <= t < 2 ^ 64 ->
  superblock_in_range
    (Adder.superblock_crc_finalize (set_mtime_epoch sb0 t)).
Proof.
  intros Hr Ht. rewrite adder_superblock_finalize_eq.
  pose proof (crc32_u32 (superblock_head (set_mtime_epoch sb0 t) ++ repeat 0 4)
                SB_SIZE) as Hc.
  revert Hc.
  generalize (Builder.crc32
                (superblock_head (set_mtime_epoch sb0 t) ++ repeat 0 4)
                SB_SIZE).
  intros c Hc. unfold in_u32 in Hc. unfold superblock_in_range in *.
  cbn [magic version block_size total_blocks inode_count inode_bitmap_start
       inode_bitmap_blocks data_bitmap_start data_bitmap_blocks
       inode_table_start inode_table_blocks data_region_start
       data_region_blocks root_inode mtime_epoch flags checksum
       set_checksum set_mtime_epoch].
  tauto.
Qed.

Lemma finalized_superblock_mtime (sb0 : superblock_t) (t : Z) :
  mtime_epoch (Adder.superblock_crc_finalize (set_mtime_epoch sb0 t)) = t.
Proof. reflexivity. Qed.

Lemma superblock_store_verifies (m : list Z) (t : Z) :
  bytes_ok m -> (116 <= length m)%nat -> 0 <= t < 2 ^ 64 ->
  let sb :=
    load_superblock
      (write_bytes m 0
         (superblock_bytes
            (Adder.superblock_crc_finalize
               (set_mtime_epoch (load_superblock m 0) t)))) 0 in
  mtime_epoch sb = t /\
  checksum sb
    = Adder.crc32_finalize (superblock_head sb ++ repeat 0 4) SB_SIZE /\
  Adder.superblock_crc_finalize sb = sb.
Proof.
  intros Hm Hl Ht sb. subst sb.
  rewrite write_superblock_read_back
    by (try apply finalized_superblock_in_range;
        try apply load_superblock_in_range; assumption).
  split; [apply finalized_superblock_mtime|].
  apply finalized_superblock_verifies.
Qed.

Lemma main_success (img filepath fbuf : list Z) (now : Z) :
  Adder.error_of (Adder.main img filepath fbuf now) = None ->
  Adder.main img filepath fbuf now
  = Adder.Written (Adder.buffer_of (Adder.main img filepath fbuf now)).
Proof.
  destruct (Adder.main img filepath fbuf now) as [e c b|out];
    cbn [Adder.error_of Adder.buffer_of]; intros H;
    [discriminate H | reflexivity].
Qed.

(** X14: when the adder succeeds on an image of bytes that holds a whole
    superblock, the output consists of bytes, its superblock records
    (uint64_t) now as mtime_epoch, its checksum field is the CRC-32 of the
    116 struct bytes with the field zeroed, and running the adder's
    superblock_crc_finalize on it again changes nothing. *)
Theorem added_image_superblock_verifies
    (img filepath fbuf : list Z) (now : Z) :
  bytes_ok img -> bytes_ok fbuf -> (116 <= length img)%nat ->
  Adder.error_of (Adder.main img filepath fbuf now) = None ->
  let out := Adder.buffer_of (Adder.main img filepath fbuf now) in
  let sb := load_superblock out 0 in
  bytes_ok out /\
  mtime_epoch sb = u64 now /\
  checksum sb
    = Adder.crc32_finalize (superblock_head sb ++ repeat 0 4) SB_SIZE /\
  Adder.superblock_crc_finalize sb = sb.
Proof.
  intros Hm Hf Hl Hmain out sb. apply main_success in Hmain. fold out in Hmain.
  clearbody out.
  destruct (main_written _ _ _ _ _ Hmain)
    as (img1 & d & slot & used & _ & _ & _ & _ & Ha & _ & _ & _ & Hout).
  assert (Hm1 : bytes_ok img1).
  { pose proof (bytes_ok_alloc_blocks
                  (Z.to_nat (Adder.blocks_needed (Z.of_nat (length fbuf)))) 0
                  img (u64 (data_bitmap_start (load_superblock img 0) * BS))
                  (repeat 0 12) Hm) as H.
    now rewrite Ha in H. }
  assert (Hl1 : length img1 = length img).
  { pose proof (length_alloc_blocks
                  (Z.to_nat (Adder.blocks_needed (Z.of_nat (length fbuf)))) 0
                  img (u64 (data_bitmap_start (load_superblock img 0) * BS))
                  (repeat 0 12)) as H.
    now rewrite Ha in H. }
  assert (Hok : bytes_ok out) by (rewrite Hout; now apply bytes_ok_commit).
  split; [exact Hok|].
  subst sb. rewrite Hout. unfold Adder.commit.
  apply superblock_store_verifies.
  - apply bytes_ok_write; [|apply bytes_ok_inode_bytes].
    apply bytes_ok_write; [|apply bytes_ok_dirent_bytes].
    apply bytes_ok_write_file_data; [|exact Hf].
    apply bytes_ok_bitmap_set_any.
    apply bytes_ok_write; [exact Hm1 | apply bytes_ok_inode_bytes].
  - rewrite !length_write_bytes, length_write_file_data, length_bitmap_set,
      length_write_bytes, Hl1. exact Hl.
  - apply Z.mod_pos_bound. lia.
Qed.

Lemma added_image_superblock_verifies_witness :
  bytes_ok fresh_image /\
  Adder.error_of
    (Adder.main fresh_image hello_path (file_of_size 5000) 1700000001)
    = None /\
  mtime_epoch
    (load_superblock
       (Adder.buffer_of
          (Adder.main fresh_image hello_path (file_of_size 5000) 1700000001))
       0) = u64 1700000001.
Proof.
  assert (Hm : bytes_ok fresh_image)
    by (apply bytes_okb_ok; vm_compute; reflexivity).
  assert (Hf : bytes_ok (file_of_size 5000))
    by (apply bytes_okb_ok; vm_compute; reflexivity).
  assert (Hl : (116 <= length fresh_image)%nat)
    by (apply Nat.leb_le; vm_compute; reflexivity).
  assert (Hmain :
    Adder.error_of
      (Adder.main fresh_image hello_path (file_of_size 5000) 1700000001)
    = None)
    by (vm_compute; reflexivity).
  split; [exact Hm|]. split; [exact Hmain|].
  exact (proj1 (proj2
    (added_image_superblock_verifies fresh_image hello_path
       (file_of_size 5000) 1700000001 Hm Hf Hl Hmain))).
Defined.

(** ** The inode search of the Entry Inserter *)

Lemma bitmap_test_0_or_1 (m : list Z) (off idx : Z) :
  bitmap_test m off idx = 0 \/ bitmap_test m off idx = 1.
Proof.
  unfold bitmap_test.
  generalize (Z.shiftr (get8 m (off + Z.shiftr idx 3)) (Z.land idx 7)).
  intros x. change (Z.land x 1) with (Z.land x (Z.ones 1)).
  rewrite (Z.land_ones x 1) by lia. change (2 ^ 1) with 2.
  pose proof (Z.mod_pos_bound x 2 ltac:(lia)). lia.
Qed.

(** X15: on an image with the expected block size and magic and at most
    2^63 inodes, the adder fails for lack of a free inode exactly when
    every one of the inode_count bits of the inode bitmap is set; it then
    returns 1 with the buffer untouched. *)
Theorem no_free_inode_iff_inode_bitmap_full
    (img filepath fbuf : list Z) (now : Z) :
  let sb := load_superblock img 0 in
  let inode_bm := u64 (inode_bitmap_start sb * BS) in
  img <> [] -> block_size sb = BS -> magic sb = MAGIC ->
  inode_count sb <= 2 ^ 63 ->
  (Adder.error_of (Adder.main img filepath fbuf now) = Some Adder.NoFreeInode
   <-> forall j, 0 <= j < inode_count sb -> bitmap_test img inode_bm j = 1) /\
  (Adder.error_of (Adder.main img filepath fbuf now) = Some Adder.NoFreeInode
   -> Adder.main img filepath fbuf now = Adder.Failed Adder.NoFreeInode 1 img).
Proof.
  intros sb inode_bm Hne Hb Hm Hcnt.
  assert (Hffz :
    Adder.bitmap_ffz img inode_bm (inode_count sb) < 0 <->
    forall j, 0 <= j < inode_count sb -> bitmap_test img inode_bm j = 1).
  { destruct (Z.le_gt_cases 0 (inode_count sb)) as [H0|H0].
    - destruct (bitmap_ffz_first_fit img inode_bm (inode_count sb)
                  (conj H0 Hcnt)) as [[Hr Hall]|(Hr & Hfree & _)].
      + rewrite Hr. split; [|lia]. intros _ j Hj. specialize (Hall j Hj).
        destruct (bitmap_test_0_or_1 img inode_bm j); [contradiction|assumption].
      + split; [lia|]. intros Hall. rewrite (Hall _ Hr) in Hfree.
        discriminate Hfree.
    - unfold Adder.bitmap_ffz.
      replace (Z.to_nat (inode_count sb)) with O by lia.
      cbn [Adder.ffz_loop]. split; [intros _ j Hj; lia | lia]. }
  unfold Adder.main. fold sb inode_bm. rewrite Hb, Hm, !Z.eqb_refl.
  cbn [negb orb].
  destruct (Z.leb_spec (Z.of_nat (length img)) 0) as [Hl|Hl].
  { destruct img; [contradiction | cbn [length] in Hl; lia]. }
  destruct (Z.ltb_spec (Adder.bitmap_ffz img inode_bm (inode_count sb)) 0)
    as [Hf|Hf].
  { cbn [Adder.error_of]. split; [|reflexivity].
    split; [intros _; apply Hffz, Hf | reflexivity]. }
  assert (Hno : ~ (forall j, 0 <= j < inode_count sb ->
                   bitmap_test img inode_bm j = 1))
    by (intros H; apply Hffz in H; lia).
  assert (Hgoal : forall r,
            Adder.error_of r <> Some Adder.NoFreeInode ->
            (Adder.error_of r = Some Adder.NoFreeInode <->
             forall j, 0 <= j < inode_count sb ->
                       bitmap_test img inode_bm j = 1) /\
            (Adder.error_of r = Some Adder.NoFreeInode ->
             r = Adder.Failed Adder.NoFreeInode 1 img)).
  { intros r Hr. split; [split|]; intros H; contradiction. }
  apply Hgoal.
  destruct (_ <=? u64 _); [discriminate|].
  destruct (DIRECT_MAX <? _); [discriminate|].
  destruct (Adder.alloc_blocks _ _ _ _ _) as [img1 [d|]]; [|discriminate].
  destruct (_ =? 0); [discriminate|].
  destruct (Adder.scan_root _ _ _ _ _ _ _) as [[slot used]|]; [|discriminate].
  destruct (slot <? 0); discriminate.
Qed.

(** ** The directory scan *)

Lemma used_entries_nil (img : list Z) (dblk : Z) (a : nat) :
  used_entries img dblk a 0 = 0.
Proof. reflexivity. Qed.

Lemma used_entries_S (img : list Z) (dblk : Z) (a n : nat) :
  used_entries img dblk a (S n)
  = (if entry_used img dblk a then 1 else 0) + used_entries img dblk (S a) n.
Proof.
  unfold used_entries. cbn [seq filter].
  destruct (entry_used img dblk a); cbn [length]; lia.
Qed.

Lemma used_entries_bound (img : list Z) (dblk : Z) (a n : nat) :
  0 <= used_entries img dblk a n <= Z.of_nat n.
Proof.
  unfold used_entries.
  pose proof (filter_length_le (entry_used img dblk) (seq a n)) as H.
  rewrite length_seq in H. lia.
Qed.

Lemma scan_root_gen (img : list Z) (dblk : Z) (base : list Z) (n : nat) :
  forall (a : nat) (slot used : Z),
  (a + n <= 64)%nat -> 0 <= used <= Z.of_nat a -> slot = -1 \/ 0 <= slot ->
  match Adder.scan_root n (Z.of_nat a) img dblk base slot used with
  | None =>
      exists i, (a <= i < a + n)%nat /\ entry_named img dblk base i = true
  | Some (slot', used') =>
      (forall i, (a <= i < a + n)%nat -> entry_named img dblk base i = false) /\
      used' = used + used_entries img dblk a n /\
      (0 <= slot -> slot' = slot) /\
      (slot = -1 ->
       (slot' = -1 /\
        forall i, (a <= i < a + n)%nat -> entry_used img dblk i = true) \/
       (exists s, slot' = Z.of_nat s /\ (a <= s < a + n)%nat /\
                  entry_used img dblk s = false /\
                  forall i, (a <= i < s)%nat -> entry_used img dblk i = true))
  end.
Proof.
  induction n as [|n IH]; intros a slot used Ha Hu Hs.
  - cbn [Adder.scan_root]. split_all.
    + intros i Hi; lia.
    + rewrite used_entries_nil; lia.
    + intros _; reflexivity.
    + intros H; left; split; [exact H | intros i Hi; lia].
  - cbn [Adder.scan_root]. rewrite used_entries_S.
    replace (Z.of_nat a + 1) with (Z.of_nat (S a)) by lia.
    fold (dir_entry img dblk a).
    assert (Hnamed : entry_named img dblk base a
                     = entry_used img dblk a
                       && (strncmp (name (dir_entry img dblk a)) base 58 =? 0))
      by reflexivity.
    assert (Hused : entry_used img dblk a
                    = negb (inode_no (dir_entry img dblk a) =? 0))
      by reflexivity.
    destruct (negb (inode_no (dir_entry img dblk a) =? 0)).
    + (* entry in use *)
      assert (Hu64 : u64 (used + 1) = used + 1)
        by (unfold u64; apply Z.mod_small; lia).
      rewrite Hu64.
      destruct (strncmp (name (dir_entry img dblk a)) base 58 =? 0).
      * exists a. split; [lia|]. now rewrite Hnamed, Hused.
      * specialize (IH (S a) slot (used + 1) ltac:(lia) ltac:(lia) Hs).
        destruct (Adder.scan_root n (Z.of_nat (S a)) img dblk base slot
                    (used + 1)) as [[slot' used']|].
        -- destruct IH as (I1 & I2 & I3 & I4). rewrite Hused. split_all.
           ++ intros i Hi. destruct (Nat.eq_dec i a) as [->|Hia].
              ** now rewrite Hnamed, Hused.
              ** apply I1; lia.
           ++ lia.
           ++ exact I3.
           ++ intros H. destruct (I4 H) as [[J1 J2]|(s & J1 & J2 & J3 & J4)].
              ** left. split; [exact J1|]. intros i Hi.
                 destruct (Nat.eq_dec i a) as [->|Hia]; [exact Hused|].
                 apply J2; lia.
              ** right. exists s. split_all; try assumption; try lia.
                 intros i Hi.
                 destruct (Nat.eq_dec i a) as [->|Hia]; [exact Hused|].
                 apply J4; lia.
        -- destruct IH as (i & Hi & Hn). exists i. split; [lia | exact Hn].
    + (* free entry *)
      rewrite Hused. rewrite Z.add_0_l.
      assert (Hs64 : s64 (Z.of_nat a) = Z.of_nat a)
        by (apply s64_small; lia).
      destruct (Z.ltb_spec slot 0) as [Hneg|Hpos].
      * assert (Hslot : slot = -1) by lia. rewrite Hs64.
        specialize (IH (S a) (Z.of_nat a) used ltac:(lia) ltac:(lia)
                      ltac:(right; lia)).
        destruct (Adder.scan_root n (Z.of_nat (S a)) img dblk base
                    (Z.of_nat a) used) as [[slot' used']|].
        -- destruct IH as (I1 & I2 & I3 & _). split_all.
           ++ intros i Hi. destruct (Nat.eq_dec i a) as [->|Hia].
              ** now rewrite Hnamed, Hused.
              ** apply I1; lia.
           ++ exact I2.
           ++ intros H; lia.
           ++ intros _. right. exists a. split_all.
              ** apply I3; lia.
              ** lia.
              ** lia.
              ** exact Hused.
              ** intros i Hi; lia.
        -- destruct IH as (i & Hi & Hn). exists i. split; [lia | exact Hn].
      * specialize (IH (S a) slot used ltac:(lia) ltac:(lia)
                      ltac:(right; lia)).
        destruct (Adder.scan_root n (Z.of_nat (S a)) img dblk base slot used)
          as [[slot' used']|].
        -- destruct IH as (I1 & I2 & I3 & _). split_all.
           ++ intros i Hi. destruct (Nat.eq_dec i a) as [->|Hia].
              ** now rewrite Hnamed, Hused.
              ** apply I1; lia.
           ++ exact I2.
           ++ exact I3.
           ++ intros H; lia.
        -- destruct IH as (i & Hi & Hn). exists i. split; [lia | exact Hn].
Qed.

(** X16: the scan of the 64 entries of the root directory block stops
    with the duplicate-name exit exactly when some entry in use has a name
    that compares equal to the base name over 58 bytes; otherwise it ends
    with used_entries the number of entries in use and with slot the
    index of the first free entry, or -1 when all 64 are in use. *)
Theorem scan_root_outcome (img : list Z) (dblk : Z) (base : list Z) :
  match Adder.scan_root 64 0 img dblk base (-1) 0 with
  | None => exists i, (i < 64)%nat /\ entry_named img dblk base i = true
  | Some (slot, used) =>
      (forall i, (i < 64)%nat -> entry_named img dblk base i = false) /\
      used = used_entries img dblk 0 64 /\
      ((slot = -1 /\
        forall i, (i < 64)%nat -> entry_used img dblk i = true) \/
       (exists s, slot = Z.of_nat s /\ (s < 64)%nat /\
                  entry_used img dblk s = false /\
                  forall i, (i < s)%nat -> entry_used img dblk i = true))
  end.
Proof.
  pose proof (scan_root_gen img dblk base 64 0 (-1) 0 ltac:(lia) ltac:(lia)
                ltac:(left; reflexivity)) as H.
  change (Z.of_nat 0) with 0 in H.
  destruct (Adder.scan_root 64 0 img dblk base (-1) 0) as [[slot used]|].
  - destruct H as (I1 & I2 & _ & I4). split_all.
    + intros i Hi. apply I1; lia.
    + lia.
    + destruct (I4 eq_refl) as [[J1 J2]|(s & J1 & J2 & J3 & J4)].
      * left. split; [exact J1|]. intros i Hi. apply J2; lia.
      * right. exists s. split_all; try assumption; try lia.
        intros i Hi. apply J4; lia.
  - destruct H as (i & Hi & Hn). exists i. split; [lia | exact Hn].
Qed.

(** ** The allocation loop *)

Lemma write_bytes_nil (m : list Z) (off : Z) : write_bytes m off [] = m.
Proof.
  unfold write_bytes. cbn [length app]. rewrite Nat.add_0_r, firstn_skipn.
  apply firstn_all.
Qed.

Lemma write_bytes_cons (m : list Z) (off : Z) (x : Z) (l : list Z) :
  0 <= off ->
  write_bytes (write_bytes m off [x]) (off + 1) l = write_bytes m off (x :: l).
Proof.
  intros Hoff. apply nth_ext with (d := 0) (d' := 0).
  - now rewrite !length_write_bytes.
  - intros j _. rewrite !nth_write_bytes, !length_write_bytes.
    cbn [length].
    destruct (Nat.ltb_spec j (length m)) as [Hj|Hj]; [|reflexivity].
    replace (Z.to_nat (off + 1)) with (S (Z.to_nat off)) by lia.
    destruct (Nat.leb_spec (S (Z.to_nat off)) j) as [H1|H1];
      destruct (Nat.ltb_spec j (S (Z.to_nat off) + length l)) as [H2|H2];
      destruct (Nat.leb_spec (Z.to_nat off) j) as [H3|H3];
      destruct (Nat.ltb_spec j (Z.to_nat off + 1)) as [H4|H4];
      destruct (Nat.ltb_spec j (Z.to_nat off + S (length l))) as [H5|H5];
      cbn [andb]; try lia; try reflexivity.
    + replace (j - Z.to_nat off)%nat with (S (j - S (Z.to_nat off))) by lia.
      reflexivity.
    + replace (j - Z.to_nat off)%nat with O by lia. reflexivity.
Qed.

Lemma load_superblock_write_other (m : list Z) (off : Z) (d : list Z) :
  116 <= off ->
  load_superblock (write_bytes m off d) 0 = load_superblock m 0.
Proof.
  intros Hoff. unfold load_superblock, get_le.
  rewrite !read_bytes_write_other by (cbn; lia). reflexivity.
Qed.

Lemma load_superblock_bitmap_set (m : list Z) (off j : Z) :
  116 <= off -> 0 <= j ->
  load_superblock (bitmap_set m off j) 0 = load_superblock m 0.
Proof.
  intros Hoff Hj. unfold bitmap_set, set8.
  apply load_superblock_write_other.
  pose proof (proj2 (Z.shiftr_nonneg j 3) Hj). lia.
Qed.

Lemma ffz_loop_free_bits (m : list Z) (off : Z) (n : nat) :
  forall a : nat,
  Z.of_nat a + Z.of_nat n <= 2 ^ 63 ->
  Adder.ffz_loop m off (Z.of_nat a) n = hd (-1) (free_bits_from m off a n).
Proof.
  induction n as [|n IH]; intros a Ha; [reflexivity|].
  unfold free_bits_from. cbn [Adder.ffz_loop seq map filter].
  destruct (bitmap_test m off (Z.of_nat a) =? 0).
  - cbn [hd]. apply s64_small. lia.
  - replace (Z.of_nat a + 1) with (Z.of_nat (S a)) by lia.
    apply IH. lia.
Qed.

Lemma bitmap_ffz_free_bits (m : list Z) (off bits : Z) :
  0 <= bits <= 2 ^ 63 ->
  Adder.bitmap_ffz m off bits = hd (-1) (free_bits m off (Z.to_nat bits)).
Proof.
  intros Hb. unfold Adder.bitmap_ffz, free_bits.
  apply (ffz_loop_free_bits m off (Z.to_nat bits) 0). lia.
Qed.

Lemma free_bits_from_range (m : list Z) (off : Z) (a n : nat) (j : Z) :
  In j (free_bits_from m off a n) ->
  Z.of_nat a <= j < Z.of_nat a + Z.of_nat n /\ bitmap_test m off j = 0.
Proof.
  unfold free_bits_from. rewrite filter_In, in_map_iff.
  intros [(i & <- & Hi) Hf]. apply in_seq in Hi.
  split; [lia | now apply Z.eqb_eq].
Qed.

(** setting the lowest clear bit removes it from the list of clear bits *)
Lemma free_bits_from_set (m : list Z) (off : Z) (n : nat) :
  forall (a : nat) (j : Z) (rest : list Z),
  0 <= off -> off + j / 8 < Z.of_nat (length m) ->
  free_bits_from m off a n = j :: rest ->
  free_bits_from (bitmap_set m off j) off a n = rest.
Proof.
  induction n as [|n IH]; intros a j rest Hoff Hin Hfb; [discriminate Hfb|].
  assert (Hj : Z.of_nat a <= j)
    by (apply (free_bits_from_range m off a (S n) j); rewrite Hfb; now left).
  unfold free_bits_from in *. cbn [seq map filter] in *.
  destruct (Z.eqb_spec (bitmap_test m off (Z.of_nat a)) 0) as [Hfree|Hused].
  - injection Hfb as Hja Hrest. subst j.
    rewrite bitmap_set_test_same by lia. cbn [Z.eqb].
    rewrite <- Hrest. apply filter_ext_in. intros x Hx.
    apply in_map_iff in Hx. destruct Hx as (i & <- & Hi). apply in_seq in Hi.
    rewrite bitmap_set_test_other by lia. reflexivity.
  - assert (Hne : Z.of_nat a <> j).
    { intros E. apply Hused. rewrite E.
      apply (free_bits_from_range m off (S a) n j).
      unfold free_bits_from. rewrite Hfb. now left. }
    rewrite bitmap_set_test_other by lia.
    destruct (Z.eqb_spec (bitmap_test m off (Z.of_nat a)) 0);
      [contradiction|].
    apply (IH (S a) j rest Hoff Hin Hfb).
Qed.

Section Allocation.

Variables (data_bm bits drs : Z) (len : nat).
Hypothesis Hbm : 116 <= data_bm.
Hypothesis Hbits : 0 <= bits <= 2 ^ 63.
Hypothesis Hin : data_bm + bits / 8 < Z.of_nat len.

Local Abbreviation ptr := (fun j => u32 (u64 (drs + j))).

Lemma alloc_blocks_gen (n : nat) :
  forall (img : list Z) (i : nat) (d : list Z),
  data_region_blocks (load_superblock img 0) = bits ->
  data_region_start (load_superblock img 0) = drs ->
  length img = len ->
  Adder.alloc_blocks n (Z.of_nat i) img data_bm d
  = (set_bits img data_bm (firstn n (free_bits img data_bm (Z.to_nat bits))),
     if (n <=? length (free_bits img data_bm (Z.to_nat bits)))%nat
     then Some (write_bytes d (Z.of_nat i)
                  (map ptr (firstn n (free_bits img data_bm (Z.to_nat bits)))))
     else None).
Proof.
  induction n as [|n IH]; intros img i d Hb Hs Hl.
  - cbn [Adder.alloc_blocks firstn map set_bits fold_left Nat.leb].
    now rewrite write_bytes_nil.
  - cbn [Adder.alloc_blocks]. rewrite Hb, bitmap_ffz_free_bits by exact Hbits.
    destruct (free_bits img data_bm (Z.to_nat bits)) as [|j rest] eqn:Hfb.
    + reflexivity.
    + cbn [hd firstn map length Nat.leb].
      assert (Hj : 0 <= j < bits).
      { pose proof (free_bits_from_range img data_bm 0 (Z.to_nat bits) j) as H.
        unfold free_bits in Hfb. rewrite Hfb in H.
        specialize (H (or_introl eq_refl)). lia. }
      destruct (Z.ltb_spec j 0) as [Hneg|_]; [lia|].
      assert (Hu : u64 j = j) by (unfold u64; apply Z.mod_small; lia).
      rewrite Hu.
      assert (Hjin : data_bm + j / 8 < Z.of_nat (length img)).
      { rewrite Hl. pose proof (Z.div_le_mono j bits 8 ltac:(lia) ltac:(lia)).
        lia. }
      rewrite load_superblock_bitmap_set by lia. rewrite Hs.
      replace (Z.of_nat i + 1) with (Z.of_nat (S i)) by lia.
      rewrite (IH (bitmap_set img data_bm j) (S i)
                 (write_bytes d (Z.of_nat i) [ptr j])).
      * unfold free_bits in *.
        rewrite (free_bits_from_set img data_bm (Z.to_nat bits) 0 j rest
                   ltac:(lia) Hjin Hfb).
        replace (Z.of_nat (S i)) with (Z.of_nat i + 1) by lia.
        rewrite write_bytes_cons by lia. reflexivity.
      * rewrite load_superblock_bitmap_set by lia. exact Hb.
      * rewrite load_superblock_bitmap_set by lia. exact Hs.
      * rewrite length_bitmap_set. exact Hl.
Qed.

End Allocation.

(** X17: when the data bitmap lies behind the superblock and inside the
    image, the allocation loop for n blocks sets the n lowest clear bits of
    the bitmap in ascending order and stores data_region_start + bit in
    direct[0..n-1]; when fewer than n bits are clear it exits with
    no free data blocks, with all the clear bits set in the buffer. *)
Theorem alloc_blocks_takes_lowest_free_bits
    (n : nat) (img : list Z) (data_bm : Z) (d : list Z) :
  let sb := load_superblock img 0 in
  let bits := data_region_blocks sb in
  116 <= data_bm -> 0 <= bits <= 2 ^ 63 ->
  data_bm + bits / 8 < Z.of_nat (length img) ->
  let free := free_bits img data_bm (Z.to_nat bits) in
  Adder.alloc_blocks n 0 img data_bm d
  = (set_bits img data_bm (firstn n free),
     if (n <=? length free)%nat
     then Some (write_bytes d 0
                  (map (fun j => u32 (u64 (data_region_start sb + j)))
                     (firstn n free)))
     else None).
Proof.
  intros sb bits Hbm Hbits Hin free.
  exact (alloc_blocks_gen data_bm bits (data_region_start sb) (length img)
           Hbm Hbits Hin n img 0 d eq_refl eq_refl eq_refl).
Qed.

(** ** The copy loop *)

Lemma write_bytes_app (m : list Z) (off : Z) (a b : list Z) :
  0 <= off ->
  write_bytes (write_bytes m off a) (off + Z.of_nat (length a)) b
  = write_bytes m off (a ++ b).
Proof.
  intros Hoff. apply nth_ext with (d := 0) (d' := 0).
  - now rewrite !length_write_bytes.
  - intros j _. rewrite !nth_write_bytes, !length_write_bytes, length_app.
    destruct (Nat.ltb_spec j (length m)) as [Hj|Hj]; [|reflexivity].
    replace (Z.to_nat (off + Z.of_nat (length a)))
      with (Z.to_nat off + length a)%nat by lia.
    destruct (Nat.leb_spec (Z.to_nat off + length a) j) as [H1|H1];
      destruct (Nat.ltb_spec j (Z.to_nat off + length a + length b)) as [H2|H2];
      destruct (Nat.leb_spec (Z.to_nat off) j) as [H3|H3];
      destruct (Nat.ltb_spec j (Z.to_nat off + length a)) as [H4|H4];
      destruct (Nat.ltb_spec j (Z.to_nat off + (length a + length b)))
        as [H5|H5];
      cbn [andb]; try lia; try reflexivity.
    + rewrite app_nth2 by lia. f_equal. lia.
    + rewrite app_nth1 by lia. reflexivity.
Qed.

Lemma firstn_repeat_le (x : Z) (k n : nat) :
  (k <= n)%nat -> firstn k (repeat x n) = repeat x k.
Proof.
  revert n; induction k as [|k IH]; intros n Hk; [reflexivity|].
  destruct n as [|n]; [lia|]. cbn [repeat firstn]. f_equal. apply IH. lia.
Qed.

(** one block of the file, as [read_bytes] sees it: the bytes of the file
    from [off], then zeros *)
Lemma file_chunk (fbuf : list Z) (off : Z) (c : nat) :
  c = Nat.min 4096 (length fbuf - Z.to_nat off) ->
  read_bytes fbuf off 4096
  = firstn c (skipn (Z.to_nat off) fbuf) ++ repeat 0 (4096 - c).
Proof.
  intros Hc. unfold read_bytes.
  pose proof (length_skipn (Z.to_nat off) fbuf) as Hl.
  revert Hl Hc. generalize (skipn (Z.to_nat off) fbuf). intros S Hl Hc.
  rewrite firstn_app, firstn_repeat_le by lia.
  destruct (Nat.le_ge_cases 4096 (length S)) as [H|H].
  - replace c with 4096%nat by lia.
    replace (4096 - length S)%nat with O by lia. reflexivity.
  - replace c with (length S) by lia.
    rewrite firstn_all, firstn_all2 by lia. reflexivity.
Qed.

Lemma copy_step (img fbuf : list Z) (blk off : Z) :
  0 <= blk -> 0 <= off ->
  let fsz := Z.of_nat (length fbuf) in
  let remain := if off <? fsz then fsz - off else 0 in
  let tocopy := if BS <? remain then BS else remain in
  let img1 :=
    if tocopy =? 0 then img
    else write_bytes img blk
           (firstn (Z.to_nat tocopy) (skipn (Z.to_nat off) fbuf)) in
  (if tocopy <? BS
   then write_bytes img1 (blk + tocopy) (repeat 0 (Z.to_nat (BS - tocopy)))
   else img1)
  = write_bytes img blk (read_bytes fbuf off 4096).
Proof.
  intros Hblk Hoff fsz remain tocopy img1.
  assert (Hc : Z.to_nat tocopy = Nat.min 4096 (length fbuf - Z.to_nat off)).
  { subst tocopy remain fsz. unfold BS.
    destruct (Z.ltb_spec off (Z.of_nat (length fbuf)));
      destruct (Z.ltb_spec 4096 (Z.of_nat (length fbuf) - off));
      destruct (Z.ltb_spec 4096 0); lia. }
  assert (Ht : 0 <= tocopy <= 4096).
  { subst tocopy remain fsz. unfold BS.
    destruct (Z.ltb_spec off (Z.of_nat (length fbuf)));
      destruct (Z.ltb_spec 4096 (Z.of_nat (length fbuf) - off));
      destruct (Z.ltb_spec 4096 0); lia. }
  rewrite (file_chunk fbuf off (Z.to_nat tocopy) Hc).
  assert (Hlen : Z.of_nat (length (firstn (Z.to_nat tocopy)
                                     (skipn (Z.to_nat off) fbuf))) = tocopy).
  { rewrite length_firstn, length_skipn. lia. }
  assert (Himg1 : img1 = write_bytes img blk
                           (firstn (Z.to_nat tocopy)
                              (skipn (Z.to_nat off) fbuf))).
  { subst img1. destruct (Z.eqb_spec tocopy 0) as [E|E]; [|reflexivity].
    rewrite E. cbn [Z.to_nat firstn]. now rewrite write_bytes_nil. }
  rewrite Himg1. clear Himg1 img1.
  destruct (Z.ltb_spec tocopy BS) as [Hlt|Hge].
  - rewrite <- Hlen at 2. rewrite write_bytes_app by exact Hblk.
    unfold BS. do 3 f_equal. lia.
  - unfold BS in Hge. replace (4096 - Z.to_nat tocopy)%nat with O by lia.
    cbn [repeat]. now rewrite app_nil_r.
Qed.

Lemma read_bytes_write_same_len (m : list Z) (off : Z) (d : list Z) (n : nat) :
  length d = n -> 0 <= off -> off + Z.of_nat n <= Z.of_nat (length m) ->
  read_bytes (write_bytes m off d) off n = d.
Proof. intros <- H1 H2. now apply read_bytes_write_same. Qed.

Section CopyLoop.

Variables (d fbuf : list Z).

Local Abbreviation blk := (fun t : nat => nth t d 0 * 4096).
Local Abbreviation chunk :=
  (fun t : nat => read_bytes fbuf (Z.of_nat t * 4096) 4096).

Lemma write_file_data_S (n i : nat) (img : list Z) :
  (i < 12)%nat -> 0 <= nth i d 0 -> blk i < 2 ^ 64 ->
  Adder.write_file_data (S n) (Z.of_nat i) img d fbuf (Z.of_nat (length fbuf))
  = Adder.write_file_data n (Z.of_nat (S i))
      (write_bytes img (blk i) (chunk i)) d fbuf (Z.of_nat (length fbuf)).
Proof.
  intros Hi Hd Hb. cbn [Adder.write_file_data]. rewrite Nat2Z.id.
  replace (Z.of_nat i + 1) with (Z.of_nat (S i)) by lia.
  f_equal.
  pose proof (copy_step img fbuf (u64 (nth i d 0 * BS)) (u64 (Z.of_nat i * BS))
                ltac:(apply Z.mod_pos_bound; lia)
                ltac:(apply Z.mod_pos_bound; lia)) as Hstep.
  cbv zeta in Hstep. rewrite Hstep. unfold u64, BS.
  rewrite !Z.mod_small by lia. reflexivity.
Qed.

Lemma write_file_data_gen (n : nat) :
  forall (img : list Z) (i : nat),
  (i + n <= 12)%nat -> Z.of_nat (length img) <= 2 ^ 64 ->
  (forall t, (i <= t < i + n)%nat ->
             0 <= nth t d 0 /\ blk t + 4096 <= Z.of_nat (length img)) ->
  (forall s t, (i <= s < t)%nat -> (t < i + n)%nat ->
               nth s d 0 <> nth t d 0) ->
  let out := Adder.write_file_data n (Z.of_nat i) img d fbuf
               (Z.of_nat (length fbuf)) in
  (forall t, (i <= t < i + n)%nat -> read_bytes out (blk t) 4096 = chunk t) /\
  (forall p k, 0 <= p ->
     (forall t, (i <= t < i + n)%nat ->
                p + Z.of_nat k <= blk t \/ blk t + 4096 <= p) ->
     read_bytes out p k = read_bytes img p k).
Proof.
  induction n as [|n IH]; intros img i Hn Hlen Hrange Hdist out.
  - subst out. cbn [Adder.write_file_data]. split; [intros t Ht; lia|].
    reflexivity.
  - destruct (Hrange i ltac:(lia)) as [Hd0 Hd1].
    subst out. rewrite write_file_data_S by lia.
    specialize (IH (write_bytes img (blk i) (chunk i)) (S i) ltac:(lia)).
    rewrite length_write_bytes in IH.
    specialize (IH Hlen).
    destruct IH as [I1 I2].
    { intros t Ht. apply Hrange. lia. }
    { intros s t Hs Ht. apply Hdist; lia. }
    split.
    + intros t Ht. destruct (Nat.eq_dec t i) as [->|Hti].
      * rewrite I2.
        -- apply read_bytes_write_same_len;
             [apply length_read_bytes | lia | lia].
        -- lia.
        -- intros t Ht'. pose proof (Hdist i t ltac:(lia) ltac:(lia)).
           change (Z.of_nat 4096) with 4096. lia.
      * apply I1. lia.
    + intros p k Hp Hdisj. rewrite I2.
      * apply read_bytes_write_other; [lia | exact Hp|].
        rewrite length_read_bytes. change (Z.of_nat 4096) with 4096.
        apply (Hdisj i). lia.
      * exact Hp.
      * intros t Ht. apply Hdisj. lia.
Qed.

End CopyLoop.

(** X18: when the n <= 12 direct pointers are distinct and their blocks
    lie inside the image, the copy loop leaves in block direct[t] the 4096
    bytes of the file from offset t * 4096, padded with zeros past the end
    of the file, for every t < n; the image keeps its length, and every
    range of bytes outside these blocks is unchanged. *)
Theorem write_file_data_fills_the_blocks
    (n : nat) (img d fbuf : list Z) :
  (n <= 12)%nat -> Z.of_nat (length img) <= 2 ^ 64 ->
  (forall t, (t < n)%nat ->
             0 <= nth t d 0 /\
             (nth t d 0 + 1) * 4096 <= Z.of_nat (length img)) ->
  (forall s t, (s < t < n)%nat -> nth s d 0 <> nth t d 0) ->
  let out := Adder.write_file_data n 0 img d fbuf (Z.of_nat (length fbuf)) in
  length out = length img /\
  (forall t, (t < n)%nat ->
     read_bytes out (nth t d 0 * 4096) 4096
     = read_bytes fbuf (Z.of_nat t * 4096) 4096) /\
  (forall p k, 0 <= p ->
     (forall t, (t < n)%nat ->
        p + Z.of_nat k <= nth t d 0 * 4096 \/ (nth t d 0 + 1) * 4096 <= p) ->
     read_bytes out p k = read_bytes img p k).
Proof.
  intros Hn Hlen Hrange Hdist out.
  split; [apply length_write_file_data|].
  destruct (write_file_data_gen d fbuf n img 0 ltac:(lia) Hlen) as [I1 I2].
  - intros t Ht. specialize (Hrange t ltac:(lia)). lia.
  - intros s t Hs Ht. apply Hdist. lia.
  - change (Z.of_nat 0) with 0 in I1, I2. split.
    + intros t Ht. apply I1. lia.
    + intros p k Hp Hdisj. apply I2; [exact Hp|].
      intros t Ht. specialize (Hdisj t ltac:(lia)). lia.
Qed.

Lemma no_free_inode_iff_inode_bitmap_full_witness :
  fresh_image <> [] /\
  inode_count (load_superblock fresh_image 0) <= 2 ^ 63 /\
  (Adder.error_of (Adder.main fresh_image hello_path [] 0)
   = Some Adder.NoFreeInode
   <-> forall j, 0 <= j < inode_count (load_superblock fresh_image 0) ->
       bitmap_test fresh_image
         (u64 (inode_bitmap_start (load_superblock fresh_image 0) * BS)) j
       = 1).
Proof.
  assert (Hne : fresh_image <> []).
  { intros H. apply (f_equal (fun l => Z.of_nat (length l))) in H.
    vm_compute in H. discriminate H. }
  assert (Hb : block_size (load_superblock fresh_image 0) = BS)
    by (vm_compute; reflexivity).
  assert (Hm : magic (load_superblock fresh_image 0) = MAGIC)
    by (vm_compute; reflexivity).
  assert (Hc : inode_count (load_superblock fresh_image 0) <= 2 ^ 63)
    by (vm_compute; intros H; discriminate H).
  split; [exact Hne|]. split; [exact Hc|].
  exact (proj1 (no_free_inode_iff_inode_bitmap_full fresh_image hello_path []
                  0 Hne Hb Hm Hc)).
Defined.

Lemma alloc_blocks_takes_lowest_free_bits_witness :
  0 <= data_region_blocks (load_superblock fresh_image 0) <= 2 ^ 63 /\
  8192 + data_region_blocks (load_superblock fresh_image 0) / 8
    < Z.of_nat (length fresh_image) /\
  snd (Adder.alloc_blocks 2 0 fresh_image 8192 (repeat 0 12))
  = Some [8; 9; 0; 0; 0; 0; 0; 0; 0; 0; 0; 0].
Proof.
  assert (Hbm : 116 <= 8192) by lia.
  assert (Hbits : 0 <= data_region_blocks (load_superblock fresh_image 0)
                  <= 2 ^ 63)
    by (vm_compute; split; intros H; discriminate H).
  assert (Hin : 8192 + data_region_blocks (load_superblock fresh_image 0) / 8
                < Z.of_nat (length fresh_image))
    by (vm_compute; reflexivity).
  split; [exact Hbits|]. split; [exact Hin|].
  rewrite (alloc_blocks_takes_lowest_free_bits 2 fresh_image 8192
             (repeat 0 12) Hbm Hbits Hin).
  vm_compute. reflexivity.
Defined.

Lemma write_file_data_fills_the_blocks_witness :
  Z.of_nat (length fresh_image) <= 2 ^ 64 /\
  read_bytes
    (Adder.write_file_data 2 0 fresh_image [8; 9] (file_of_size 5000)
       (Z.of_nat (length (file_of_size 5000))))
    (nth 1 [8; 9] 0 * 4096) 4096
  = read_bytes (file_of_size 5000) (Z.of_nat 1 * 4096) 4096.
Proof.
  assert (Hn : (2 <= 12)%nat) by lia.
  assert (Hlen : Z.of_nat (length fresh_image) <= 2 ^ 64)
    by (vm_compute; intros H; discriminate H).
  assert (Hrange : forall t, (t < 2)%nat ->
            0 <= nth t [8; 9] 0 /\
            (nth t [8; 9] 0 + 1) * 4096 <= Z.of_nat (length fresh_image)).
  { intros t Ht. destruct t as [|[|t]]; [| |lia];
      (split; [vm_compute; intros H; discriminate H
              | vm_compute; intros H; discriminate H]). }
  assert (Hdist : forall s t, (s < t < 2)%nat ->
            nth s [8; 9] 0 <> nth t [8; 9] 0).
  { intros s t Hst. destruct s as [|s]; destruct t as [|[|t]]; try lia.
    cbn [nth]. lia. }
  split; [exact Hlen|].
  exact (proj1 (proj2
    (write_file_data_fills_the_blocks 2 fresh_image [8; 9]
       (file_of_size 5000) Hn Hlen Hrange Hdist)) 1%nat ltac:(lia)).
Defined.

(** ** Regions of the image that a step leaves alone *)

Lemma nth_repeat0 (N j : nat) : nth j (repeat 0 N) 0 = 0.
Proof.
  revert j; induction N as [|N IH]; intros [|j]; cbn [repeat nth];
    try reflexivity. apply IH.
Qed.

Lemma read_bytes_repeat0 (N : nat) (off : Z) (n : nat) :
  read_bytes (repeat 0 N) off n = repeat 0 n.
Proof.
  apply nth_ext with (d := 0) (d' := 0).
  - now rewrite length_read_bytes, repeat_length.
  - intros j Hj. rewrite length_read_bytes in Hj.
    now rewrite nth_read_bytes, !nth_repeat0 by exact Hj.
Qed.

Lemma load_inode_ext (m m' : list Z) (off : Z) :
  0 <= off -> read_bytes m off 128 = read_bytes m' off 128 ->
  load_inode m off = load_inode m' off.
Proof.
  intros Hoff H. rewrite (load_inode_read m off), (load_inode_read m' off)
    by exact Hoff. now rewrite H.
Qed.

Lemma load_dirent_ext (m m' : list Z) (off : Z) :
  0 <= off -> read_bytes m off 64 = read_bytes m' off 64 ->
  load_dirent m off = load_dirent m' off.
Proof.
  intros Hoff H. rewrite (load_dirent_read m off), (load_dirent_read m' off)
    by exact Hoff. now rewrite H.
Qed.

Lemma load_superblock_read (m : list Z) :
  load_superblock m 0 = load_superblock (read_bytes m 0 116) 0.
Proof.
  unfold load_superblock.
  apply mk_superblock_ext;
    (rewrite get_le_sub by (cbn; lia); f_equal; lia).
Qed.

Lemma load_superblock_ext (m m' : list Z) :
  read_bytes m 0 116 = read_bytes m' 0 116 ->
  load_superblock m 0 = load_superblock m' 0.
Proof.
  intros H. rewrite (load_superblock_read m), (load_superblock_read m').
  now rewrite H.
Qed.

Lemma load_inode_write_same (m : list Z) (off : Z) (ino : inode_t) :
  inode_in_range ino -> 0 <= off -> off + 128 <= Z.of_nat (length m) ->
  load_inode (write_bytes m off (inode_bytes ino)) off = ino.
Proof.
  intros Hr Hoff Hl. rewrite load_inode_read by exact Hoff.
  rewrite read_bytes_write_same_len
    by (try apply length_inode_bytes; try exact Hoff;
        change (Z.of_nat 128) with 128; exact Hl).
  rewrite <- (app_nil_r (inode_bytes ino)). now apply load_inode_bytes.
Qed.

Lemma load_dirent_write_same (m : list Z) (off : Z) (de : dirent64_t) :
  dirent_in_range de -> 0 <= off -> off + 64 <= Z.of_nat (length m) ->
  load_dirent (write_bytes m off (dirent_bytes de)) off = de.
Proof.
  intros Hr Hoff Hl. rewrite load_dirent_read by exact Hoff.
  rewrite read_bytes_write_same_len
    by (try apply length_dirent_bytes; try exact Hoff;
        change (Z.of_nat 64) with 64; exact Hl).
  rewrite <- (app_nil_r (dirent_bytes de)). now apply load_dirent_bytes.
Qed.

Lemma set_bits_cons (m : list Z) (off j : Z) (js : list Z) :
  set_bits m off (j :: js) = set_bits (bitmap_set m off j) off js.
Proof. reflexivity. Qed.

Lemma length_set_bits (m : list Z) (off : Z) (js : list Z) :
  length (set_bits m off js) = length m.
Proof.
  revert m; induction js as [|j js IH]; intros m; [reflexivity|].
  now rewrite set_bits_cons, IH, length_bitmap_set.
Qed.

Lemma read_bytes_bitmap_set_other (m : list Z) (off j p : Z) (k : nat) :
  0 <= off -> 0 <= j -> 0 <= p ->
  p + Z.of_nat k <= off + j / 8 \/ off + j / 8 < p ->
  read_bytes (bitmap_set m off j) p k = read_bytes m p k.
Proof.
  intros Hoff Hj Hp Hd. unfold bitmap_set, set8.
  rewrite Z.shiftr_div_pow2 by lia. change (2 ^ 3) with 8.
  pose proof (Z.div_pos j 8 Hj ltac:(lia)).
  apply read_bytes_write_other; [lia | exact Hp|].
  cbn [length]. lia.
Qed.

Lemma read_bytes_set_bits_other (m : list Z) (off : Z) (js : list Z)
    (B p : Z) (k : nat) :
  0 <= off -> 0 <= p -> Forall (fun j => 0 <= j < B * 8) js ->
  p + Z.of_nat k <= off \/ off + B <= p ->
  read_bytes (set_bits m off js) p k = read_bytes m p k.
Proof.
  intros Hoff Hp Hjs Hd. revert m.
  induction Hjs as [|j js Hj Hjs IH]; intros m; [reflexivity|].
  rewrite set_bits_cons, IH.
  apply read_bytes_bitmap_set_other; try lia.
  pose proof (Z.div_pos j 8 ltac:(lia) ltac:(lia)).
  assert (j / 8 < B) by (apply Z.div_lt_upper_bound; lia).
  lia.
Qed.

Lemma bitmap_test_set_bits (m : list Z) (off : Z) (js : list Z) (j : Z) :
  0 <= off -> 0 <= j ->
  Forall (fun i => 0 <= i /\ off + i / 8 < Z.of_nat (length m)) js ->
  bitmap_test (set_bits m off js) off j
  = if existsb (Z.eqb j) js then 1 else bitmap_test m off j.
Proof.
  intros Hoff Hj Hjs. revert m Hjs.
  induction js as [|i js IH]; intros m Hjs; [reflexivity|].
  inversion Hjs as [|? ? [Hi0 Hi1] Hjs']; subst.
  rewrite set_bits_cons, IH.
  - cbn [existsb]. destruct (Z.eqb_spec j i) as [->|Hne].
    + cbn [orb]. destruct (existsb (Z.eqb i) js); [reflexivity|].
      now apply bitmap_set_test_same.
    + cbn [orb]. destruct (existsb (Z.eqb j) js); [reflexivity|].
      now apply bitmap_set_test_other.
  - rewrite length_bitmap_set. exact Hjs'.
Qed.

Lemma in_basename (path : list Z) (c : Z) :
  In c (basename path) -> In c path.
Proof.
  rewrite basename_fold.
  assert (H : forall l acc, In c (fold_left
              (fun acc c => if c =? 47 then [] else acc ++ [c]) l acc) ->
              In c acc \/ In c l).
  { induction l as [|x l IH]; intros acc Hc; cbn [fold_left] in Hc;
      [now left|].
    apply IH in Hc. destruct Hc as [Hc|Hc]; [|right; now right].
    destruct (x =? 47); [destruct Hc|].
    apply in_app_or in Hc. destruct Hc as [Hc|[<-|[]]];
      [now left | right; now left]. }
  intros Hc. apply H in Hc. destruct Hc as [[]|Hc]. exact Hc.
Qed.

Lemma get8_read_bytes (m : list Z) (off : Z) (n j : nat) :
  0 <= off -> (j < n)%nat ->
  get8 m (off + Z.of_nat j) = nth j (read_bytes m off n) 0.
Proof.
  intros Hoff Hj. rewrite nth_read_bytes by exact Hj. unfold get8.
  f_equal. lia.
Qed.

Lemma filter_all {A : Type} (f : A -> bool) (l : list A) :
  (forall x, In x l -> f x = true) -> filter f l = l.
Proof.
  induction l as [|x l IH]; intros H; [reflexivity|].
  cbn [filter]. rewrite (H x (or_introl eq_refl)). f_equal.
  apply IH. intros y Hy. apply H. now right.
Qed.

Lemma nth_map_seq (f : Z -> Z) (a n t : nat) :
  (t < n)%nat ->
  nth t (map f (map Z.of_nat (seq a n))) 0 = f (Z.of_nat (a + t)).
Proof.
  intros Ht. rewrite map_map.
  rewrite (nth_indep _ 0 (f (Z.of_nat 0)))
    by (now rewrite length_map, length_seq).
  rewrite (map_nth (fun i => f (Z.of_nat i))). now rewrite seq_nth.
Qed.

Lemma firstn_seq_le (n a m : nat) :
  (n <= m)%nat -> firstn n (seq a m) = seq a n.
Proof.
  revert a m; induction n as [|n IH]; intros a m Hn; [reflexivity|].
  destruct m as [|m]; [lia|]. cbn [seq firstn]. f_equal. apply IH. lia.
Qed.

Lemma bitmap_test_ext (m m' : list Z) (off j : Z) :
  0 <= j -> get8 m (off + j / 8) = get8 m' (off + j / 8) ->
  bitmap_test m off j = bitmap_test m' off j.
Proof. intros Hj H. rewrite !bitmap_test_bit by exact Hj. now rewrite H. Qed.

Lemma get8_ext (m m' : list Z) (p : Z) :
  0 <= p -> read_bytes m p 1 = read_bytes m' p 1 -> get8 m p = get8 m' p.
Proof.
  intros Hp H. replace p with (p + Z.of_nat 0) by lia.
  rewrite (get8_read_bytes m p 1 0), (get8_read_bytes m' p 1 0) by lia.
  now rewrite H.
Qed.

(** a bitmap block with only bit 0 set *)
Lemma first_bit_only (m : list Z) (off j : Z) :
  0 <= off -> read_bytes m off 4096 = 1 :: repeat 0 4095 ->
  0 <= j < 32768 -> bitmap_test m off j = if j =? 0 then 1 else 0.
Proof.
  intros Hoff Hbm Hj. rewrite bitmap_test_bit by lia.
  pose proof (Z.div_pos j 8 ltac:(lia) ltac:(lia)).
  assert (j / 8 < 4096) by (apply Z.div_lt_upper_bound; lia).
  replace (j / 8) with (Z.of_nat (Z.to_nat (j / 8))) by lia.
  rewrite (get8_read_bytes m off 4096) by lia. rewrite Hbm.
  destruct (Z.eqb_spec j 0) as [->|Hne]; [reflexivity|].
  destruct (Z.to_nat (j / 8)) as [|c] eqn:Hc.
  - assert (Hj8 : j / 8 = 0) by lia.
    assert (Hm : j mod 8 = j) by (pose proof (Z.div_mod j 8 ltac:(lia)); lia).
    cbn [nth]. rewrite Hm. change 1 with (2 ^ 0) at 1.
    rewrite Z.pow2_bits_eqb by lia.
    destruct (Z.eqb_spec 0 j); [lia | reflexivity].
  - cbn [nth]. now rewrite nth_repeat0, Z.bits_0.
Qed.

Lemma existsb_eqb_seq (j : Z) (a n : nat) :
  existsb (Z.eqb j) (map Z.of_nat (seq a n))
  = (Z.of_nat a <=? j) && (j <? Z.of_nat (a + n)).
Proof.
  revert a; induction n as [|n IH]; intros a.
  - cbn [seq map existsb].
    destruct (Z.leb_spec (Z.of_nat a) j); destruct (Z.ltb_spec j (Z.of_nat (a + 0)));
      cbn [andb]; try reflexivity; lia.
  - cbn [seq map existsb]. rewrite IH.
    destruct (Z.eqb_spec j (Z.of_nat a));
      destruct (Z.leb_spec (Z.of_nat (S a)) j);
      destruct (Z.ltb_spec j (Z.of_nat (S a + n)));
      destruct (Z.leb_spec (Z.of_nat a) j);
      destruct (Z.ltb_spec j (Z.of_nat (a + S n)));
      cbn [andb orb]; try reflexivity; lia.
Qed.

Lemma adder_inode_finalize_in_range (ino : inode_t) :
  inode_in_range ino -> inode_in_range (Adder.inode_crc_finalize ino).
Proof.
  intros Hr. rewrite adder_inode_finalize_eq.
  pose proof (crc32_u32 (inode_head ino ++ repeat 0 8) 128) as Hc.
  revert Hc. generalize (Builder.crc32 (inode_head ino ++ repeat 0 8) 128).
  intros c Hc. unfold in_u32 in Hc. unfold inode_in_range in *.
  cbn [mode links uid gid size_bytes atime mtime ctime direct reserved_0
       reserved_1 reserved_2 proj_id uid16_gid16 xattr_ptr inode_crc
       set_inode_crc].
  split_all; try tauto; lia.
Qed.

Lemma dirent_finalize_in_range (ino ty : Z) (nm : list Z) (c : Z) :
  0 <= ino < 2 ^ 32 -> 0 <= ty < 2 ^ 8 -> length nm = 58%nat -> bytes_ok nm ->
  dirent_in_range (dirent_checksum_finalize (mk_dirent ino ty nm c)).
Proof.
  intros Hi Ht Hl Hn. rewrite dirent_finalize_eq.
  pose proof (fold_lxor_byte (dirent_head (mk_dirent ino ty nm c)) 0
                (bytes_ok_dirent_head _) ltac:(unfold byte_ok; lia)) as Hc.
  revert Hc.
  generalize (fold_left Z.lxor (dirent_head (mk_dirent ino ty nm c)) 0).
  intros x Hx. unfold byte_ok in Hx. unfold dirent_in_range.
  cbn [inode_no type name de_checksum set_de_checksum].
  change (2 ^ 8) with 256. tauto.
Qed.

(** ** Fields of the builder's superblock and root inode *)

Lemma builder_superblock_fields
    (skib icount : Z) (path : list Z) (now : Z) (after : nat -> Z) :
  valid_params skib icount ->
  let sb := load_superblock
              (Builder.image_of
                 (Builder.main (Some path) skib icount now after)) 0 in
  let itb := (icount * 128 + 4095) / 4096 in
  block_size sb = BS /\ magic sb = MAGIC /\ inode_count sb = icount /\
  inode_bitmap_start sb = 1 /\ data_bitmap_start sb = 2 /\
  inode_table_start sb = 3 /\ data_region_start sb = 3 + itb /\
  data_region_blocks sb = skib * 1024 / 4096 - (3 + itb).
Proof.
  intros Hv sb itb. subst sb itb. pose proof Hv as (_ & _ & Hi).
  rewrite (builder_image_superblock _ _ Hv).
  unfold Builder.superblock_of. rewrite builder_superblock_finalize_eq.
  match goal with |- context [set_checksum _ ?c] => generalize c end.
  intros c.
  cbn [set_checksum block_size magic inode_count inode_bitmap_start
       data_bitmap_start inode_table_start data_region_start
       data_region_blocks Builder.l_inode_bitmap_start
       Builder.l_data_bitmap_start Builder.l_inode_table_start
       Builder.l_data_region_start Builder.l_data_region_blocks].
  assert (Hu : u64 icount = icount)
    by (unfold u64; apply Z.mod_small; lia).
  rewrite Hu. split_all; reflexivity.
Qed.

Lemma builder_root_fields
    (skib icount now : Z) :
  valid_params skib icount ->
  let itb := (icount * 128 + 4095) / 4096 in
  let root :=
    Builder.root_inode_of
      (Builder.mk_layout (skib * 1024 / 4096) 1 2 3 itb (3 + itb)
         (skib * 1024 / 4096 - (3 + itb))) now in
  nth 0 (direct root) 0 = 3 + itb /\ links root = 2.
Proof.
  intros Hv itb root. subst root. pose proof (itb_bounds _ _ Hv) as Hq.
  unfold Builder.root_inode_of. rewrite builder_inode_finalize_eq.
  match goal with |- context [set_inode_crc _ ?c] => generalize c end.
  intros c.
  cbn [set_inode_crc direct links nth Builder.l_data_region_start].
  split; [|reflexivity].
  subst itb. unfold u32. rewrite Z.mod_small by lia. lia.
Qed.

(** ** What the CRC-32 detects *)

Lemma low8_range (a : Z) : 0 <= Z.land a 255 < 256.
Proof.
  change 255 with (Z.ones 8). rewrite Z.land_ones by lia.
  apply Z.mod_pos_bound. lia.
Qed.

Lemma low8_lxor_cancel (c x y : Z) :
  Z.land (Z.lxor c x) 255 = Z.land (Z.lxor c y) 255 ->
  Z.land x 255 = Z.land y 255.
Proof.
  intros H. apply Z.bits_inj'. intros n Hn.
  apply (f_equal (fun z => Z.testbit z n)) in H.
  rewrite !Z.land_spec, !Z.lxor_spec in *.
  destruct (Z.testbit 255 n), (Z.testbit c n), (Z.testbit x n),
    (Z.testbit y n); cbn in *; congruence.
Qed.

Lemma lxor_cancel_l (t a b : Z) : Z.lxor t a = Z.lxor t b -> a = b.
Proof.
  intros H. apply (f_equal (Z.lxor t)) in H.
  now rewrite <- !Z.lxor_assoc, Z.lxor_nilpotent, !Z.lxor_0_l in H.
Qed.

Lemma lxor_cancel_r (t a b : Z) : Z.lxor a t = Z.lxor b t -> a = b.
Proof. rewrite !(Z.lxor_comm _ t). apply lxor_cancel_l. Qed.

Lemma nth_map_zero (f : Z -> Z) (l : list Z) (i : nat) :
  f 0 = 0 -> nth i (map f l) 0 = f (nth i l 0).
Proof.
  intros H0. revert i; induction l as [|x l IH]; intros [|i]; cbn [map nth];
    auto.
Qed.

(** the top bytes of the 256 table entries are pairwise different *)
Lemma table_top_bytes (i j : nat) :
  (i < 256)%nat -> (j < 256)%nat ->
  Z.shiftr (nth i CRC32_TAB 0) 24 = Z.shiftr (nth j CRC32_TAB 0) 24 ->
  i = j.
Proof.
  intros Hi Hj H.
  assert (Hnd : NoDup (map (fun t => Z.shiftr t 24) CRC32_TAB)).
  { assert (E : nodup Z.eq_dec (map (fun t => Z.shiftr t 24) CRC32_TAB)
                = map (fun t => Z.shiftr t 24) CRC32_TAB)
      by (vm_compute; reflexivity).
    rewrite <- E. apply NoDup_nodup. }
  apply (proj1 (NoDup_nth _ 0) Hnd); try (rewrite length_map; exact Hi || exact Hj).
  rewrite !nth_map_zero by reflexivity. exact H.
Qed.

Lemma table_index_of_round (c1 c2 p1 p2 : Z) :
  in_u32 c1 -> in_u32 c2 ->
  crc32_round c1 p1 = crc32_round c2 p2 ->
  Z.land (Z.lxor c1 p1) 255 = Z.land (Z.lxor c2 p2) 255.
Proof.
  intros H1 H2 H. unfold crc32_round in H.
  apply (f_equal (fun z => Z.shiftr z 24)) in H.
  rewrite !Z.shiftr_lxor, !Z.shiftr_shiftr in H by lia.
  change (8 + 24) with 32 in H.
  rewrite (proj1 (in_u32_shiftr c1 (proj1 H1)) (proj2 H1)) in H.
  rewrite (proj1 (in_u32_shiftr c2 (proj1 H2)) (proj2 H2)) in H.
  rewrite !Z.lxor_0_r in H.
  pose proof (low8_range (Z.lxor c1 p1)). pose proof (low8_range (Z.lxor c2 p2)).
  apply table_top_bytes in H; lia.
Qed.

(** for a fixed byte, one round is injective on 32-bit states *)
Lemma crc32_round_state_inj (c1 c2 p : Z) :
  in_u32 c1 -> in_u32 c2 -> crc32_round c1 p = crc32_round c2 p -> c1 = c2.
Proof.
  intros H1 H2 H.
  pose proof (table_index_of_round c1 c2 p p H1 H2 H) as Hx.
  unfold crc32_round in H. rewrite Hx in H. apply lxor_cancel_l in H.
  rewrite !(Z.lxor_comm _ p) in Hx. apply low8_lxor_cancel in Hx.
  change 255 with (Z.ones 8) in Hx. rewrite !Z.land_ones in Hx by lia.
  rewrite !Z.shiftr_div_pow2 in H by lia.
  rewrite (Z.div_mod c1 (2 ^ 8)), (Z.div_mod c2 (2 ^ 8)) by lia.
  now rewrite H, Hx.
Qed.

(** for a fixed state, one round is injective on bytes *)
Lemma crc32_round_byte_inj (c x y : Z) :
  in_u32 c -> byte_ok x -> byte_ok y ->
  crc32_round c x = crc32_round c y -> x = y.
Proof.
  intros Hc Hx Hy H.
  pose proof (table_index_of_round c c x y Hc Hc H) as Hi.
  apply low8_lxor_cancel in Hi.
  change 255 with (Z.ones 8) in Hi. rewrite !Z.land_ones in Hi by lia.
  unfold byte_ok in *. change (2 ^ 8) with 256 in Hi.
  now rewrite !Z.mod_small in Hi by lia.
Qed.

Lemma crc32_fold_inj (l : list Z) :
  forall c1 c2, in_u32 c1 -> in_u32 c2 ->
  fold_left crc32_round l c1 = fold_left crc32_round l c2 -> c1 = c2.
Proof.
  induction l as [|p l IH]; intros c1 c2 H1 H2 H; [exact H|].
  cbn [fold_left] in H.
  apply IH in H; try (now apply crc32_round_u32).
  now apply crc32_round_state_inj in H.
Qed.

Lemma firstn_past (a : list Z) (x : Z) (b : list Z) (n : nat) :
  (length a < n)%nat ->
  firstn n (a ++ x :: b) = a ++ x :: firstn (n - S (length a)) b.
Proof.
  intros Hn. rewrite firstn_app.
  rewrite firstn_all2 by lia.
  replace (n - length a)%nat with (S (n - S (length a))) by lia.
  reflexivity.
Qed.

(** X19: the CRC-32 of both programs detects a change of one byte: two
    buffers that differ in exactly one byte get different checksums when
    that byte lies within the n bytes that are hashed, and the same
    checksum when it lies behind them. *)
Theorem crc32_detects_a_changed_byte (a b : list Z) (x y : Z) (n : nat) :
  byte_ok x -> byte_ok y -> x <> y ->
  ((length a < n)%nat ->
   Builder.crc32 (a ++ x :: b) n <> Builder.crc32 (a ++ y :: b) n /\
   Adder.crc32_finalize (a ++ x :: b) n
   <> Adder.crc32_finalize (a ++ y :: b) n) /\
  ((n <= length a)%nat ->
   Builder.crc32 (a ++ x :: b) n = Builder.crc32 (a ++ y :: b) n).
Proof.
  intros Hx Hy Hne.
  assert (Hin : (length a < n)%nat ->
                Builder.crc32 (a ++ x :: b) n
                <> Builder.crc32 (a ++ y :: b) n).
  { intros Hn H. unfold Builder.crc32 in H. apply lxor_cancel_r in H.
    rewrite !firstn_past in H by exact Hn.
    rewrite !fold_left_app in H. cbn [fold_left] in H.
    assert (Hc : in_u32 (fold_left crc32_round a 4294967295))
      by (apply crc32_fold_u32; unfold in_u32; lia).
    apply crc32_fold_inj in H; try (now apply crc32_round_u32).
    apply crc32_round_byte_inj in H; try assumption.
    contradiction. }
  split.
  - intros Hn. split; [now apply Hin|].
    rewrite !crc32_finalize_eq. now apply Hin.
  - intros Hn. unfold Builder.crc32.
    rewrite !firstn_app.
    replace (n - length a)%nat with O by lia. reflexivity.
Qed.

Lemma crc32_detects_a_changed_byte_witness :
  byte_ok 2 /\ byte_ok 4 /\
  Builder.crc32 ([1] ++ 2 :: [3]) 3 <> Builder.crc32 ([1] ++ 4 :: [3]) 3.
Proof.
  assert (Hx : byte_ok 2) by (unfold byte_ok; lia).
  assert (Hy : byte_ok 4) by (unfold byte_ok; lia).
  assert (Hne : 2 <> 4) by lia.
  assert (Hn : (length [1] < 3)%nat) by (cbn; lia).
  split; [exact Hx|]. split; [exact Hy|].
  exact (proj1 (proj1 (crc32_detects_a_changed_byte [1] [3] 2 4 3 Hx Hy Hne)
                  Hn)).
Defined.

(** ** Adding a file to a consistent image *)

Lemma filter_none {A : Type} (f : A -> bool) (l : list A) :
  (forall x, In x l -> f x = false) -> filter f l = [].
Proof.
  induction l as [|x l IH]; intros H; [reflexivity|].
  cbn [filter]. rewrite (H x (or_introl eq_refl)).
  apply IH. intros y Hy. apply H. now right.
Qed.

Lemma free_bits_after_prefix (img : list Z) (off : Z) (N M : nat) :
  (forall j, 0 <= j < Z.of_nat N ->
     bitmap_test img off j = if j <=? Z.of_nat M then 1 else 0) ->
  (M < N)%nat ->
  free_bits img off N = map Z.of_nat (seq (S M) (N - S M)).
Proof.
  intros Hbits HM. unfold free_bits, free_bits_from.
  replace N with (S M + (N - S M))%nat at 1 by lia.
  rewrite seq_app, map_app, filter_app, Nat.add_0_l.
  rewrite filter_none, filter_all; [reflexivity| |].
  - intros x Hx. apply in_map_iff in Hx. destruct Hx as (i & <- & Hi).
    apply in_seq in Hi. rewrite Hbits by lia.
    destruct (Z.leb_spec (Z.of_nat i) (Z.of_nat M)); [lia | reflexivity].
  - intros x Hx. apply in_map_iff in Hx. destruct Hx as (i & <- & Hi).
    apply in_seq in Hi. rewrite Hbits by lia.
    destruct (Z.leb_spec (Z.of_nat i) (Z.of_nat M)); [reflexivity | lia].
Qed.

Lemma filter_below (c n : nat) :
  (c <= n)%nat ->
  filter (fun i => Z.of_nat i <? Z.of_nat c) (seq 0 n) = seq 0 c.
Proof.
  intros Hc. replace n with (c + (n - c))%nat by lia.
  rewrite seq_app, filter_app, Nat.add_0_l.
  rewrite filter_all, filter_none; [apply app_nil_r| |].
  - intros x Hx. apply in_seq in Hx.
    destruct (Z.ltb_spec (Z.of_nat x) (Z.of_nat c)); [lia | reflexivity].
  - intros x Hx. apply in_seq in Hx.
    destruct (Z.ltb_spec (Z.of_nat x) (Z.of_nat c)); [reflexivity | lia].
Qed.

Section Step.

Variables (img : list Z) (icount tb itb k m : Z).

Local Abbreviation drs := (3 + itb).
Local Abbreviation dblk := ((3 + itb) * 4096).
Local Abbreviation root := (load_inode img 12288).

Hypothesis Hitb : 4 <= itb < 17.
Hypothesis Htb : 45 <= tb <= 1024.
Hypothesis Hic : 128 <= icount <= 512.
Hypothesis Hcov : icount * 128 <= itb * 4096.
Hypothesis Hlen : Z.of_nat (length img) = tb * 4096.
Hypothesis Hsbr : superblock_in_range (load_superblock img 0).
Hypothesis Hbs : block_size (load_superblock img 0) = BS.
Hypothesis Hmagic : magic (load_superblock img 0) = MAGIC.
Hypothesis Hcount : inode_count (load_superblock img 0) = icount.
Hypothesis Hibs : inode_bitmap_start (load_superblock img 0) = 1.
Hypothesis Hdbs : data_bitmap_start (load_superblock img 0) = 2.
Hypothesis Hits : inode_table_start (load_superblock img 0) = 3.
Hypothesis Hdrs : data_region_start (load_superblock img 0) = drs.
Hypothesis Hdrb : data_region_blocks (load_superblock img 0) = tb - drs.
Hypothesis Hk : 0 <= k < icount.
Hypothesis Hkd : k + 2 <= 64.
Hypothesis Hm : 0 <= m < tb - drs.
Hypothesis Hibits : forall j, 0 <= j < 32768 ->
  bitmap_test img 4096 j = if j <=? k then 1 else 0.
Hypothesis Hdbits : forall j, 0 <= j < 32768 ->
  bitmap_test img 8192 j = if j <=? m then 1 else 0.
Hypothesis Hrootr : inode_in_range root.
Hypothesis Hroot0 : nth 0 (direct root) 0 = drs.
Hypothesis Hrootl : links root = k + 2.
Hypothesis Hused : forall i, (i < 64)%nat ->
  entry_used img dblk i = (Z.of_nat i <? k + 2).

Variables (filepath fbuf : list Z) (now : Z).

Local Abbreviation fsz := (Z.of_nat (length fbuf)).
Local Abbreviation nb := (Z.to_nat (Adder.blocks_needed fsz)).
Local Abbreviation base := (basename filepath).
Local Abbreviation ptr := (fun j => u32 (u64 (drs + j))).
Local Abbreviation all_free :=
  (map Z.of_nat (seq (S (Z.to_nat m))
                   (Z.to_nat (tb - drs) - S (Z.to_nat m)))).
Local Abbreviation taken := (map Z.of_nat (seq (S (Z.to_nat m)) nb)).
Local Abbreviation img1 := (set_bits img 8192 taken).
Local Abbreviation new_direct :=
  (write_bytes (repeat 0 12) 0 (map ptr taken)).

(** [main] up to the search for a free inode *)
Lemma step_main_to_inode :
  Adder.main img filepath fbuf now
  = let free_in := Adder.bitmap_ffz img 4096 icount in
    if free_in <? 0 then Adder.Failed Adder.NoFreeInode 1 img else
    if icount <=? u64 free_in then Adder.Failed Adder.InodeIndexOOB 1 img else
    if DIRECT_MAX <? Adder.blocks_needed fsz
    then Adder.Failed Adder.FileTooLarge 1 img else
    match Adder.alloc_blocks nb 0 img 8192 (repeat 0 12) with
    | (img', None) => Adder.Failed Adder.NoFreeDataBlocks 1 img'
    | (img', Some d) =>
        if nth 0 (direct (load_inode img' 12288)) 0 =? 0
        then Adder.Failed Adder.RootMissingFirstBlock 1 img' else
        match Adder.scan_root 64 0 img'
                (u64 (nth 0 (direct (load_inode img' 12288)) 0 * BS))
                base (-1) 0 with
        | None => Adder.Failed Adder.AlreadyExists 1 img'
        | Some (slot, used) =>
            if slot <? 0 then Adder.Failed Adder.DirectoryFull 1 img' else
            Adder.Written
              (Adder.commit img' 4096 12288
                 (u64 (nth 0 (direct (load_inode img' 12288)) 0 * BS))
                 free_in (u32 (free_in + 1)) (Adder.blocks_needed fsz) d
                 slot used base fbuf fsz now)
        end
    end.
Proof.
  unfold Adder.main.
  destruct (Z.leb_spec (Z.of_nat (length img)) 0) as [Hl|_]; [lia|].
  rewrite Hbs, Hmagic, !Z.eqb_refl. cbn [negb orb].
  rewrite Hibs, Hdbs, Hits, Hcount. reflexivity.
Qed.

Lemma step_no_free_inode :
  icount <= k + 1 ->
  Adder.main img filepath fbuf now = Adder.Failed Adder.NoFreeInode 1 img.
Proof.
  intros Hfull. rewrite step_main_to_inode. cbv zeta.
  assert (E : Adder.bitmap_ffz img 4096 icount = -1).
  { destruct (bitmap_ffz_first_fit img 4096 icount ltac:(lia))
      as [[Hr _]|(Hr & Hfree & _)]; [exact Hr|].
    rewrite Hibits in Hfree by lia.
    destruct (Z.leb_spec (Adder.bitmap_ffz img 4096 icount) k);
      [discriminate Hfree | lia]. }
  rewrite E. reflexivity.
Qed.

Hypothesis Hroom_inode : k + 1 < icount.

Lemma step_free_inode : Adder.bitmap_ffz img 4096 icount = k + 1.
Proof.
  destruct (bitmap_ffz_first_fit img 4096 icount ltac:(lia))
    as [[_ Hall]|(Hr & Hfree & Hlow)].
  - specialize (Hall (k + 1) ltac:(lia)).
    rewrite Hibits in Hall by lia.
    destruct (Z.leb_spec (k + 1) k); [lia | contradiction].
  - rewrite Hibits in Hfree by lia.
    destruct (Z.leb_spec (Adder.bitmap_ffz img 4096 icount) k) as [Hle|Hgt];
      [discriminate Hfree|].
    destruct (Z.eq_dec (Adder.bitmap_ffz img 4096 icount) (k + 1))
      as [E|Hne]; [exact E|].
    specialize (Hlow (k + 1) ltac:(lia)). rewrite Hibits in Hlow by lia.
    destruct (Z.leb_spec (k + 1) k); [lia | contradiction].
Qed.

(** [main] up to the allocation loop *)
Lemma step_main_to_alloc :
  Adder.main img filepath fbuf now
  = if DIRECT_MAX <? Adder.blocks_needed fsz
    then Adder.Failed Adder.FileTooLarge 1 img else
    match Adder.alloc_blocks nb 0 img 8192 (repeat 0 12) with
    | (img', None) => Adder.Failed Adder.NoFreeDataBlocks 1 img'
    | (img', Some d) =>
        if nth 0 (direct (load_inode img' 12288)) 0 =? 0
        then Adder.Failed Adder.RootMissingFirstBlock 1 img' else
        match Adder.scan_root 64 0 img'
                (u64 (nth 0 (direct (load_inode img' 12288)) 0 * BS))
                base (-1) 0 with
        | None => Adder.Failed Adder.AlreadyExists 1 img'
        | Some (slot, used) =>
            if slot <? 0 then Adder.Failed Adder.DirectoryFull 1 img' else
            Adder.Written
              (Adder.commit img' 4096 12288
                 (u64 (nth 0 (direct (load_inode img' 12288)) 0 * BS))
                 (k + 1) (k + 2) (Adder.blocks_needed fsz) d
                 slot used base fbuf fsz now)
        end
    end.
Proof.
  rewrite step_main_to_inode. cbv zeta. rewrite step_free_inode.
  destruct (Z.ltb_spec (k + 1) 0) as [Hneg|_]; [lia|].
  assert (Hu1 : u64 (k + 1) = k + 1)
    by (unfold u64; apply Z.mod_small; lia).
  assert (Hu2 : u32 (k + 1 + 1) = k + 2)
    by (unfold u32; rewrite Z.mod_small by lia; lia).
  rewrite Hu1, Hu2.
  destruct (Z.leb_spec icount (k + 1)) as [Hi|_]; [lia|].
  reflexivity.
Qed.

Lemma step_too_large :
  49152 < fsz -> fsz < 2 ^ 63 ->
  Adder.main img filepath fbuf now = Adder.Failed Adder.FileTooLarge 1 img.
Proof.
  intros Hbig Hlong. rewrite step_main_to_alloc.
  pose proof (proj2 (blocks_needed_gt_12 fsz ltac:(lia)) ltac:(lia)) as H.
  destruct (Z.ltb_spec DIRECT_MAX (Adder.blocks_needed fsz)) as [_|Hle];
    [reflexivity | unfold DIRECT_MAX in Hle; lia].
Qed.

Hypothesis Hsize : fsz <= 49152.

Lemma step_nb_bound : (nb <= 12)%nat /\ Adder.blocks_needed fsz = Z.of_nat nb.
Proof.
  assert (H : 0 <= fsz < 2 ^ 63) by lia.
  pose proof (blocks_needed_gt_12 fsz H) as H12.
  rewrite blocks_needed_eq in * by exact H.
  pose proof (Z.div_pos (fsz + 4095) 4096 ltac:(lia) ltac:(lia)).
  lia.
Qed.

Lemma step_free_list :
  free_bits img 8192 (Z.to_nat (tb - drs)) = all_free.
Proof.
  apply free_bits_after_prefix; [|lia].
  intros j Hj. rewrite Hdbits by lia. now rewrite Z2Nat.id by lia.
Qed.

Lemma step_alloc_gen :
  Adder.alloc_blocks nb 0 img 8192 (repeat 0 12)
  = (set_bits img 8192 (firstn nb all_free),
     if (nb <=? length all_free)%nat
     then Some (write_bytes (repeat 0 12) 0 (map ptr (firstn nb all_free)))
     else None).
Proof.
  pose proof (alloc_blocks_gen 8192 (tb - drs) drs (length img)
                ltac:(lia) ltac:(lia)) as H.
  assert (Hin : 8192 + (tb - drs) / 8 < Z.of_nat (length img)).
  { assert ((tb - drs) / 8 < 4096) by (apply Z.div_lt_upper_bound; lia).
    lia. }
  specialize (H Hin nb img 0%nat (repeat 0 12) Hdrb Hdrs eq_refl).
  change (Z.of_nat 0) with 0 in H. rewrite H. clear H.
  now rewrite step_free_list.
Qed.

(** [main] stops in the allocation loop, with every free bit taken *)
Lemma step_no_data_blocks :
  tb - drs <= m + Z.of_nat nb ->
  Adder.main img filepath fbuf now
  = Adder.Failed Adder.NoFreeDataBlocks 1 (set_bits img 8192 all_free).
Proof.
  intros Hfull. destruct step_nb_bound as [Hn _].
  rewrite step_main_to_alloc.
  destruct (Z.ltb_spec DIRECT_MAX (Adder.blocks_needed fsz)) as [Hb|_];
    [unfold DIRECT_MAX in Hb; lia|].
  rewrite step_alloc_gen. rewrite length_map, length_seq.
  destruct (Nat.leb_spec nb (Z.to_nat (tb - drs) - S (Z.to_nat m)))
    as [Hle|_]; [lia|].
  rewrite firstn_all2 by (rewrite length_map, length_seq; lia).
  reflexivity.
Qed.

Hypothesis Hroom_data : m + Z.of_nat nb < tb - drs.

Lemma step_alloc_eq :
  Adder.alloc_blocks nb 0 img 8192 (repeat 0 12) = (img1, Some new_direct).
Proof.
  rewrite step_alloc_gen.
  rewrite firstn_map, firstn_seq_le, length_map, length_seq by lia.
  destruct (Nat.leb_spec nb (Z.to_nat (tb - drs) - S (Z.to_nat m)))
    as [_|Hgt]; [|lia].
  reflexivity.
Qed.

Lemma step_length_new_direct : length new_direct = 12%nat.
Proof. now rewrite length_write_bytes, repeat_length. Qed.

Lemma step_nth_new_direct (t : nat) :
  nth t new_direct 0
  = if (t <? nb)%nat then drs + m + 1 + Z.of_nat t else 0.
Proof.
  destruct step_nb_bound as [Hn _].
  rewrite nth_write_bytes, repeat_length, !length_map, length_seq.
  change (Z.to_nat 0) with O. cbn [Nat.leb andb Nat.add Nat.sub].
  rewrite Nat.sub_0_r.
  destruct (Nat.ltb_spec t nb) as [Ht|Ht].
  - destruct (Nat.ltb_spec t 12) as [_|H12]; [|lia].
    rewrite nth_map_seq by exact Ht.
    unfold u32, u64.
    rewrite (Z.mod_small (drs + Z.of_nat (S (Z.to_nat m) + t)) (2 ^ 64))
      by lia.
    rewrite Z.mod_small by lia. lia.
  - destruct (Nat.ltb_spec t 12); [apply nth_repeat0 | reflexivity].
Qed.

Lemma step_taken_range : Forall (fun j => 0 <= j < 4096 * 8) taken.
Proof.
  destruct step_nb_bound as [Hn _]. apply Forall_forall. intros x Hx.
  apply in_map_iff in Hx. destruct Hx as (i & <- & Hi). apply in_seq in Hi.
  lia.
Qed.

Lemma step_img1_frame (p : Z) (n : nat) :
  0 <= p -> p + Z.of_nat n <= 8192 \/ 8192 + 4096 <= p ->
  read_bytes img1 p n = read_bytes img p n.
Proof.
  intros Hp Hd.
  apply (read_bytes_set_bits_other img 8192 taken 4096 p n);
    [lia | exact Hp | exact step_taken_range | exact Hd].
Qed.

Lemma step_length_img1 : length img1 = length img.
Proof. apply length_set_bits. Qed.

Lemma step_img1_data_bits (j : Z) :
  0 <= j < 32768 ->
  bitmap_test img1 8192 j = if j <=? m + Z.of_nat nb then 1 else 0.
Proof.
  intros Hj. destruct step_nb_bound as [Hn _].
  rewrite bitmap_test_set_bits; try lia.
  - rewrite existsb_eqb_seq, Hdbits by exact Hj.
    destruct (Z.leb_spec (Z.of_nat (S (Z.to_nat m))) j);
      destruct (Z.ltb_spec j (Z.of_nat (S (Z.to_nat m) + nb)));
      destruct (Z.leb_spec j m);
      destruct (Z.leb_spec j (m + Z.of_nat nb)); cbn [andb]; lia.
  - apply Forall_forall. intros x Hx. apply in_map_iff in Hx.
    destruct Hx as (i & <- & Hi). apply in_seq in Hi.
    split; [lia|].
    assert (Z.of_nat i / 8 < 4096) by (apply Z.div_lt_upper_bound; lia).
    lia.
Qed.

Lemma step_root_in_img1 : load_inode img1 12288 = root.
Proof. apply load_inode_ext; [lia|]. apply step_img1_frame; lia. Qed.

Lemma step_entry_in_img1 (i : nat) :
  (i < 64)%nat -> dir_entry img1 dblk i = dir_entry img dblk i.
Proof.
  intros Hi. unfold dir_entry. apply load_dirent_ext; [lia|].
  apply step_img1_frame; lia.
Qed.

Lemma step_used_in_img1 (i : nat) :
  (i < 64)%nat -> entry_used img1 dblk i = (Z.of_nat i <? k + 2).
Proof.
  intros Hi. unfold entry_used. rewrite step_entry_in_img1 by exact Hi.
  now apply Hused.
Qed.

Lemma step_named_in_img1 (i : nat) :
  (i < 64)%nat ->
  entry_named img1 dblk base i = entry_named img dblk base i.
Proof.
  intros Hi. unfold entry_named, entry_used.
  now rewrite step_entry_in_img1 by exact Hi.
Qed.

Lemma step_used_count : used_entries img1 dblk 0 64 = k + 2.
Proof.
  unfold used_entries.
  rewrite (filter_ext_in (entry_used img1 dblk)
             (fun i => Z.of_nat i <? Z.of_nat (Z.to_nat (k + 2)))).
  - rewrite filter_below, length_seq by lia. lia.
  - intros i Hi. apply in_seq in Hi. rewrite step_used_in_img1 by lia.
    now rewrite Z2Nat.id by lia.
Qed.

(** [main] up to the directory scan *)
Lemma step_main_to_scan :
  Adder.main img filepath fbuf now
  = match Adder.scan_root 64 0 img1 dblk base (-1) 0 with
    | None => Adder.Failed Adder.AlreadyExists 1 img1
    | Some (slot, used) =>
        if slot <? 0 then Adder.Failed Adder.DirectoryFull 1 img1 else
        Adder.Written
          (Adder.commit img1 4096 12288 dblk (k + 1) (k + 2)
             (Adder.blocks_needed fsz) new_direct slot used base fbuf fsz
             now)
    end.
Proof.
  destruct step_nb_bound as [Hn Hnb].
  rewrite step_main_to_alloc.
  destruct (Z.ltb_spec DIRECT_MAX (Adder.blocks_needed fsz)) as [Hb|_];
    [unfold DIRECT_MAX in Hb; lia|].
  rewrite step_alloc_eq, step_root_in_img1, Hroot0.
  destruct (Z.eqb_spec drs 0) as [Hz|_]; [lia|].
  assert (Hu : u64 (drs * BS) = dblk)
    by (unfold u64, BS; apply Z.mod_small; lia).
  rewrite Hu. reflexivity.
Qed.

(** the name is in the directory: [main] stops after the allocation *)
Lemma step_duplicate (i : nat) :
  (i < 64)%nat -> entry_named img dblk base i = true ->
  Adder.main img filepath fbuf now
  = Adder.Failed Adder.AlreadyExists 1 img1.
Proof.
  intros Hi Hdup. rewrite step_main_to_scan.
  pose proof (scan_root_gen img1 dblk base 64 0 (-1) 0 ltac:(lia)
                ltac:(lia) ltac:(left; reflexivity)) as H.
  change (Z.of_nat 0) with 0 in H.
  destruct (Adder.scan_root 64 0 img1 dblk base (-1) 0) as [[slot used]|];
    [|reflexivity].
  destruct H as (Hnone & _). specialize (Hnone i ltac:(lia)).
  rewrite step_named_in_img1, Hdup in Hnone by exact Hi.
  discriminate Hnone.
Qed.

Lemma step_duplicate_outcome (i : nat) :
  (i < 64)%nat -> entry_named img dblk base i = true ->
  let r := Adder.main img filepath fbuf now in
  Adder.error_of r = Some Adder.AlreadyExists /\ Adder.exit_code r = 1 /\
  (forall j, 0 <= j < 32768 ->
     bitmap_test (Adder.buffer_of r) 8192 j
     = if j <=? m + Z.of_nat nb then 1 else 0) /\
  (fbuf <> [] -> Adder.buffer_of r <> img).
Proof.
  intros Hi Hdup r. subst r. rewrite (step_duplicate i Hi Hdup).
  cbn [Adder.error_of Adder.exit_code Adder.buffer_of].
  split; [reflexivity|]. split; [reflexivity|].
  split; [exact step_img1_data_bits|].
  intros Hne Heq.
  assert (Hnb : (1 <= nb)%nat).
  { rewrite blocks_needed_eq by lia.
    destruct fbuf as [|x l]; [contradiction|]. cbn [length] in *.
    assert (1 <= (Z.of_nat (S (length l)) + 4095) / 4096)
      by (apply Z.div_le_lower_bound; lia).
    lia. }
  pose proof (step_img1_data_bits (m + 1) ltac:(lia)) as H1.
  rewrite Heq, Hdbits in H1 by lia.
  destruct (Z.leb_spec (m + 1) m); [lia|].
  destruct (Z.leb_spec (m + 1) (m + Z.of_nat nb)); [|lia].
  discriminate H1.
Qed.

Hypothesis Hnew_name : forall i, (i < 64)%nat ->
  entry_named img dblk base i = false.

Lemma step_scan_gen :
  Adder.scan_root 64 0 img1 dblk base (-1) 0
  = Some (if k + 2 <? 64 then k + 2 else -1, k + 2).
Proof.
  pose proof (scan_root_gen img1 dblk base 64 0 (-1) 0 ltac:(lia)
                ltac:(lia) ltac:(left; reflexivity)) as H.
  change (Z.of_nat 0) with 0 in H.
  destruct (Adder.scan_root 64 0 img1 dblk base (-1) 0) as [[slot used]|].
  - destruct H as (_ & Hu & _ & Hs). rewrite step_used_count in Hu.
    replace used with (k + 2) by lia.
    destruct (Hs eq_refl) as [[-> Hall]|(s & -> & Hs1 & Hs2 & Hs3)].
    + destruct (Z.ltb_spec (k + 2) 64) as [Hlt|_]; [|reflexivity].
      specialize (Hall (Z.to_nat (k + 2)) ltac:(lia)).
      rewrite step_used_in_img1 in Hall by lia.
      destruct (Z.ltb_spec (Z.of_nat (Z.to_nat (k + 2))) (k + 2));
        [lia | discriminate Hall].
    + rewrite step_used_in_img1 in Hs2 by lia.
      destruct (Z.ltb_spec (Z.of_nat s) (k + 2)) as [Hlt|Hge];
        [discriminate Hs2|].
      destruct (Z.ltb_spec (k + 2) 64) as [Hlt|Hge64]; [|lia].
      destruct (Z.eq_dec (Z.of_nat s) (k + 2)) as [E|Hne].
      * now rewrite E.
      * specialize (Hs3 (Z.to_nat (k + 2)) ltac:(lia)).
        rewrite step_used_in_img1 in Hs3 by lia.
        destruct (Z.ltb_spec (Z.of_nat (Z.to_nat (k + 2))) (k + 2));
          [lia | discriminate Hs3].
  - destruct H as (i & Hi & Hn).
    rewrite step_named_in_img1, Hnew_name in Hn by lia.
    discriminate Hn.
Qed.

(** the directory is full: [main] stops after the allocation *)
Lemma step_directory_full :
  64 <= k + 2 ->
  Adder.main img filepath fbuf now
  = Adder.Failed Adder.DirectoryFull 1 img1.
Proof.
  intros Hfull. rewrite step_main_to_scan, step_scan_gen.
  destruct (Z.ltb_spec (k + 2) 64); [lia | reflexivity].
Qed.

Hypothesis Hroom_dir : k + 2 < 64.

Lemma step_main_eq :
  Adder.main img filepath fbuf now
  = Adder.Written
      (Adder.commit img1 4096 12288 dblk (k + 1) (k + 2)
         (Adder.blocks_needed fsz) new_direct (k + 2) (k + 2) base fbuf fsz
         now).
Proof.
  rewrite step_main_to_scan, step_scan_gen.
  destruct (Z.ltb_spec (k + 2) 64) as [_|Hge]; [|lia].
  destruct (Z.ltb_spec (k + 2) 0) as [Hneg|_]; [lia|].
  reflexivity.
Qed.

(** the steps of [commit], one buffer after the other *)
Local Abbreviation inode2 :=
  (Adder.inode_crc_finalize
     {| mode := 32768; links := 1; uid := 0; gid := 0;
        size_bytes := u64 fsz;
        atime := u64 now; mtime := u64 now; ctime := u64 now;
        direct := new_direct;
        reserved_0 := 0; reserved_1 := 0; reserved_2 := 0;
        proj_id := 14; uid16_gid16 := 0; xattr_ptr := 0; inode_crc := 0 |}).
Local Abbreviation m1 :=
  (write_bytes img1 (12288 + (k + 1) * 128) (inode_bytes inode2)).
Local Abbreviation m2 := (bitmap_set m1 4096 (k + 1)).
Local Abbreviation m3 := (Adder.write_file_data nb 0 m2 new_direct fbuf fsz).
Local Abbreviation de2 :=
  (dirent_checksum_finalize
     (mk_dirent (k + 2) 1 (strncpy (name zero_dirent) base 57)
        (de_checksum zero_dirent))).
Local Abbreviation m4 :=
  (write_bytes m3 (dblk + (k + 2) * 64) (dirent_bytes de2)).
Local Abbreviation root2 :=
  (Adder.inode_crc_finalize
     (set_links_size root (u16 (links root + 1))
        (u64 (u64 (k + 2 + 1) * 64)))).
Local Abbreviation m5 := (write_bytes m4 12288 (inode_bytes root2)).
Local Abbreviation sb2 :=
  (Adder.superblock_crc_finalize
     (set_mtime_epoch (load_superblock img 0) (u64 now))).
Local Abbreviation out := (write_bytes m5 0 (superblock_bytes sb2)).

Lemma step_length_m1 : Z.of_nat (length m1) = tb * 4096.
Proof. now rewrite length_write_bytes, step_length_img1. Qed.

Lemma step_length_m2 : Z.of_nat (length m2) = tb * 4096.
Proof. rewrite length_bitmap_set. exact step_length_m1. Qed.

Lemma step_length_m3 : Z.of_nat (length m3) = tb * 4096.
Proof. rewrite length_write_file_data. exact step_length_m2. Qed.

Lemma step_length_m5 : Z.of_nat (length m5) = tb * 4096.
Proof. rewrite !length_write_bytes. exact step_length_m3. Qed.

Lemma step_length_out : Z.of_nat (length out) = tb * 4096.
Proof. rewrite length_write_bytes. exact step_length_m5. Qed.

Lemma step_m1_frame (p : Z) (n : nat) :
  0 <= p ->
  p + Z.of_nat n <= 12288 + (k + 1) * 128 \/
  12288 + (k + 1) * 128 + 128 <= p ->
  read_bytes m1 p n = read_bytes img1 p n.
Proof.
  intros Hp Hd. apply read_bytes_write_other; [lia | exact Hp|].
  rewrite length_inode_bytes. lia.
Qed.

Lemma step_m2_frame (p : Z) (n : nat) :
  0 <= p -> p + Z.of_nat n <= 4096 \/ 8192 <= p ->
  read_bytes m2 p n = read_bytes m1 p n.
Proof.
  intros Hp Hd. apply read_bytes_bitmap_set_other; try lia.
  pose proof (Z.div_pos (k + 1) 8 ltac:(lia) ltac:(lia)).
  assert ((k + 1) / 8 < 4096) by (apply Z.div_lt_upper_bound; lia).
  lia.
Qed.

Lemma step_copy_facts :
  (forall t, (t < nb)%nat ->
     read_bytes m3 ((drs + m + 1 + Z.of_nat t) * 4096) 4096
     = read_bytes fbuf (Z.of_nat t * 4096) 4096) /\
  (forall p n, 0 <= p ->
     p + Z.of_nat n <= (drs + m + 1) * 4096 \/
     (drs + m + 1 + Z.of_nat nb) * 4096 <= p ->
     read_bytes m3 p n = read_bytes m2 p n).
Proof.
  destruct step_nb_bound as [Hn _].
  destruct (write_file_data_gen new_direct fbuf nb m2 0 ltac:(lia)
              ltac:(rewrite step_length_m2; lia)) as [I1 I2].
  - intros t Ht. rewrite step_nth_new_direct, step_length_m2.
    destruct (Nat.ltb_spec t nb); lia.
  - intros s t Hs Ht. rewrite !step_nth_new_direct.
    destruct (Nat.ltb_spec s nb); destruct (Nat.ltb_spec t nb); lia.
  - change (Z.of_nat 0) with 0 in I1, I2. split.
    + intros t Ht. specialize (I1 t ltac:(lia)).
      rewrite step_nth_new_direct in I1.
      destruct (Nat.ltb_spec t nb); [exact I1 | lia].
    + intros p n Hp Hd. apply I2; [exact Hp|].
      intros t Ht. rewrite step_nth_new_direct.
      destruct (Nat.ltb_spec t nb); lia.
Qed.

Lemma step_out_frame (p : Z) (n : nat) :
  116 <= p ->
  p + Z.of_nat n <= 12288 \/ 12416 <= p ->
  p + Z.of_nat n <= dblk + (k + 2) * 64 \/ dblk + (k + 2) * 64 + 64 <= p ->
  read_bytes out p n = read_bytes m3 p n.
Proof.
  intros Hp H1 H2.
  rewrite read_bytes_write_other
    by (rewrite ?length_superblock_bytes; unfold SB_SIZE; lia).
  rewrite read_bytes_write_other by (rewrite ?length_inode_bytes; lia).
  apply read_bytes_write_other; try lia.
  rewrite length_dirent_bytes. lia.
Qed.

(** what the run leaves alone *)
Lemma step_frame (p : Z) (n : nat) :
  116 <= p ->
  p + Z.of_nat n <= 4096 \/ 12416 <= p ->
  p + Z.of_nat n <= 12288 + (k + 1) * 128 \/
  12288 + (k + 1) * 128 + 128 <= p ->
  p + Z.of_nat n <= dblk + (k + 2) * 64 \/ dblk + (k + 2) * 64 + 64 <= p ->
  p + Z.of_nat n <= (drs + m + 1) * 4096 \/
  (drs + m + 1 + Z.of_nat nb) * 4096 <= p ->
  read_bytes out p n = read_bytes img p n.
Proof.
  intros Hp H1 H2 H3 H4.
  rewrite step_out_frame by lia. rewrite (proj2 step_copy_facts) by lia.
  rewrite step_m2_frame, step_m1_frame by lia.
  apply step_img1_frame; lia.
Qed.

Lemma step_root_in_m4 : load_inode m4 12288 = root.
Proof.
  rewrite <- step_root_in_img1. apply load_inode_ext; [lia|].
  rewrite read_bytes_write_other by (rewrite ?length_dirent_bytes; lia).
  rewrite (proj2 step_copy_facts) by lia.
  rewrite step_m2_frame, step_m1_frame by lia. reflexivity.
Qed.

Lemma step_superblock_in_m5 : load_superblock m5 0 = load_superblock img 0.
Proof.
  apply load_superblock_ext.
  rewrite read_bytes_write_other by (rewrite ?length_inode_bytes; lia).
  rewrite read_bytes_write_other by (rewrite ?length_dirent_bytes; lia).
  rewrite (proj2 step_copy_facts) by lia.
  rewrite step_m2_frame, step_m1_frame, step_img1_frame by lia. reflexivity.
Qed.

Lemma step_commit_eq :
  Adder.commit img1 4096 12288 dblk (k + 1) (k + 2)
    (Adder.blocks_needed fsz) new_direct (k + 2) (k + 2) base fbuf fsz now
  = out.
Proof.
  unfold Adder.commit. rewrite step_root_in_m4, step_superblock_in_m5.
  reflexivity.
Qed.

Lemma step_new_direct_eq :
  new_direct
  = map (fun t => drs + m + Z.of_nat t) (seq 1 nb) ++ repeat 0 (12 - nb).
Proof.
  destruct step_nb_bound as [Hn _].
  apply nth_ext with (d := 0) (d' := 0).
  - rewrite step_length_new_direct, length_app, length_map, length_seq,
      repeat_length. lia.
  - intros t Ht. rewrite step_length_new_direct in Ht.
    rewrite step_nth_new_direct.
    destruct (Nat.ltb_spec t nb) as [Hlt|Hge].
    + rewrite app_nth1 by (rewrite length_map, length_seq; exact Hlt).
      rewrite (nth_indep _ 0 (drs + m + Z.of_nat 0))
        by (rewrite length_map, length_seq; exact Hlt).
      rewrite (map_nth (fun t => drs + m + Z.of_nat t)), seq_nth by exact Hlt.
      lia.
    + rewrite app_nth2 by (rewrite length_map, length_seq; exact Hge).
      now rewrite nth_repeat0.
Qed.

Lemma step_new_direct_in_range :
  Forall (fun x => 0 <= x < 2 ^ 32) new_direct.
Proof.
  apply Forall_forall. intros x Hx.
  destruct (In_nth _ _ 0 Hx) as (t & Ht & <-).
  rewrite step_length_new_direct in Ht. rewrite step_nth_new_direct.
  destruct (Nat.ltb_spec t nb); lia.
Qed.

Lemma step_inode2_in_range : inode_in_range inode2.
Proof.
  apply adder_inode_finalize_in_range.
  pose proof (Z.mod_pos_bound now (2 ^ 64) ltac:(lia)).
  pose proof (Z.mod_pos_bound fsz (2 ^ 64) ltac:(lia)).
  unfold inode_in_range, u64.
  cbn [mode links uid gid size_bytes atime mtime ctime direct reserved_0
       reserved_1 reserved_2 proj_id uid16_gid16 xattr_ptr inode_crc].
  split_all; try lia.
  - apply step_length_new_direct.
  - apply step_new_direct_in_range.
Qed.

Lemma step_root2_in_range : inode_in_range root2.
Proof.
  apply adder_inode_finalize_in_range.
  pose proof (Z.mod_pos_bound (links root + 1) (2 ^ 16) ltac:(lia)).
  pose proof (Z.mod_pos_bound (u64 (k + 2 + 1) * 64) (2 ^ 64) ltac:(lia)).
  pose proof Hrootr as Hr. unfold inode_in_range in *. unfold u16.
  unfold u64 at 1.
  cbn [mode links uid gid size_bytes atime mtime ctime direct reserved_0
       reserved_1 reserved_2 proj_id uid16_gid16 xattr_ptr inode_crc
       set_links_size].
  split_all; try tauto; lia.
Qed.

Lemma step_root2_fields :
  nth 0 (direct root2) 0 = drs /\ links root2 = k + 3 /\
  size_bytes root2 = (k + 3) * 64.
Proof.
  rewrite adder_inode_finalize_eq.
  match goal with |- context [set_inode_crc _ ?c] => generalize c end.
  intros c.
  cbn [set_inode_crc set_links_size direct links size_bytes].
  rewrite Hrootl. unfold u16, u64.
  rewrite (Z.mod_small (k + 2 + 1) (2 ^ 64)) by lia.
  rewrite !Z.mod_small by lia.
  split; [exact Hroot0|]. split; lia.
Qed.

Lemma step_de2_in_range : dirent_in_range de2.
Proof.
  apply dirent_finalize_in_range; try lia.
  - unfold strncpy. rewrite length_app, length_strncpy_bytes. reflexivity.
  - unfold strncpy. apply bytes_ok_app; [apply bytes_ok_strncpy_bytes|].
    apply bytes_ok_skipn, bytes_ok_repeat0.
Qed.

Lemma step_out_superblock : load_superblock out 0 = sb2.
Proof.
  apply write_superblock_read_back.
  - pose proof step_length_m5. lia.
  - apply finalized_superblock_in_range; [exact Hsbr|].
    apply Z.mod_pos_bound. lia.
Qed.

Lemma step_sb2_fields :
  superblock_in_range sb2 /\
  block_size sb2 = BS /\ magic sb2 = MAGIC /\ inode_count sb2 = icount /\
  inode_bitmap_start sb2 = 1 /\ data_bitmap_start sb2 = 2 /\
  inode_table_start sb2 = 3 /\ data_region_start sb2 = drs /\
  data_region_blocks sb2 = tb - drs.
Proof.
  split.
  { apply finalized_superblock_in_range; [exact Hsbr|].
    apply Z.mod_pos_bound. lia. }
  rewrite adder_superblock_finalize_eq.
  match goal with |- context [set_checksum _ ?c] => generalize c end.
  intros c.
  cbn [set_checksum set_mtime_epoch block_size magic inode_count
       inode_bitmap_start data_bitmap_start inode_table_start
       data_region_start data_region_blocks].
  split_all; assumption.
Qed.

Lemma step_out_root : load_inode out 12288 = root2.
Proof.
  rewrite (load_inode_ext out m5 12288);
    [|lia|apply read_bytes_write_other;
           rewrite ?length_superblock_bytes; unfold SB_SIZE; lia].
  apply load_inode_write_same; [exact step_root2_in_range | lia|].
  rewrite !length_write_bytes, step_length_m3. lia.
Qed.

Lemma step_out_inode2 : load_inode out (12288 + (k + 1) * 128) = inode2.
Proof.
  rewrite (load_inode_ext out m1 (12288 + (k + 1) * 128)); [|lia|].
  - apply load_inode_write_same; [exact step_inode2_in_range | lia|].
    rewrite step_length_img1, Hlen. lia.
  - rewrite step_out_frame by lia. rewrite (proj2 step_copy_facts) by lia.
    apply step_m2_frame; lia.
Qed.

Lemma step_out_dirent : load_dirent out (dblk + (k + 2) * 64) = de2.
Proof.
  rewrite (load_dirent_ext out m4 (dblk + (k + 2) * 64)); [|lia|].
  - apply load_dirent_write_same; [exact step_de2_in_range | lia|].
    rewrite step_length_m3. lia.
  - rewrite read_bytes_write_other
      by (rewrite ?length_superblock_bytes; unfold SB_SIZE; lia).
    apply read_bytes_write_other; try lia.
    rewrite length_inode_bytes. lia.
Qed.

Lemma step_out_data (t : nat) :
  (t < nb)%nat ->
  read_bytes out ((drs + m + 1 + Z.of_nat t) * 4096) 4096
  = read_bytes fbuf (Z.of_nat t * 4096) 4096.
Proof.
  intros Ht. rewrite step_out_frame by lia.
  now apply (proj1 step_copy_facts).
Qed.

Lemma step_out_inode_bits (j : Z) :
  0 <= j < 32768 -> bitmap_test out 4096 j = if j <=? k + 1 then 1 else 0.
Proof.
  intros Hj.
  pose proof (Z.div_pos j 8 ltac:(lia) ltac:(lia)).
  assert (j / 8 < 4096) by (apply Z.div_lt_upper_bound; lia).
  pose proof (Z.div_pos (k + 1) 8 ltac:(lia) ltac:(lia)).
  assert ((k + 1) / 8 < 4096) by (apply Z.div_lt_upper_bound; lia).
  assert (Hc2 : get8 out (4096 + j / 8) = get8 m2 (4096 + j / 8)).
  { apply get8_ext; [lia|].
    rewrite step_out_frame by lia. apply (proj2 step_copy_facts); lia. }
  rewrite (bitmap_test_ext out m2 4096 j ltac:(lia) Hc2).
  destruct (Z.eq_dec j (k + 1)) as [->|Hne].
  - rewrite bitmap_set_test_same; try lia.
    + destruct (Z.leb_spec (k + 1) (k + 1)); [reflexivity | lia].
    + rewrite step_length_m1. lia.
  - rewrite bitmap_set_test_other; try lia.
    + assert (Hc1 : get8 m1 (4096 + j / 8) = get8 img (4096 + j / 8)).
      { apply get8_ext; [lia|].
        rewrite step_m1_frame by lia. apply step_img1_frame; lia. }
      rewrite (bitmap_test_ext m1 img 4096 j ltac:(lia) Hc1).
      rewrite Hibits by exact Hj.
      destruct (Z.leb_spec j k); destruct (Z.leb_spec j (k + 1)); lia.
    + rewrite step_length_m1. lia.
Qed.

Lemma step_out_data_bits (j : Z) :
  0 <= j < 32768 ->
  bitmap_test out 8192 j = if j <=? m + Z.of_nat nb then 1 else 0.
Proof.
  intros Hj.
  pose proof (Z.div_pos j 8 ltac:(lia) ltac:(lia)).
  assert (j / 8 < 4096) by (apply Z.div_lt_upper_bound; lia).
  assert (Hc1 : get8 out (8192 + j / 8) = get8 img1 (8192 + j / 8)).
  { apply get8_ext; [lia|].
    rewrite step_out_frame by lia. rewrite (proj2 step_copy_facts) by lia.
    rewrite step_m2_frame by lia. apply step_m1_frame; lia. }
  rewrite (bitmap_test_ext out img1 8192 j ltac:(lia) Hc1).
  now apply step_img1_data_bits.
Qed.

Lemma step_out_used (i : nat) :
  (i < 64)%nat -> entry_used out dblk i = (Z.of_nat i <? k + 1 + 2).
Proof.
  intros Hi. destruct (Z.eq_dec (Z.of_nat i) (k + 2)) as [E|Hne].
  - unfold entry_used, dir_entry. rewrite E, step_out_dirent.
    rewrite dirent_finalize_eq. cbn [inode_no set_de_checksum].
    destruct (Z.eqb_spec (k + 2) 0); [lia|].
    destruct (Z.ltb_spec (k + 2) (k + 1 + 2)); [reflexivity | lia].
  - unfold entry_used.
    replace (dir_entry out dblk i) with (dir_entry img dblk i).
    + fold (entry_used img dblk i). rewrite Hused by exact Hi.
      destruct (Z.ltb_spec (Z.of_nat i) (k + 2));
        destruct (Z.ltb_spec (Z.of_nat i) (k + 1 + 2)); lia.
    + unfold dir_entry. symmetry. apply load_dirent_ext; [lia|].
      apply step_frame; lia.
Qed.

Lemma step_inode2_eq :
  inode2
  = Adder.inode_crc_finalize
      {| mode := 32768; links := 1; uid := 0; gid := 0;
         size_bytes := fsz;
         atime := u64 now; mtime := u64 now; ctime := u64 now;
         direct := map (fun t => drs + m + Z.of_nat t) (seq 1 nb)
                   ++ repeat 0 (12 - nb);
         reserved_0 := 0; reserved_1 := 0; reserved_2 := 0;
         proj_id := 14; uid16_gid16 := 0; xattr_ptr := 0; inode_crc := 0 |}.
Proof.
  rewrite <- step_new_direct_eq.
  replace (u64 fsz) with fsz by (unfold u64; rewrite Z.mod_small; lia).
  reflexivity.
Qed.

Lemma step_root2_eq :
  root2
  = Adder.inode_crc_finalize (set_links_size root (k + 3) ((k + 3) * 64)).
Proof.
  rewrite Hrootl. unfold u16, u64.
  rewrite (Z.mod_small (k + 2 + 1) (2 ^ 64)) by lia.
  rewrite !Z.mod_small by lia.
  replace (k + 2 + 1) with (k + 3) by lia. reflexivity.
Qed.

Lemma step_state : image_state out icount tb itb (k + 1) (m + Z.of_nat nb).
Proof.
  destruct step_sb2_fields as (S0 & S1 & S2 & S3 & S4 & S5 & S6 & S7 & S8).
  destruct step_root2_fields as (R1 & R2 & R3).
  unfold image_state. rewrite step_out_superblock, step_out_root.
  split; [split_all; lia|].
  split; [split; [exact step_length_out | exact S0]|].
  split; [split_all; assumption|].
  split; [split_all; lia|].
  split; [exact step_out_inode_bits|].
  split; [exact step_out_data_bits|].
  split; [split_all; [exact step_root2_in_range | exact R1 | lia | lia]|].
  exact step_out_used.
Qed.

(** the outcome of the run, in one statement *)
Lemma step_outcome :
  let r := Adder.main img filepath fbuf now in
  let res := Adder.buffer_of r in
  Adder.error_of r = None /\
  image_state res icount tb itb (k + 1) (m + Z.of_nat nb) /\
  load_inode res (12288 + (k + 1) * 128)
  = Adder.inode_crc_finalize
      {| mode := 32768; links := 1; uid := 0; gid := 0;
         size_bytes := fsz;
         atime := u64 now; mtime := u64 now; ctime := u64 now;
         direct := map (fun t => drs + m + Z.of_nat t) (seq 1 nb)
                   ++ repeat 0 (12 - nb);
         reserved_0 := 0; reserved_1 := 0; reserved_2 := 0;
         proj_id := 14; uid16_gid16 := 0; xattr_ptr := 0; inode_crc := 0 |} /\
  load_dirent res (dblk + (k + 2) * 64)
  = dirent_checksum_finalize
      (mk_dirent (k + 2) 1 (strncpy (name zero_dirent) base 57)
         (de_checksum zero_dirent)) /\
  (forall t, (t < nb)%nat ->
     read_bytes res ((drs + m + 1 + Z.of_nat t) * 4096) 4096
     = read_bytes fbuf (Z.of_nat t * 4096) 4096) /\
  load_inode res 12288
  = Adder.inode_crc_finalize (set_links_size root (k + 3) ((k + 3) * 64)) /\
  load_superblock res 0
  = Adder.superblock_crc_finalize
      (set_mtime_epoch (load_superblock img 0) (u64 now)) /\
  (forall p n,
     116 <= p ->
     p + Z.of_nat n <= 4096 \/ 12416 <= p ->
     p + Z.of_nat n <= 12288 + (k + 1) * 128 \/
     12288 + (k + 1) * 128 + 128 <= p ->
     p + Z.of_nat n <= dblk + (k + 2) * 64 \/
     dblk + (k + 2) * 64 + 64 <= p ->
     p + Z.of_nat n <= (drs + m + 1) * 4096 \/
     (drs + m + 1 + Z.of_nat nb) * 4096 <= p ->
     read_bytes res p n = read_bytes img p n).
Proof.
  intros r res. subst res r. rewrite step_main_eq, step_commit_eq.
  cbn [Adder.error_of Adder.buffer_of].
  split; [reflexivity|].
  split; [exact step_state|].
  split; [rewrite step_out_inode2; exact step_inode2_eq|].
  split; [exact step_out_dirent|].
  split; [exact step_out_data|].
  split; [rewrite step_out_root; exact step_root2_eq|].
  split; [exact step_out_superblock|].
  exact step_frame.
Qed.

End Step.

(** ** Consistent images *)

Lemma builder_root_size (skib icount now : Z) :
  valid_params skib icount ->
  let itb := (icount * 128 + 4095) / 4096 in
  size_bytes
    (Builder.root_inode_of
       (Builder.mk_layout (skib * 1024 / 4096) 1 2 3 itb (3 + itb)
          (skib * 1024 / 4096 - (3 + itb))) now) = 2 * 64.
Proof.
  intros Hv itb. unfold Builder.root_inode_of.
  rewrite builder_inode_finalize_eq.
  match goal with |- context [set_inode_crc _ ?c] => generalize c end.
  intros c. reflexivity.
Qed.

Lemma builder_entries_used
    (skib icount : Z) (path : list Z) (now : Z) (after : nat -> Z) (i : nat) :
  valid_params skib icount -> (i < 64)%nat ->
  entry_used
    (Builder.image_of (Builder.main (Some path) skib icount now after))
    ((3 + (icount * 128 + 4095) / 4096) * 4096) i
  = (Z.of_nat i <? 0 + 2).
Proof.
  intros Hv Hi. pose proof (itb_bounds _ _ Hv) as Hitb.
  destruct (fresh_dirents _ _ Hv path now after) as [Hdot Hdotdot].
  pose proof (fresh_root_block_rest _ _ Hv path now after) as Hrest.
  unfold entry_used, dir_entry.
  destruct i as [|[|i]].
  - change (Z.of_nat 0 * 64) with 0. rewrite Z.add_0_r, Hdot. reflexivity.
  - change (Z.of_nat 1 * 64) with 64. rewrite Hdotdot. reflexivity.
  - unfold load_dirent. cbn [inode_no]. unfold get_le.
    replace ((3 + (icount * 128 + 4095) / 4096) * 4096
             + Z.of_nat (S (S i)) * 64)
      with ((3 + (icount * 128 + 4095) / 4096) * 4096 + 128
            + (Z.of_nat (S (S i)) * 64 - 128)) by lia.
    rewrite <- (read_bytes_sub _ _ (Z.of_nat (S (S i)) * 64 - 128) 3968 4)
      by lia.
    rewrite Hrest, read_bytes_repeat0.
    destruct (Z.ltb_spec (Z.of_nat (S (S i))) (0 + 2)); [lia | reflexivity].
Qed.

Lemma builder_image_state
    (skib icount : Z) (path : list Z) (now : Z) (after : nat -> Z) :
  valid_params skib icount ->
  image_state
    (Builder.image_of (Builder.main (Some path) skib icount now after))
    icount (skib * 1024 / 4096) ((icount * 128 + 4095) / 4096) 0 0.
Proof.
  intros Hv.
  pose proof (itb_bounds _ _ Hv) as Hitb.
  pose proof (tb_bounds _ _ Hv) as Htb.
  pose proof (itb_covers icount) as Hcov.
  pose proof Hv as (_ & _ & Hic).
  pose proof (builder_image_length _ _ Hv path now after) as Hlen.
  rewrite <- (tb_exact _ _ Hv) in Hlen.
  destruct (builder_superblock_fields skib icount path now after Hv)
    as (F1 & F2 & F3 & F4 & F5 & F6 & F7 & F8).
  destruct (builder_image_regions _ _ Hv path now after)
    as (R1 & R2 & _ & _).
  pose proof (fresh_root_inode _ _ Hv path now after) as Hroot.
  pose proof (root_inode_in_range _ _ Hv now) as Hrootr.
  destruct (builder_root_fields skib icount now Hv) as [Hroot0 Hrootl].
  pose proof (builder_root_size skib icount now Hv) as Hroots.
  cbv zeta in Hroot0, Hrootl, Hroots.
  rewrite <- Hroot in Hrootr, Hroot0, Hrootl, Hroots.
  unfold image_state.
  split; [split_all; lia|].
  split.
  { split; [exact Hlen|]. rewrite (builder_image_superblock _ _ Hv).
    apply planned_in_range, Hv. }
  split; [split_all; assumption|].
  split; [split_all; lia|].
  split.
  { intros j Hj. rewrite (first_bit_only _ 4096 j ltac:(lia) R1 Hj).
    destruct (Z.eqb_spec j 0); destruct (Z.leb_spec j 0); lia. }
  split.
  { intros j Hj. rewrite (first_bit_only _ 8192 j ltac:(lia) R2 Hj).
    destruct (Z.eqb_spec j 0); destruct (Z.leb_spec j 0); lia. }
  split; [split_all; assumption|].
  intros i Hi. now apply builder_entries_used.
Qed.

(** X20: every image the builder writes is a consistent image with no
    files: the superblock describes the planned layout, only inode 1 and
    data block 0 are allocated, the root inode points to the first data
    block with 2 links and size 128, and exactly the first two entries of
    the root directory are in use. *)
Theorem builder_image_is_consistent
    (skib icount : Z) (path : list Z) (now : Z) (after : nat -> Z) :
  valid_params skib icount ->
  image_state
    (Builder.image_of (Builder.main (Some path) skib icount now after))
    icount (skib * 1024 / 4096) (ceil_div (icount * 128) 4096) 0 0.
Proof.
  intros Hv. rewrite <- (itb_ceil icount). now apply builder_image_state.
Qed.

Lemma builder_image_is_consistent_witness :
  valid_params 180 128 /\
  image_state fresh_image 128 (180 * 1024 / 4096)
    (ceil_div (128 * 128) 4096) 0 0.
Proof.
  assert (Hv : valid_params 180 128)
    by (unfold valid_params; split_all; (reflexivity || lia)).
  split; [exact Hv|].
  exact (builder_image_is_consistent 180 128 image_path 1700000000
           (fun _ => 0) Hv).
Defined.

Ltac feed H :=
  repeat match type of H with
         | ?A -> _ =>
             let a := fresh in
             assert (a : A) by (assumption || lia); specialize (H a); clear a
         end.

(** X21: on a consistent image with k files in m data blocks, adding a
    file of at most 12 * 4096 bytes succeeds whenever an inode, a directory
    entry and enough data blocks are free and no entry in use has the
    file's base name; the output is a consistent image with k + 1 files in
    m + n data blocks, the new inode k + 2 describes the file with direct
    pointers to the blocks data_region_start + m + 1 .. + m + n, entry
    k + 2 of the root directory names it, block t of the file holds its
    bytes from t * 4096 padded with zeros, the root inode is the old one
    with k + 3 links and size (k + 3) * 64, the superblock is the old one
    with a new mtime_epoch and checksum, and every byte outside the
    superblock, the two bitmap blocks, the root inode, the new inode, the
    new directory entry and the new data blocks is unchanged (so the files
    added before stay as they were). *)
Theorem adder_keeps_the_image_consistent
    (img : list Z) (icount tb itb k m : Z) (filepath fbuf : list Z) (now : Z) :
  image_state img icount tb itb k m ->
  let nblk := Z.to_nat (Adder.blocks_needed (Z.of_nat (length fbuf))) in
  let dblk := (3 + itb) * 4096 in
  Z.of_nat (length fbuf) <= 12 * 4096 ->
  k + 1 < icount -> k + 2 < 64 -> m + Z.of_nat nblk < tb - (3 + itb) ->
  (forall i, (i < 64)%nat ->
     entry_named img dblk (basename filepath) i = false) ->
  let r := Adder.main img filepath fbuf now in
  let res := Adder.buffer_of r in
  Adder.error_of r = None /\
  image_state res icount tb itb (k + 1) (m + Z.of_nat nblk) /\
  load_inode res (3 * 4096 + (k + 1) * 128)
  = Adder.inode_crc_finalize
      {| mode := 32768; links := 1; uid := 0; gid := 0;
         size_bytes := Z.of_nat (length fbuf);
         atime := u64 now; mtime := u64 now; ctime := u64 now;
         direct := map (fun t => 3 + itb + m + Z.of_nat t) (seq 1 nblk)
                   ++ repeat 0 (12 - nblk);
         reserved_0 := 0; reserved_1 := 0; reserved_2 := 0;
         proj_id := 14; uid16_gid16 := 0; xattr_ptr := 0; inode_crc := 0 |} /\
  load_dirent res (dblk + (k + 2) * 64)
  = dirent_checksum_finalize
      (mk_dirent (k + 2) 1 (strncpy (repeat 0 58) (basename filepath) 57) 0) /\
  (forall t, (t < nblk)%nat ->
     read_bytes res ((3 + itb + m + 1 + Z.of_nat t) * 4096) 4096
     = read_bytes fbuf (Z.of_nat t * 4096) 4096) /\
  load_inode res (3 * 4096)
  = Adder.inode_crc_finalize
      (set_links_size (load_inode img (3 * 4096)) (k + 3) ((k + 3) * 64)) /\
  load_superblock res 0
  = Adder.superblock_crc_finalize
      (set_mtime_epoch (load_superblock img 0) (u64 now)) /\
  (forall p n,
     116 <= p ->
     p + Z.of_nat n <= 4096 \/ 3 * 4096 + 128 <= p ->
     p + Z.of_nat n <= 3 * 4096 + (k + 1) * 128 \/
     3 * 4096 + (k + 1) * 128 + 128 <= p ->
     p + Z.of_nat n <= dblk + (k + 2) * 64 \/
     dblk + (k + 2) * 64 + 64 <= p ->
     p + Z.of_nat n <= (3 + itb + m + 1) * 4096 \/
     (3 + itb + m + 1 + Z.of_nat nblk) * 4096 <= p ->
     read_bytes res p n = read_bytes img p n).
Proof.
  intros Hst nblk dblk Hsize Hri Hrd Hrb Hname.
  destruct Hst as ((Hitb & Htb & Hic & Hcov & _) & (Hlen & Hsbr)
                   & (F1 & F2 & F3 & F4 & F5 & F6 & F7 & F8)
                   & (Hk & Hkd & Hm) & Hib & Hdb
                   & (Hrr & Hr0 & Hrl & _) & Hused).
  pose proof (step_outcome img icount tb itb k m) as H. feed H.
  specialize (H filepath fbuf now). feed H. exact H.
Qed.

Lemma builder_no_such_name
    (skib icount : Z) (path : list Z) (now : Z) (after : nat -> Z)
    (base : list Z) (i : nat) :
  valid_params skib icount -> Forall char_ok base ->
  base <> [46] -> base <> [46; 46] -> (i < 64)%nat ->
  entry_named
    (Builder.image_of (Builder.main (Some path) skib icount now after))
    ((3 + (icount * 128 + 4095) / 4096) * 4096) base i = false.
Proof.
  intros Hv Hchars Hnd Hndd Hi. unfold entry_named.
  rewrite (builder_entries_used skib icount path now after i Hv Hi).
  destruct (Z.ltb_spec (Z.of_nat i) (0 + 2)) as [Hlt|Hge]; [|reflexivity].
  cbn [andb]. apply Z.eqb_neq. intros Hcmp.
  destruct (fresh_dirents _ _ Hv path now after) as [Hdot Hdotdot].
  assert (H46 : Forall char_ok [46])
    by (repeat constructor; unfold char_ok; lia).
  assert (H4646 : Forall char_ok [46; 46])
    by (repeat constructor; unfold char_ok; lia).
  unfold dir_entry in Hcmp.
  destruct i as [|[|i]]; [| |lia].
  - change (Z.of_nat 0 * 64) with 0 in Hcmp.
    rewrite Z.add_0_r, Hdot in Hcmp.
    apply (proj1 (stored_name_match 57 [46] base H46 Hchars)) in Hcmp.
    now apply Hnd.
  - change (Z.of_nat 1 * 64) with 64 in Hcmp. rewrite Hdotdot in Hcmp.
    apply (proj1 (stored_name_match 57 [46; 46] base H4646 Hchars)) in Hcmp.
    now apply Hndd.
Qed.

Lemma adder_keeps_the_image_consistent_witness :
  Z.of_nat (length (file_of_size 5000)) <= 12 * 4096 /\
  Adder.error_of
    (Adder.main
       (Builder.image_of
          (Builder.main (Some image_path) 180 128 1700000000 (fun _ => 0)))
       hello_path (file_of_size 5000) 1700000001) = None.
Proof.
  assert (Hv : valid_params 180 128)
    by (unfold valid_params; split_all; (reflexivity || lia)).
  assert (Hst := builder_image_state 180 128 image_path 1700000000
                   (fun _ => 0) Hv).
  assert (Hsize : Z.of_nat (length (file_of_size 5000)) <= 12 * 4096)
    by (vm_compute; intros H; discriminate H).
  assert (Hri : 0 + 1 < 128) by lia.
  assert (Hrd : 0 + 2 < 64) by lia.
  assert (Hrb : 0 + Z.of_nat (Z.to_nat (Adder.blocks_needed
                                 (Z.of_nat (length (file_of_size 5000)))))
                < 180 * 1024 / 4096 - (3 + (128 * 128 + 4095) / 4096))
    by (vm_compute; reflexivity).
  assert (Hchars : Forall char_ok (basename hello_path))
    by (vm_compute; repeat constructor).
  assert (Hnd : basename hello_path <> [46])
    by (vm_compute; intros H; discriminate H).
  assert (Hndd : basename hello_path <> [46; 46])
    by (vm_compute; intros H; discriminate H).
  assert (Hname : forall i, (i < 64)%nat ->
            entry_named
              (Builder.image_of
                 (Builder.main (Some image_path) 180 128 1700000000
                    (fun _ => 0)))
              ((3 + (128 * 128 + 4095) / 4096) * 4096)
              (basename hello_path) i = false).
  { intros i Hi. now apply builder_no_such_name. }
  split; [exact Hsize|].
  exact (proj1 (adder_keeps_the_image_consistent _ 128 (180 * 1024 / 4096)
                  ((128 * 128 + 4095) / 4096) 0 0 hello_path
                  (file_of_size 5000) 1700000001
                  Hst Hsize Hri Hrd Hrb Hname)).
Defined.

(** X22: on a consistent image with k files in m data blocks the result
    of the adder is decided by the checks of main in their order: no free
    inode when k + 1 reaches inode_count, else file too large when the file
    has more than 12 * 4096 bytes, else no free data blocks when fewer than
    n blocks are free, else the duplicate-name error when an entry in use
    carries the base name, else directory full when all 64 entries are in
    use, else success; the exit code is 1 on every failure and 0 on
    success. *)
Theorem adder_outcome_on_consistent_image
    (img : list Z) (icount tb itb k m : Z) (filepath fbuf : list Z) (now : Z) :
  image_state img icount tb itb k m ->
  Z.of_nat (length fbuf) < 2 ^ 63 ->
  let nblk := Z.to_nat (Adder.blocks_needed (Z.of_nat (length fbuf))) in
  let dblk := (3 + itb) * 4096 in
  let r := Adder.main img filepath fbuf now in
  Adder.error_of r
  = (if icount <=? k + 1 then Some Adder.NoFreeInode
     else if 12 * 4096 <? Z.of_nat (length fbuf) then Some Adder.FileTooLarge
     else if tb - (3 + itb) <=? m + Z.of_nat nblk
          then Some Adder.NoFreeDataBlocks
     else if existsb (entry_named img dblk (basename filepath)) (seq 0 64)
          then Some Adder.AlreadyExists
     else if 64 <=? k + 2 then Some Adder.DirectoryFull
     else None) /\
  Adder.exit_code r
  = match Adder.error_of r with None => 0 | Some _ => 1 end.
Proof.
  intros Hst Hlong nblk dblk r.
  destruct Hst as ((Hitb & Htb & Hic & Hcov & _) & (Hlen & Hsbr)
                   & (F1 & F2 & F3 & F4 & F5 & F6 & F7 & F8)
                   & (Hk & Hkd & Hm) & Hib & Hdb
                   & (Hrr & Hr0 & Hrl & _) & Hused).
  assert (Hgoal : forall e code buf,
            r = Adder.Failed e code buf -> code = 1 ->
            forall x, x = Some e ->
            Adder.error_of r = x /\
            Adder.exit_code r
            = match Adder.error_of r with None => 0 | Some _ => 1 end).
  { intros e code buf -> -> x ->. split; reflexivity. }
  destruct (Z.leb_spec icount (k + 1)) as [Hfull|Hri].
  { pose proof (step_no_free_inode img icount tb k) as H. feed H.
    specialize (H filepath fbuf now). feed H.
    exact (Hgoal _ _ _ H eq_refl _ eq_refl). }
  destruct (Z.ltb_spec (12 * 4096) (Z.of_nat (length fbuf))) as [Hbig|Hsize].
  { pose proof (step_too_large img icount tb k) as H. feed H.
    specialize (H filepath fbuf now). feed H.
    exact (Hgoal _ _ _ H eq_refl _ eq_refl). }
  destruct (Z.leb_spec (tb - (3 + itb)) (m + Z.of_nat nblk)) as [Hnd|Hrb].
  { pose proof (step_no_data_blocks img icount tb itb k m) as H. feed H.
    specialize (H filepath fbuf now). feed H.
    exact (Hgoal _ _ _ H eq_refl _ eq_refl). }
  destruct (existsb (entry_named img dblk (basename filepath)) (seq 0 64))
    eqn:Hex.
  { apply existsb_exists in Hex. destruct Hex as (i & Hi & Hn).
    apply in_seq in Hi.
    pose proof (step_duplicate img icount tb itb k m) as H. feed H.
    specialize (H filepath fbuf now). feed H.
    specialize (H i ltac:(lia) Hn).
    exact (Hgoal _ _ _ H eq_refl _ eq_refl). }
  assert (Hname : forall i, (i < 64)%nat ->
            entry_named img dblk (basename filepath) i = false).
  { intros i Hi. destruct (entry_named img dblk (basename filepath) i) eqn:E;
      [|reflexivity].
    rewrite <- Hex. symmetry. apply existsb_exists. exists i.
    split; [apply in_seq; lia | exact E]. }
  destruct (Z.leb_spec 64 (k + 2)) as [Hdf|Hrd].
  { pose proof (step_directory_full img icount tb itb k m) as H. feed H.
    specialize (H filepath fbuf now). feed H.
    exact (Hgoal _ _ _ H eq_refl _ eq_refl). }
  pose proof (step_main_eq img icount tb itb k m) as H. feed H.
  specialize (H filepath fbuf now). feed H.
  subst r. rewrite H. split; reflexivity.
Qed.

Lemma adder_outcome_on_consistent_image_witness :
  Z.of_nat (length (file_of_size 5000)) < 2 ^ 63 /\
  Adder.exit_code
    (Adder.main
       (Builder.image_of
          (Builder.main (Some image_path) 180 128 1700000000 (fun _ => 0)))
       hello_path (file_of_size 5000) 1700000001)
  = match
      Adder.error_of
        (Adder.main
           (Builder.image_of
              (Builder.main (Some image_path) 180 128 1700000000
                 (fun _ => 0)))
           hello_path (file_of_size 5000) 1700000001)
    with
    | None => 0
    | Some _ => 1
    end.
Proof.
  assert (Hv : valid_params 180 128)
    by (unfold valid_params; split_all; (reflexivity || lia)).
  assert (Hst := builder_image_state 180 128 image_path 1700000000
                   (fun _ => 0) Hv).
  assert (Hlong : Z.of_nat (length (file_of_size 5000)) < 2 ^ 63)
    by (vm_compute; reflexivity).
  split; [exact Hlong|].
  exact (proj2 (adder_outcome_on_consistent_image _ 128 (180 * 1024 / 4096)
                  ((128 * 128 + 4095) / 4096) 0 0 hello_path
                  (file_of_size 5000) 1700000001 Hst Hlong)).
Defined.

(** ** The first file on an image the builder has just written *)

Lemma blocks_needed_le_12 (S : Z) :
  0 <= S <= 12 * 4096 -> 0 <= Adder.blocks_needed S <= 12.
Proof.
  intros HS. pose proof (blocks_needed_gt_12 S ltac:(lia)) as H12.
  rewrite blocks_needed_eq in * by lia.
  pose proof (Z.div_pos (S + 4095) 4096 ltac:(lia) ltac:(lia)).
  lia.
Qed.

(** X23: the two programs compose: for every valid parameter pair and
    every image the builder writes, adding a file of at most 12 * 4096
    bytes whose path is a C string with a base name other than . and ..
    succeeds with exit code 0; in the output exactly bits 0 and 1 of the
    inode bitmap and bits 0 .. n of the data bitmap are set (n the number
    of blocks of the file), inode #2 at offset 128 of the inode table is a
    regular file of the file's size whose direct pointers are the blocks
    data_region_start + 1 .. + n, the root inode has 3 links and size 192,
    entry 2 of the root directory names the file with inode 2 and type 1,
    block t of the file holds its bytes from t * 4096 padded with zeros,
    and the superblock differs from the input's only in mtime_epoch and
    checksum. *)
Theorem file_added_to_fresh_image
    (path filepath fbuf : list Z) (skib icount built now : Z)
    (after : nat -> Z) :
  valid_params skib icount ->
  Z.of_nat (length fbuf) <= 12 * 4096 ->
  Forall char_ok filepath ->
  basename filepath <> [46] -> basename filepath <> [46; 46] ->
  let img := Builder.image_of
               (Builder.main (Some path) skib icount built after) in
  let r := Adder.main img filepath fbuf now in
  let res := Adder.buffer_of r in
  let drs := 3 + ceil_div (icount * 128) 4096 in
  let nblk := Z.to_nat (Adder.blocks_needed (Z.of_nat (length fbuf))) in
  Adder.error_of r = None /\ Adder.exit_code r = 0 /\
  (forall j, 0 <= j < 8 * 4096 ->
     bitmap_test res (1 * 4096) j = if j <? 2 then 1 else 0) /\
  (forall j, 0 <= j < 8 * 4096 ->
     bitmap_test res (2 * 4096) j = if j <=? Z.of_nat nblk then 1 else 0) /\
  load_inode res (3 * 4096 + 128)
  = Adder.inode_crc_finalize
      {| mode := 32768; links := 1; uid := 0; gid := 0;
         size_bytes := Z.of_nat (length fbuf);
         atime := u64 now; mtime := u64 now; ctime := u64 now;
         direct := map (fun t => drs + Z.of_nat t) (seq 1 nblk)
                   ++ repeat 0 (12 - nblk);
         reserved_0 := 0; reserved_1 := 0; reserved_2 := 0;
         proj_id := 14; uid16_gid16 := 0; xattr_ptr := 0; inode_crc := 0 |} /\
  load_inode res (3 * 4096)
  = Adder.inode_crc_finalize
      (set_links_size (load_inode img (3 * 4096)) 3 (3 * 64)) /\
  load_dirent res (drs * 4096 + 2 * 64)
  = dirent_checksum_finalize
      (mk_dirent 2 1 (strncpy (repeat 0 58) (basename filepath) 57) 0) /\
  (forall t, (t < nblk)%nat ->
     read_bytes res ((drs + 1 + Z.of_nat t) * 4096) 4096
     = read_bytes fbuf (Z.of_nat t * 4096) 4096) /\
  load_superblock res 0
  = Adder.superblock_crc_finalize
      (set_mtime_epoch (load_superblock img 0) (u64 now)).
Proof.
  intros Hv Hsize Hchars Hnd Hndd img r res drs nblk.
  pose proof (blocks_needed_le_12 (Z.of_nat (length fbuf)) ltac:(lia)) as Hnb.
  pose proof (builder_image_state skib icount path built after Hv) as Hst.
  assert (Hbase : Forall char_ok (basename filepath)).
  { rewrite Forall_forall in *. intros c Hc. apply Hchars, in_basename, Hc. }
  assert (Hname : forall i, (i < 64)%nat ->
            entry_named img ((3 + (icount * 128 + 4095) / 4096) * 4096)
              (basename filepath) i = false)
    by (intros i Hi; now apply builder_no_such_name).
  destruct Hst as ((Hitb & Htb & Hic & Hcov & _) & (Hlen & Hsbr)
                   & (F1 & F2 & F3 & F4 & F5 & F6 & F7 & F8)
                   & (Hk & Hkd & Hm) & Hib & Hdb
                   & (Hrr & Hr0 & Hrl & _) & Hused).
  pose proof (step_outcome img icount (skib * 1024 / 4096)
                ((icount * 128 + 4095) / 4096) 0 0) as H.
  feed H. specialize (H filepath fbuf now). feed H.
  cbv zeta in H. fold r res nblk in H.
  destruct H as (H1 & Hst' & H4 & H6 & H7 & H5 & H8 & _).
  destruct Hst' as (_ & _ & _ & _ & Hib' & Hdb' & _ & _).
  subst drs. rewrite <- (itb_ceil icount).
  split; [exact H1|].
  split; [subst res; destruct r; [discriminate H1 | reflexivity]|].
  split.
  { intros j Hj. change (1 * 4096) with 4096. rewrite (Hib' j Hj).
    destruct (Z.leb_spec j (0 + 1)); destruct (Z.ltb_spec j 2); lia. }
  split; [exact Hdb'|].
  split.
  { rewrite (map_ext (fun t => 3 + (icount * 128 + 4095) / 4096 + Z.of_nat t)
               (fun t => 3 + (icount * 128 + 4095) / 4096 + 0 + Z.of_nat t))
      by (intros t; lia).
    exact H4. }
  split; [exact H5|]. split; [exact H6|].
  split; [|exact H8].
  intros t Ht. specialize (H7 t Ht).
  replace ((3 + (icount * 128 + 4095) / 4096 + 1 + Z.of_nat t) * 4096)
    with ((3 + (icount * 128 + 4095) / 4096 + 0 + 1 + Z.of_nat t) * 4096)
    by lia.
  exact H7.
Qed.

Lemma file_added_to_fresh_image_witness :
  valid_params 180 128 /\
  Z.of_nat (length (file_of_size 5000)) <= 12 * 4096 /\
  basename hello_path <> [46] /\ basename hello_path <> [46; 46] /\
  Adder.error_of
    (Adder.main
       (Builder.image_of
          (Builder.main (Some image_path) 180 128 1700000000 (fun _ => 0)))
       hello_path (file_of_size 5000) 1700000001) = None.
Proof.
  assert (Hv : valid_params 180 128)
    by (unfold valid_params; split_all; (reflexivity || lia)).
  assert (Hsize : Z.of_nat (length (file_of_size 5000)) <= 12 * 4096)
    by (vm_compute; intros H; discriminate H).
  assert (Hchars : Forall char_ok hello_path)
    by (repeat constructor).
  assert (Hnd : basename hello_path <> [46])
    by (vm_compute; intros H; discriminate H).
  assert (Hndd : basename hello_path <> [46; 46])
    by (vm_compute; intros H; discriminate H).
  split; [exact Hv|]. split; [exact Hsize|]. split; [exact Hnd|].
  split; [exact Hndd|].
  exact (proj1 (file_added_to_fresh_image image_path hello_path
                  (file_of_size 5000) 180 128 1700000000 1700000001
                  (fun _ => 0) Hv Hsize Hchars Hnd Hndd)).
Defined.

(** X24: adding a name twice: on every image the builder writes, a file of
    at most 12 * 4096 bytes whose path is a C string with a base name of 1
    to 57 characters other than . and .. is added with success, and a
    second run of the adder on that output with the same path (the file
    holding at most 12 * 4096 bytes by then) fails with the duplicate-name
    error and exit code 1, but only after the allocation loop has run: in
    the buffer bits 0 .. n + n2 of the data bitmap are set although only
    bits 0 .. n were set in the image that was loaded (n and n2 the block
    counts of the two runs), so for a non-empty file the buffer differs
    from that image. *)
Theorem same_name_rejected_after_allocation
    (path filepath fbuf fbuf2 : list Z) (skib icount built now now2 : Z)
    (after : nat -> Z) :
  valid_params skib icount ->
  Z.of_nat (length fbuf) <= 12 * 4096 ->
  Z.of_nat (length fbuf2) <= 12 * 4096 ->
  Forall char_ok filepath ->
  basename filepath <> [] ->
  basename filepath <> [46] -> basename filepath <> [46; 46] ->
  (length (basename filepath) <= 57)%nat ->
  let img := Builder.image_of
               (Builder.main (Some path) skib icount built after) in
  let first := Adder.main img filepath fbuf now in
  let out := Adder.buffer_of first in
  let r := Adder.main out filepath fbuf2 now2 in
  let n := Z.to_nat (Adder.blocks_needed (Z.of_nat (length fbuf))) in
  let n2 := Z.to_nat (Adder.blocks_needed (Z.of_nat (length fbuf2))) in
  Adder.error_of first = None /\
  Adder.error_of r = Some Adder.AlreadyExists /\ Adder.exit_code r = 1 /\
  (forall j, 0 <= j < 8 * 4096 ->
     bitmap_test out (2 * 4096) j = if j <=? Z.of_nat n then 1 else 0) /\
  (forall j, 0 <= j < 8 * 4096 ->
     bitmap_test (Adder.buffer_of r) (2 * 4096) j
     = if j <=? Z.of_nat n + Z.of_nat n2 then 1 else 0) /\
  (fbuf2 <> [] -> Adder.buffer_of r <> out).
Proof.
  intros Hv Hsize Hsize2 Hchars _ Hnd Hndd Hshort img first out r n n2.
  pose proof (blocks_needed_le_12 (Z.of_nat (length fbuf)) ltac:(lia)) as Hnb.
  pose proof (blocks_needed_le_12 (Z.of_nat (length fbuf2)) ltac:(lia))
    as Hnb2.
  pose proof (builder_image_state skib icount path built after Hv) as Hst.
  assert (Hbase : Forall char_ok (basename filepath)).
  { rewrite Forall_forall in *. intros c Hc. apply Hchars, in_basename, Hc. }
  assert (Hname : forall i, (i < 64)%nat ->
            entry_named img ((3 + (icount * 128 + 4095) / 4096) * 4096)
              (basename filepath) i = false)
    by (intros i Hi; now apply builder_no_such_name).
  destruct Hst as ((Hitb & Htb & Hic & Hcov & Hdr) & (Hlen & Hsbr)
                   & (F1 & F2 & F3 & F4 & F5 & F6 & F7 & F8)
                   & (Hk & Hkd & Hm) & Hib & Hdb
                   & (Hrr & Hr0 & Hrl & _) & Hused).
  (* the first run *)
  pose proof (step_outcome img icount (skib * 1024 / 4096)
                ((icount * 128 + 4095) / 4096) 0 0) as H.
  feed H. specialize (H filepath fbuf now). feed H.
  cbv zeta in H. fold first in H. fold out n in H.
  destruct H as (H1 & Hst' & _ & Hde & _).
  (* its entry carries the base name *)
  assert (Hdup : entry_named out ((3 + (icount * 128 + 4095) / 4096) * 4096)
                   (basename filepath) 2 = true).
  { unfold entry_named, entry_used, dir_entry.
    change (Z.of_nat 2 * 64) with ((0 + 2) * 64). rewrite Hde.
    unfold dirent_checksum_finalize.
    cbn [inode_no name set_de_checksum Z.add Pos.add Z.eqb negb andb].
    apply Z.eqb_eq.
    change (strncpy (name zero_dirent) (basename filepath) 57)
      with (strncpy_bytes (basename filepath) 57 ++ [0]).
    apply (stored_name_match 57 _ _ Hbase Hbase).
    symmetry. now apply firstn_all2. }
  (* the second run, on the output of the first *)
  destruct Hst' as ((_ & _ & _ & _ & _) & (Hlen' & Hsbr')
                    & (G1 & G2 & G3 & G4 & G5 & G6 & G7 & G8)
                    & (Hk' & Hkd' & Hm') & Hib' & Hdb'
                    & (Hrr' & Hr0' & Hrl' & _) & Hused').
  pose proof (step_duplicate_outcome out icount (skib * 1024 / 4096)
                ((icount * 128 + 4095) / 4096) (0 + 1) (0 + Z.of_nat n))
    as H'.
  feed H'. specialize (H' filepath fbuf2 now2). feed H'.
  specialize (H' 2%nat ltac:(lia) Hdup). cbv zeta in H'.
  fold r n2 in H'.
  destruct H' as (H2 & H3 & H4 & H5).
  split; [exact H1|]. split; [exact H2|]. split; [exact H3|].
  split; [exact Hdb'|]. split; [exact H4|]. exact H5.
Qed.

Lemma same_name_rejected_after_allocation_witness :
  valid_params 180 128 /\
  Z.of_nat (length (file_of_size 5000)) <= 12 * 4096 /\
  basename hello_path <> [] /\
  basename hello_path <> [46] /\ basename hello_path <> [46; 46] /\
  (length (basename hello_path) <= 57)%nat /\
  Adder.error_of
    (Adder.main
       (Adder.buffer_of
          (Adder.main
             (Builder.image_of
                (Builder.main (Some image_path) 180 128 1700000000
                   (fun _ => 0)))
             hello_path (file_of_size 5000) 1700000001))
       hello_path (file_of_size 5000) 1700000002)
  = Some Adder.AlreadyExists.
Proof.
  assert (Hv : valid_params 180 128)
    by (unfold valid_params; split_all; (reflexivity || lia)).
  assert (Hsize : Z.of_nat (length (file_of_size 5000)) <= 12 * 4096)
    by (vm_compute; intros H; discriminate H).
  assert (Hchars : Forall char_ok hello_path)
    by (repeat constructor).
  assert (Hne : basename hello_path <> [])
    by (vm_compute; intros H; discriminate H).
  assert (Hnd : basename hello_path <> [46])
    by (vm_compute; intros H; discriminate H).
  assert (Hndd : basename hello_path <> [46; 46])
    by (vm_compute; intros H; discriminate H).
  assert (Hshort : (length (basename hello_path) <= 57)%nat)
    by (vm_compute; lia).
  split; [exact Hv|]. split; [exact Hsize|]. split; [exact Hne|].
  split; [exact Hnd|]. split; [exact Hndd|]. split; [exact Hshort|].
  exact (proj1 (proj2
    (same_name_rejected_after_allocation image_path hello_path
       (file_of_size 5000) (file_of_size 5000) 180 128 1700000000
       1700000001 1700000002 (fun _ => 0)
       Hv Hsize Hsize Hchars Hne Hnd Hndd Hshort))).
Defined.
